(** * cellcutter.dataset: patch extraction around labelled objects

    A shallow embedding of [src/cellcutter/dataset.py] (class [Dataset]) and
    the properties of its patch extraction, window clipping and read
    operations.

    Conventions of the embedding
    - a 2D numpy array is a list of rows ([image2]); a 3D array with a
      trailing channel axis is a list of rows of pixels, each pixel the list
      of its channel values ([image3]);
    - [np.float32] and [np.float64] values are IEEE-754 binary floats of the
      Standard Library's [SpecFloat], with precision 24 resp. 53;
    - Python integers and numpy integer scalars are [Z]; the wrap-around
      of numpy's 64-bit reductions is written out, and the arithmetic on the
      window coordinates is the code's within the 64-bit range (see
      [make_patch]);
    - the insertion-ordered [dict] holding the patches is an association
      list with in-place update;
    - exceptions are an explicit [result] type; a generator is the result of
      running it to its end (or, for the endless one, for [n] turns).

    The shape of a nested list is read off its first row and first pixel, so
    an array without rows has width 0 here. *)

From Stdlib Require Import ZArith Lia SpecFloat.
From stdpp Require Import base list numbers strings sorting.

Local Open Scope Z_scope.

(** ** Exceptions and fallible computations *)

Inductive exn : Type :=
  | ValueError (msg : string)
  | OverflowError (msg : string)
  | KeyError (key : Z)
  | InvalidArgumentError (msg : string).

Inductive result (A : Type) : Type :=
  | Ok (a : A)
  | Raise (e : exn).

Arguments Ok {A} a.
Arguments Raise {A} e.

#[global] Instance result_ret : MRet result := fun A a => Ok a.

#[global] Instance result_bind : MBind result := fun A B k r =>
  match r with
  | Ok a => k a
  | Raise e => Raise e
  end.

Definition is_ok {A : Type} (r : result A) : bool :=
  match r with Ok _ => true | Raise _ => false end.

(** ** Python and numpy primitives used by the class *)

Module Py.

(** [a[start:stop]]: a negative bound counts from the end, and both bounds
    are then clipped to the length; an empty range gives the empty list. *)
Definition slice_index (n i : Z) : Z :=
  if i <? 0 then Z.max (i + n) 0 else Z.min i n.

Definition slice {A : Type} (start stop : Z) (l : list A) : list A :=
  let n := Z.of_nat (length l) in
  let lo := slice_index n start in
  let hi := slice_index n stop in
  take (Z.to_nat (hi - lo)) (drop (Z.to_nat lo) l).

(** [sorted(xs)] on integers. *)
Fixpoint insert_sorted (x : Z) (l : list Z) : list Z :=
  match l with
  | [] => [x]
  | y :: l' => if x <=? y then x :: l else y :: insert_sorted x l'
  end.

Definition sorted (l : list Z) : list Z := foldr insert_sorted [] l.

(** [sorted((a, b, c))[1]] *)
Definition sorted3_mid (a b c : Z) : Z := nth 1 (sorted [a; b; c]) 0.

(** [np.unique(a)]: the sorted distinct values of the flattened array. *)
Fixpoint insert_unique (x : Z) (l : list Z) : list Z :=
  match l with
  | [] => [x]
  | y :: l' =>
      if x <? y then x :: l
      else if x =? y then l
      else y :: insert_unique x l'
  end.

Definition unique (a : list (list Z)) : list Z :=
  foldr insert_unique [] (concat a).

(** An insertion-ordered [dict] with integer keys. [d[k] = v] replaces the
    value of an existing key where it stands and appends a new key. *)
Abbreviation dict V := (list (Z * V)) (only parsing).

Fixpoint dict_set {V : Type} (k : Z) (v : V) (d : dict V) : dict V :=
  match d with
  | [] => [(k, v)]
  | (k', v') :: d' =>
      if k =? k' then (k, v) :: d' else (k', v') :: dict_set k v d'
  end.

Fixpoint dict_get {V : Type} (k : Z) (d : dict V) : option V :=
  match d with
  | [] => None
  | (k', v') :: d' => if k =? k' then Some v' else dict_get k d'
  end.

(** [d[k]] *)
Definition dict_getitem {V : Type} (k : Z) (d : dict V) : result V :=
  match dict_get k d with
  | Some v => Ok v
  | None => Raise (KeyError k)
  end.

Definition dict_keys {V : Type} (d : dict V) : list Z := map fst d.

End Py.

(** ** Floating point *)

(** [np.float32]: what the raw image is cast to and what the patches hold. *)
Module F32.
Definition prec : Z := 24.
Definition emax : Z := 128.
Definition t : Type := spec_float.

Definition zero : t := S754_zero false.
Definition one : t := SFone prec emax.
Definition of_Z (n : Z) : t := binary_normalize prec emax n 0 false.
Definition of_bool (b : bool) : t := if b then one else zero.
Definition sub (x y : t) : t := SFsub prec emax x y.
Definition div (x y : t) : t := SFdiv prec emax x y.
Definition is_nan (x : t) : bool :=
  match x with S754_nan => true | _ => false end.

(** numpy's [minimum] and [maximum] loops keep the accumulator when it wins
    the comparison or is a NaN, and take the other operand otherwise, so a
    NaN on either side propagates. Between [-0.0] and [+0.0], which compare
    equal, numpy's vectorised reductions may return either operand; here
    the accumulator is kept, so the sign of a zero minimum or maximum is
    not to be read off this model. *)
Definition minimum (acc x : t) : t :=
  if SFleb acc x || is_nan acc then acc else x.
Definition maximum (acc x : t) : t :=
  if SFleb x acc || is_nan acc then acc else x.
End F32.

(** [np.float64]: the centroid quotient [... / s + .5]. *)
Module F64.
Definition prec : Z := 53.
Definition emax : Z := 1024.
Definition t : Type := spec_float.

Definition of_Z (n : Z) : t := binary_normalize prec emax n 0 false.
Definition half : t := S754_finite false 4503599627370496 (-53).
Definition add (x y : t) : t := SFadd prec emax x y.
Definition div (x y : t) : t := SFdiv prec emax x y.

(** [int(x)] truncates towards zero; it raises on an infinity or a NaN. *)
Definition to_int (x : t) : result Z :=
  match x with
  | S754_zero _ => Ok 0
  | S754_finite s m e =>
      let a := if 0 <=? e then Z.shiftl (Z.pos m) e
               else Z.shiftr (Z.pos m) (- e) in
      Ok (if s then - a else a)
  | S754_infinity _ =>
      Raise (OverflowError "cannot convert float infinity to integer")
  | S754_nan => Raise (ValueError "cannot convert float NaN to integer")
  end.
End F64.

(** ** Finite binary32 values *)

Abbreviation fexp32 := (fexp F32.prec F32.emax).

(** A finite binary32 value: a zero, or a mantissa and exponent in
    canonical form. *)
Definition fin (x : spec_float) : Prop :=
  match x with
  | S754_zero _ => True
  | S754_finite _ m e => bounded F32.prec F32.emax m e = true
  | _ => False
  end.

(** The value of a finite float, in units of the smallest subnormal
    [2 ^ -149]. *)
Definition zval (x : spec_float) : Z :=
  match x with
  | S754_finite s m e => cond_Zopp s (Z.pos m * 2 ^ (e + 149))
  | _ => 0
  end.

Definition not_nan (x : spec_float) : Prop := x <> S754_nan.

(** A zero, or a positive finite float. *)
Definition nonneg_fin (y : spec_float) : Prop :=
  (exists s, y = S754_zero s) \/
  exists m e, y = S754_finite false m e /\
              bounded F32.prec F32.emax m e = true.

(** A positive finite float, or the overflow to infinity. *)
Definition pos_or_inf (r : spec_float) : Prop :=
  r = S754_infinity false \/
  exists m e, r = S754_finite false m e /\
              bounded F32.prec F32.emax m e = true.

(** A float of the closed unit interval, seen on its fields: positive zero,
    or a positive finite float that is [1] or below. *)
Definition unit_float (r : spec_float) : Prop :=
  r = S754_zero false \/
  exists m e, r = S754_finite false m e /\
              (e < -23 \/ (e = -23 /\ Z.pos m <= 2 ^ 23)).

(** The same as the comparisons see it. *)
Definition in_unit (z : spec_float) : Prop :=
  SFleb F32.zero z = true /\ SFleb z F32.one = true.

(** The order of [SFcompare] on the fields of two positive finite floats. *)
Definition lex_le (m1 : positive) (e1 : Z) (m2 : positive) (e2 : Z) : Prop :=
  e1 < e2 \/ (e1 = e2 /\ Z.pos m1 <= Z.pos m2).

(** ** Images *)

Definition image2 (A : Type) : Type := list (list A).
Definition image3 (A : Type) : Type := list (list (list A)).

(** The [shape] tuple of an array. *)
Definition shape2 {A : Type} (a : image2 A) : list nat :=
  [length a; length (hd [] a)].

Definition shape3 {A : Type} (a : image3 A) : list nat :=
  [length a; length (hd [] a); length (hd [] (hd [] a))].

(** The raw image handed to the constructor, as [astype(np.float32)] sees
    it: two-dimensional, or three-dimensional with a trailing channel axis. *)
Inductive raw_image : Type :=
  | Raw2 (a : image2 F32.t)
  | Raw3 (a : image3 F32.t).

Definition raw_shape (a : raw_image) : list nat :=
  match a with
  | Raw2 a => shape2 a
  | Raw3 a => shape3 a
  end.

(** An array all of whose rows have the same length, as every numpy array
    has. *)
Definition rect2 {A : Type} (d0 d1 : nat) (a : image2 A) : Prop :=
  length a = d0 /\ Forall (fun row => length row = d1) a.

Definition rect3 {A : Type} (d0 d1 d2 : nat) (a : image3 A) : Prop :=
  length a = d0 /\
  Forall (fun row => length row = d1 /\
                     Forall (fun px => length px = d2) row) a.

(** 64-bit wrap-around of numpy's integer reductions. *)
Definition wrap64 (n : Z) : Z := (n + 2 ^ 63) mod 2 ^ 64 - 2 ^ 63.

Definition np_sum (v : list Z) : Z := wrap64 (foldr Z.add 0 v).

Definition np_arange (n : nat) : list Z := map Z.of_nat (seq 0 n).

Definition np_dot (u v : list Z) : Z := np_sum (zip_with Z.mul u v).

(** [np.sum(img, axis = 1)], [np.sum(img, axis = 0)] and [np.sum(img)] of a
    boolean array. *)
Definition sum_axis1 (img : image2 bool) : list Z :=
  map (fun row => np_sum (map Z.b2z row)) img.

Definition sum_axis0 (img : image2 bool) : list Z :=
  foldr (fun row acc => zip_with (fun b n => wrap64 (Z.b2z b + n)) row acc)
        (replicate (length (hd [] img)) 0) img.

Definition sum_all (img : image2 bool) : Z :=
  np_sum (map Z.b2z (concat img)).

(** [a == ind] *)
Definition eq_mask (a : image2 Z) (ind : Z) : image2 bool :=
  map (map (fun v => v =? ind)) a.

(** [a[c0:c0+size, c1:c1+size]] (with a trailing [:] on a 3D array). *)
Definition window {A : Type} (c0 c1 size : Z) (a : list (list A))
  : list (list A) :=
  map (Py.slice c1 (c1 + size)) (Py.slice c0 (c0 + size) a).

(** [np.concatenate((a, m[..., np.newaxis]), axis = 2)]: the boolean mask
    becomes one more float channel. *)
Definition concat_mask (a : image3 F32.t) (m : image2 bool) : image3 F32.t :=
  zip_with (zip_with (fun px b => px ++ [F32.of_bool b])) a m.

(** ** The class *)

Inductive patch : Type :=
  | Patch2 (coord : Z * Z) (data : image3 F32.t)
  | Patch3 (coord : Z * Z) (data : image3 F32.t) (label : image2 Z).

Definition patch_coord (p : patch) : Z * Z :=
  match p with Patch2 c _ | Patch3 c _ _ => c end.

Definition patch_data (p : patch) : image3 F32.t :=
  match p with Patch2 _ d | Patch3 _ d _ => d end.

Definition patch_label (p : patch) : option (image2 Z) :=
  match p with Patch2 _ _ => None | Patch3 _ _ l => Some l end.

Record Dataset : Type := mkDataset {
  img : image3 F32.t;
  marker_img : image2 Z;
  label_img : option (image2 Z);
  crop_size : Z;
  patch_set : Py.dict patch
}.

(** [__normalize_img] *)
Definition reduce_axis01 (f : F32.t -> F32.t -> F32.t) (name : string)
    (a : image3 F32.t) : result (list F32.t) :=
  match concat a with
  | [] => Raise (ValueError
            ("zero-size array to reduction operation " +:+ name +:+
             " which has no identity"))
  | px :: pxs => Ok (foldl (zip_with f) px pxs)
  end.

Definition with_channel_axis (img_in : raw_image) : image3 F32.t :=
  match img_in with
  | Raw2 a => map (map (fun v => [v])) a
  | Raw3 a => a
  end.

Definition normalize_img (img_in : raw_image) : result (image3 F32.t) :=
  let img := with_channel_axis img_in in
  lo ← reduce_axis01 F32.minimum "minimum" img;
  let img := map (map (fun px => zip_with F32.sub px lo)) img in
  hi ← reduce_axis01 F32.maximum "maximum" img;
  Ok (map (map (fun px => zip_with F32.div px hi)) img).

(** [__center_of_mass_as_int] *)
Definition round_half (n s : Z) : result Z :=
  F64.to_int (F64.add (F64.div (F64.of_Z n) (F64.of_Z s)) F64.half).

Definition center_of_mass_as_int (img : image2 bool) : result (Z * Z) :=
  let d0 := length img in
  let d1 := length (hd [] img) in
  let s := sum_all img in
  c0 ← round_half (np_dot (sum_axis1 img) (np_arange d0)) s;
  c1 ← round_half (np_dot (sum_axis0 img) (np_arange d1)) s;
  Ok (c0, c1).

(** [__is_within] *)
Definition is_within (coord : Z * Z) (rect : Z * Z * Z * Z) : bool :=
  let '(r0, r1, r2, r3) := rect in
  (r0 <=? coord.1) && (coord.1 <? r0 + r2) &&
  (r1 <=? coord.2) && (coord.2 <? r1 + r3).

(** One turn of the loop of [create_patches]. The centroid is a pair of
    [np.int64] scalars and the crop size a Python integer; the coordinates
    are computed here in [Z], which is what the code computes as long as no
    operand or result of [c0 - crop_size // 2] and [c0 + crop_size] leaves
    the 64-bit range. Outside that range (a crop size of magnitude
    [2 ^ 63], say) numpy raises or wraps around and this definition does not
    follow it; the properties below that depend on this arithmetic bound
    the crop size. *)
Definition make_patch (img : image3 F32.t) (marker_img : image2 Z)
    (label_img : option (image2 Z)) (crop_size : Z) (ind : Z) : result patch :=
  let d0 := Z.of_nat (length marker_img) in
  let d1 := Z.of_nat (length (hd [] marker_img)) in
  '(c0, c1) ← center_of_mass_as_int (eq_mask marker_img ind);
  let c0 := Py.sorted3_mid 0 (c0 - crop_size / 2) (d0 - crop_size) in
  let c1 := Py.sorted3_mid 0 (c1 - crop_size / 2) (d1 - crop_size) in
  let data_patch_1 := window c0 c1 crop_size img in
  let data_patch_2 := eq_mask (window c0 c1 crop_size marker_img) ind in
  let data_patch := concat_mask data_patch_1 data_patch_2 in
  match label_img with
  | Some label_img =>
      let label_patch :=
        map (map Z.b2z) (eq_mask (window c0 c1 crop_size label_img) ind) in
      Ok (Patch3 (c0, c1) data_patch label_patch)
  | None => Ok (Patch2 (c0, c1) data_patch)
  end.

Fixpoint create_patches_loop (img : image3 F32.t) (marker_img : image2 Z)
    (label_img : option (image2 Z)) (crop_size : Z)
    (indices : list Z) (patch_set : Py.dict patch) : result (Py.dict patch) :=
  match indices with
  | [] => Ok patch_set
  | ind :: indices =>
      p ← make_patch img marker_img label_img crop_size ind;
      create_patches_loop img marker_img label_img crop_size indices
        (Py.dict_set ind p patch_set)
  end.

(** [create_patches]; [indices] drops the first of the sorted distinct
    marker values. *)
Definition create_patches (img : image3 F32.t) (marker_img : image2 Z)
    (label_img : option (image2 Z)) (crop_size : Z) : result (Py.dict patch) :=
  let indices := drop 1 (Py.unique marker_img) in
  create_patches_loop img marker_img label_img crop_size indices [].

(** [__init__] *)
Definition shape_mismatch (data_img : raw_image) (marker_img : image2 Z)
    (label_img : option (image2 Z)) : bool :=
  negb (bool_decide (raw_shape data_img = shape2 marker_img)) ||
  match label_img with
  | Some l => negb (bool_decide (raw_shape data_img = shape2 l))
  | None => false
  end.

Definition init (data_img : raw_image) (marker_img : image2 Z)
    (label_img : option (image2 Z)) (crop_size : Z) : result Dataset :=
  if shape_mismatch data_img marker_img label_img
  then Raise (ValueError "Image size not match each other")
  else
    img ← normalize_img data_img;
    patch_set ← create_patches img marker_img label_img crop_size;
    Ok (mkDataset img marker_img label_img crop_size patch_set).

(** [generator]: the records in the order of the keys. *)
Definition generator (self : Dataset) : result (list patch) :=
  mapM (fun k => Py.dict_getitem k (patch_set self))
       (Py.dict_keys (patch_set self)).

(** [generator_with_label] *)
Definition unpack3 (p : patch) : result (Z * Z * image3 F32.t * image2 Z) :=
  match p with
  | Patch3 c data label => Ok (c, data, label)
  | Patch2 _ _ =>
      Raise (ValueError "not enough values to unpack (expected 3, got 2)")
  end.

Definition generator_with_label (self : Dataset)
  : result (list (image3 F32.t * image2 Z)) :=
  match label_img self with
  | None => Raise (ValueError "Lable Image not set.")
  | Some _ =>
      mapM (fun k =>
              p ← Py.dict_getitem k (patch_set self);
              '(c, data, label) ← unpack3 p;
              Ok (data, label))
           (Py.dict_keys (patch_set self))
  end.

(** [generator_within_area]

    The random source is numpy's [Generator], of which the method uses
    [integers(high)] only: a value of [[0, high)] and the generator's next
    state, or a [ValueError] when [high <= 0]. *)
Class RandomSource (G : Type) : Type :=
  rng_integers : G -> Z -> result (Z * G).

Class RandomSourceOk (G : Type) `{RandomSource G} : Prop := {
  rng_integers_range (g g' : G) (high v : Z) :
    rng_integers g high = Ok (v, g') -> 0 <= v < high;
  rng_integers_pos (g : G) (high : Z) :
    0 < high -> is_ok (rng_integers g high) = true;
  rng_integers_nonpos (g : G) (high : Z) :
    high <= 0 -> exists msg, rng_integers g high = Raise (ValueError msg)
}.

(** [list(filter(lambda k: self.__is_within(self.patch_set[k][0], rect),
    self.patch_set.keys()))] *)
Fixpoint filter_within (patch_set : Py.dict patch) (rect : Z * Z * Z * Z)
    (keys : list Z) : result (list Z) :=
  match keys with
  | [] => Ok []
  | k :: keys =>
      p ← Py.dict_getitem k patch_set;
      rest ← filter_within patch_set rect keys;
      Ok (if is_within (patch_coord p) rect then k :: rest else rest)
  end.

(** [tf.stack(values)]: a new leading axis over tensors of one shape; the
    empty list gives an empty tensor. *)
Definition tf_stack (values : list (image3 F32.t))
  : result (list (image3 F32.t)) :=
  match values with
  | [] => Ok []
  | v :: vs =>
      if forallb (fun w => bool_decide (shape3 w = shape3 v)) vs
      then Ok values
      else Raise (InvalidArgumentError "Shapes of all inputs must match")
  end.

(** [np.array(coords) - np.array([a0, a1])]: a non-empty list of pairs is an
    array of shape (n, 2), from which the anchor is subtracted row by row;
    the empty list is an array of shape (0,), which does not broadcast
    against the anchor's shape (2,). *)
Definition relative_coords (coords : list (Z * Z)) (a0 a1 : Z)
  : result (list (Z * Z)) :=
  match coords with
  | [] => Raise (ValueError
            "operands could not be broadcast together with shapes (0,) (2,) ")
  | _ => Ok (map (fun c => (c.1 - a0, c.2 - a1)) coords)
  end.

Definition sample : Type := list (image3 F32.t) * list (Z * Z).

(** One turn of the [while True] loop: the yielded element and the state of
    the random source after it. *)
Definition within_area_draw {G : Type} `{RandomSource G} (self : Dataset)
    (area_size : Z) (rng : G) : result (sample * G) :=
  let d0 := Z.of_nat (length (marker_img self)) in
  let d1 := Z.of_nat (length (hd [] (marker_img self))) in
  '(a0, rng) ← rng_integers rng (d0 - area_size - crop_size self);
  '(a1, rng) ← rng_integers rng (d1 - area_size - crop_size self);
  all_indices ← filter_within (patch_set self) (a0, a1, area_size, area_size)
                   (Py.dict_keys (patch_set self));
  coords ← mapM (fun k1 => p ← Py.dict_getitem k1 (patch_set self);
                           Ok (patch_coord p)) all_indices;
  values ← mapM (fun k2 => p ← Py.dict_getitem k2 (patch_set self);
                           Ok (patch_data p)) all_indices;
  data ← tf_stack values;
  coords ← relative_coords coords a0 a1;
  Ok ((data, coords), rng).

(** The first [n] elements of the endless sequence. *)
Fixpoint generator_within_area {G : Type} `{RandomSource G} (n : nat)
    (self : Dataset) (area_size : Z) (rng : G) : result (list sample * G) :=
  match n with
  | O => Ok ([], rng)
  | S n =>
      '(x, rng) ← within_area_draw self area_size rng;
      '(xs, rng) ← generator_within_area n self area_size rng;
      Ok (x :: xs, rng)
  end.

(** A deterministic random source for examples: a counter, reduced modulo
    the bound. *)
Definition counter_rng : Type := nat.

#[global] Instance counter_integers : RandomSource counter_rng :=
  fun g high =>
    if high <=? 0 then Raise (ValueError "low >= high")
    else Ok (Z.of_nat g mod high, S g).

(** ** The TensorFlow adapters *)

(** [tf.TensorSpec(shape = ..., dtype = ...)], for the three element types
    the class declares. *)
Inductive dtype : Type := tf_int32 | tf_float32 | tf_uint8.

Record TensorSpec : Type := mkTensorSpec {
  spec_shape : list Z;
  spec_dtype : dtype
}.

(** [tf_dataset]: [tf.data.Dataset.from_generator] is handed the method
    [generator] and an [output_signature] built from [self.img.shape],
    [self.crop_size] and the presence of a label image. The model is that
    pair: the elements an iteration pulls from the generator, and the
    declared signature. *)
Definition tf_dataset (self : Dataset)
  : result (list patch) * list TensorSpec :=
  let ch := Z.of_nat (length (hd [] (hd [] (img self)))) in
  (generator self,
   match label_img self with
   | None =>
       [mkTensorSpec [2] tf_int32;
        mkTensorSpec [crop_size self; crop_size self; ch + 1] tf_float32]
   | Some _ =>
       [mkTensorSpec [2] tf_int32;
        mkTensorSpec [crop_size self; crop_size self; ch + 1] tf_float32;
        mkTensorSpec [crop_size self; crop_size self] tf_uint8]
   end).

(** [tf_dataset_with_label]: the same over [generator_with_label]. *)
Definition tf_dataset_with_label (self : Dataset)
  : result (list (image3 F32.t * image2 Z)) * list TensorSpec :=
  let ch := Z.of_nat (length (hd [] (hd [] (img self)))) in
  (generator_with_label self,
   [mkTensorSpec [crop_size self; crop_size self; ch + 1] tf_float32;
    mkTensorSpec [crop_size self; crop_size self] tf_uint8]).

(** ** Definitions of the specification *)

(** The specification's [clamp(x, lo, hi)]. *)
Definition clamp (x lo hi : Z) : Z := Z.max lo (Z.min x hi).

(** The number of raw channels [C] of the input. *)
Definition channels (a : raw_image) : nat :=
  match a with
  | Raw2 _ => 1
  | Raw3 a => length (hd [] (hd [] a))
  end.

(** Well-formed arrays: the rows (and pixels) agree with the shape. *)
Definition wf2 {A : Type} (a : image2 A) : Prop :=
  rect2 (length a) (length (hd [] a)) a.

Definition wf3 {A : Type} (a : image3 A) : Prop :=
  rect3 (length a) (length (hd [] a)) (length (hd [] (hd [] a))) a.

Definition wf_raw (a : raw_image) : Prop :=
  match a with
  | Raw2 a => wf2 a
  | Raw3 a => wf3 a
  end.

(** The raw input as an array of [d0] rows, [d1] columns and [c] channels. *)
Definition raw_rect (d0 d1 c : nat) (a : raw_image) : Prop :=
  match a with
  | Raw2 a => rect2 d0 d1 a /\ c = 1%nat
  | Raw3 a => rect3 d0 d1 c a
  end.

(** The number of elements of a tensor. *)
Definition numel {A : Type} (a : image3 A) : nat :=
  length (concat (concat a)).

(** A local-area sample [x] as the specification describes it: an anchor
    in range, the records whose coordinate lies in the half-open rectangle
    of side [area_size] at the anchor, and their coordinates relative to the
    anchor. *)
Definition in_area (a0 a1 area_size : Z) (c : Z * Z) : Prop :=
  a0 <= c.1 < a0 + area_size /\ a1 <= c.2 < a1 + area_size.

#[global] Instance in_area_dec (a0 a1 area_size : Z) (c : Z * Z) :
  Decision (in_area a0 a1 area_size c).
Proof. unfold in_area. apply _. Defined.

Definition draw_ok (self : Dataset) (area_size : Z) (x : sample) : Prop :=
  exists a0 a1,
    0 <= a0 < Z.of_nat (length (marker_img self)) - area_size - crop_size self /\
    0 <= a1 < Z.of_nat (length (hd [] (marker_img self))) - area_size
              - crop_size self /\
    let selected :=
      filter (fun kp => in_area a0 a1 area_size (patch_coord kp.2))
             (patch_set self) in
    x.1 = map (fun kp => patch_data kp.2) selected /\
    x.2 = map (fun kp => ((patch_coord kp.2).1 - a0, (patch_coord kp.2).2 - a1))
              selected /\
    length x.1
    = length (filter (in_area a0 a1 area_size)
                     (map (fun kp => patch_coord kp.2) (patch_set self))) /\
    Forall (fun rc => 0 <= rc.1 < area_size /\ 0 <= rc.2 < area_size) x.2.

(** The (data, label) pair of a record that has a label. *)
Definition data_label (p : patch) : image3 F32.t * image2 Z :=
  match p with
  | Patch3 _ data label => (data, label)
  | Patch2 _ data => (data, [])
  end.

(** The mask channel of a data tensor: the last channel of every pixel. *)
Definition mask_channel (data : image3 F32.t) : image2 (option F32.t) :=
  map (map last) data.

(** The [n] x [n] boolean image that is true on rows [lo..hi], columns
    [lo..hi] (bounds included). *)
Definition square (lo hi n : nat) : image2 bool :=
  map (fun i => map (fun j => bool_decide ((lo <= i <= hi)%nat /\
                                           (lo <= j <= hi)%nat))
                    (seq 0 n))
      (seq 0 n).

#[global] Instance rect2_dec {A : Type} (d0 d1 : nat) (a : image2 A) :
  Decision (rect2 d0 d1 a).
Proof. unfold rect2. apply _. Defined.

(** Channel [c] of an image, flattened: [img[..., c]]. *)
Definition channel (c : nat) (a : image3 F32.t) : list F32.t :=
  map (fun px => nth c px F32.zero) (concat a).

(** [np.min] and [np.max] of a non-empty flat array. *)
Definition np_min (l : list F32.t) : F32.t :=
  foldl F32.minimum (hd F32.zero l) (tl l).

Definition np_max (l : list F32.t) : F32.t :=
  foldl F32.maximum (hd F32.zero l) (tl l).

(** One channel after [img -= np.min(img)], and after [img /= np.max(img)]. *)
Definition shifted (chan : list F32.t) : list F32.t :=
  map (fun x => F32.sub x (np_min chan)) chan.

Definition normalize_channel (chan : list F32.t) : list F32.t :=
  map (fun y => F32.div y (np_max (shifted chan))) (shifted chan).

(** The element [a[i, j]] of an array, when both indices are in range. *)
Definition at2 {A : Type} (a : list (list A)) (i j : nat) : option A :=
  match a !! i with
  | Some row => row !! j
  | None => None
  end.

(** A tensor has the shape a [TensorSpec] declares. *)
Definition has_shape3 {A : Type} (s : TensorSpec) (t : image3 A) : Prop :=
  exists d0 d1 d2 : nat,
    spec_shape s = [Z.of_nat d0; Z.of_nat d1; Z.of_nat d2] /\ rect3 d0 d1 d2 t.

Definition has_shape2 {A : Type} (s : TensorSpec) (t : image2 A) : Prop :=
  exists d0 d1 : nat,
    spec_shape s = [Z.of_nat d0; Z.of_nat d1] /\ rect2 d0 d1 t.

(** An element of the full enumeration, resp. of the label-paired one, has
    the structure and the shapes of a signature: as many components, the
    coordinate against a shape of [(2,)], every tensor of the declared
    shape. The element types are not compared. *)
Definition conforms (signature : list TensorSpec) (p : patch) : Prop :=
  match p, signature with
  | Patch2 _ data, [s1; s2] => spec_shape s1 = [2] /\ has_shape3 s2 data
  | Patch3 _ data label, [s1; s2; s3] =>
      spec_shape s1 = [2] /\ has_shape3 s2 data /\ has_shape2 s3 label
  | _, _ => False
  end.

Definition conforms_pair (signature : list TensorSpec)
    (x : image3 F32.t * image2 Z) : Prop :=
  match signature with
  | [s1; s2] => has_shape3 s1 x.1 /\ has_shape2 s2 x.2
  | _ => False
  end.

(** Where the patches of a dataset lie: for every record its identity, its
    window origin and its mask channel. *)
Definition placement (self : Dataset) : list (Z * (Z * Z) * image2 (option F32.t)) :=
  map (fun kp => (kp.1, patch_coord kp.2, mask_channel (patch_data kp.2)))
      (patch_set self).

(** Sums without wrap-around: of a list, and the number of true entries of
    a boolean row. *)
Definition total (l : list Z) : Z := foldr Z.add 0 l.

Definition count (row : list bool) : Z := total (map Z.b2z row).

Abbreviation fexp64 := (fexp F64.prec F64.emax).

(** ** Example inputs *)

(** A raw image given by integer pixel values. *)
Definition raw_of_Z (a : image2 Z) : raw_image :=
  Raw2 (map (map F32.of_Z) a).

Definition empty_dataset : Dataset := mkDataset [] [] None 0 [].

Definition unwrap (r : result Dataset) : Dataset :=
  match r with Ok ds => ds | Raise _ => empty_dataset end.

Definition record_of (k : Z) (ds : Dataset) : patch :=
  default (Patch2 (0, 0) []) (Py.dict_get k (patch_set ds)).

(** A 3 x 3 image with one object in the top-left and one in the
    bottom-right corner, cut into 2 x 2 patches. *)
Definition corner_raw : raw_image :=
  raw_of_Z [[1; 2; 3]; [4; 5; 6]; [7; 8; 9]].

Definition corner_marker : image2 Z := [[1; 0; 0]; [0; 0; 0]; [0; 0; 2]].

Definition corner_ds : Dataset := unwrap (init corner_raw corner_marker None 2).

(** The same with a label image. *)
Definition corner_label : image2 Z := [[1; 1; 0]; [0; 0; 0]; [0; 2; 7]].

Definition corner_labelled_ds : Dataset :=
  unwrap (init corner_raw corner_marker (Some corner_label) 2).

Definition corner_img : image3 F32.t :=
  match normalize_img corner_raw with Ok img => img | Raise _ => [] end.

(** Two finite pixels whose difference overflows binary32: the largest
    finite value and its opposite. *)
Definition f32_max : F32.t := S754_finite false 16777215 104.

Definition overflow_raw : raw_image := Raw2 [[f32_max; SFopp f32_max]].

(** An 8 x 8 image with three objects, cut into 2 x 2 patches and sampled
    with areas of side 4. *)
Definition area_raw : raw_image :=
  raw_of_Z (map (fun i => map (fun j => Z.of_nat (8 * i + j)) (seq 0 8))
                (seq 0 8)).

Definition area_marker : image2 Z :=
  [[0; 0; 0; 0; 0; 0; 0; 0];
   [0; 0; 0; 0; 0; 0; 0; 0];
   [0; 0; 0; 1; 0; 0; 0; 0];
   [0; 0; 0; 0; 0; 0; 0; 0];
   [0; 0; 0; 0; 3; 0; 0; 0];
   [0; 0; 0; 0; 0; 0; 0; 0];
   [0; 0; 0; 0; 0; 0; 0; 0];
   [0; 0; 0; 0; 0; 0; 0; 2]].

Definition area_ds : Dataset := unwrap (init area_raw area_marker None 2).

Definition area_draws : list sample * counter_rng :=
  match generator_within_area 2 area_ds 4 (0%nat : counter_rng) with
  | Ok r => r
  | Raise _ => ([], 0%nat)
  end.

(** The same image with a single object in the bottom-right corner. *)
Definition far_marker : image2 Z :=
  [[0; 0; 0; 0; 0; 0; 0; 0];
   [0; 0; 0; 0; 0; 0; 0; 0];
   [0; 0; 0; 0; 0; 0; 0; 0];
   [0; 0; 0; 0; 0; 0; 0; 0];
   [0; 0; 0; 0; 0; 0; 0; 0];
   [0; 0; 0; 0; 0; 0; 0; 0];
   [0; 0; 0; 0; 0; 0; 0; 0];
   [0; 0; 0; 0; 0; 0; 0; 2]].

Definition far_ds : Dataset := unwrap (init area_raw far_marker None 2).

(** A 2 x 2 marker image without background: two objects fill it. *)
Definition full_raw : raw_image := raw_of_Z [[1; 2]; [3; 4]].

Definition full_marker : image2 Z := [[1; 1]; [2; 2]].

Definition full_ds : Dataset := unwrap (init full_raw full_marker None 1).

(** A 2 x 2 raw image of three channels with a 2 x 2 marker image. *)
Definition rgb_raw : raw_image :=
  Raw3 (map (map (map F32.of_Z))
            [[[1; 2; 3]; [4; 5; 6]]; [[7; 8; 9]; [10; 11; 12]]]).

Definition rgb_marker : image2 Z := [[0; 1]; [0; 0]].

(** A 2 x 2 image cut with a crop size of 4. *)
Definition tiny_raw : raw_image := raw_of_Z [[1; 3]; [2; 5]].

Definition tiny_marker : image2 Z := [[0; 1]; [0; 0]].

Definition tiny_ds : Dataset := unwrap (init tiny_raw tiny_marker None 4).

(** The 100 x 100 example of the specification: one object of identity 1
    on rows and columns [lo..hi], cut with a crop size of 64. *)
Definition blob_marker (lo hi : nat) : image2 Z :=
  map (map Z.b2z) (square lo hi 100).

Definition blob_raw : image2 F32.t :=
  map (fun i => map (fun j => F32.of_Z (Z.of_nat (3 * i + j))) (seq 0 100))
      (seq 0 100).

Definition blob_ds (lo hi : nat) : Dataset :=
  unwrap (init (Raw2 blob_raw) (blob_marker lo hi) None 64).

(** A 2 x 2 image with a NaN pixel, and a 2 x 2 image of one value. *)
Definition nan_raw : raw_image :=
  Raw2 [[F32.of_Z 1; S754_nan]; [F32.of_Z 3; F32.of_Z 4]].

Definition flat_raw : raw_image := raw_of_Z [[5; 5]; [5; 5]].

Definition nan_img : image3 F32.t :=
  match normalize_img nan_raw with Ok img => img | Raise _ => [] end.

Definition flat_img : image3 F32.t :=
  match normalize_img flat_raw with Ok img => img | Raise _ => [] end.

(** The corner objects under other pixel values, with the label image. *)
Definition repainted_raw : raw_image :=
  raw_of_Z [[9; 9; 1]; [0; 7; 2]; [5; 5; 5]].

Definition repainted_ds : Dataset :=
  unwrap (init repainted_raw corner_marker (Some corner_label) 2).

(** The first local-area sample of the 8 x 8 example. *)
Definition area_first_draw : sample :=
  match within_area_draw area_ds 4 (0%nat : counter_rng) with
  | Ok (x, _) => x
  | Raise _ => ([], [])
  end.

(** A 6 x 6 image with one object of three pixels, cut into 4 x 4
    patches. *)
Definition ell_raw : raw_image :=
  raw_of_Z (map (fun i => map (fun j => Z.of_nat (6 * i + j)) (seq 0 6))
                (seq 0 6)).

Definition ell_marker : image2 Z :=
  [[0; 0; 0; 0; 0; 0];
   [0; 0; 0; 0; 0; 0];
   [0; 0; 1; 1; 0; 0];
   [0; 0; 1; 0; 0; 0];
   [0; 0; 0; 0; 0; 0];
   [0; 0; 0; 0; 0; 0]].

Definition ell_ds : Dataset := unwrap (init ell_raw ell_marker None 4).

(** * Properties *)

(** ** Binary32 arithmetic *)

(** [pow_pos e] records that [2 ^ e] is positive. *)
Ltac pow_pos e :=
  assert (0 < 2 ^ e) by (apply Z.pow_pos_nonneg; lia).

Lemma digits2_log2 (p : positive) :
  Z.pos (digits2_pos p) = Z.log2 (Z.pos p) + 1.
Proof.
  induction p as [p IH|p IH|]; simpl; [| |done].
  - rewrite Pos2Z.inj_succ. destruct p; simpl in *; lia.
  - rewrite Pos2Z.inj_succ. destruct p; simpl in *; lia.
Qed.

Lemma Zdigits2_log2 (m : Z) : 0 < m -> Zdigits2 m = Z.log2 m + 1.
Proof. destruct m as [|p|p]; try lia. intros _. apply digits2_log2. Qed.

Lemma Zdigits2_nonneg (m : Z) : 0 <= Zdigits2 m.
Proof. destruct m; simpl; lia. Qed.

Lemma Zdigits2_le_iff (m d : Z) :
  0 < m -> 0 <= d -> (Zdigits2 m <= d <-> m < 2 ^ d).
Proof.
  intros Hm Hd. rewrite Zdigits2_log2 by done.
  rewrite (Z.log2_lt_pow2 m d Hm). lia.
Qed.

Lemma Zdigits2_lower (m : Z) : 0 < m -> 2 ^ (Zdigits2 m - 1) <= m.
Proof.
  intros Hm. rewrite Zdigits2_log2 by done.
  replace (Z.log2 m + 1 - 1) with (Z.log2 m) by lia.
  by apply Z.log2_spec.
Qed.

Lemma Zdigits2_mono (m n : Z) : 0 < m -> m <= n -> Zdigits2 m <= Zdigits2 n.
Proof.
  intros Hm Hmn. rewrite !Zdigits2_log2 by lia.
  pose proof (Z.log2_le_mono m n Hmn). lia.
Qed.

Lemma Zdigits2_shiftr (m k : Z) :
  0 < m -> 0 <= k -> 0 < m / 2 ^ k -> Zdigits2 (m / 2 ^ k) = Zdigits2 m - k.
Proof.
  intros Hm Hk Hq. rewrite !Zdigits2_log2 by done.
  rewrite <- Z.shiftr_div_pow2 by done.
  rewrite Z.log2_shiftr by done.
  assert (k <= Z.log2 m); [|lia].
  apply Z.log2_le_pow2; [done|].
  destruct (Z.le_gt_cases (2 ^ k) m) as [?|Hlt]; [done|].
  rewrite Z.div_small in Hq by lia. lia.
Qed.

Lemma iter_pos_nat {A : Type} (f : A -> A) (p : positive) (x : A) :
  SpecFloat.iter_pos f p x = @Nat.iter (Pos.to_nat p) A f x.
Proof.
  revert x. induction p as [p IH|p IH|]; intros x;
    cbn [SpecFloat.iter_pos]; [| |done].
  - rewrite !IH, Pos2Nat.inj_xI, Nat.iter_succ_r.
    replace (2 * Pos.to_nat p)%nat with (Pos.to_nat p + Pos.to_nat p)%nat
      by lia.
    by rewrite Nat.iter_add.
  - rewrite !IH, Pos2Nat.inj_xO.
    replace (2 * Pos.to_nat p)%nat with (Pos.to_nat p + Pos.to_nat p)%nat
      by lia.
    by rewrite Nat.iter_add.
Qed.

Lemma shr_1_m (mrs : shr_record) :
  0 <= shr_m mrs -> shr_m (shr_1 mrs) = shr_m mrs / 2.
Proof.
  destruct mrs as [m r s]. cbn [shr_m]. intros Hm.
  destruct m as [|[p|p|]|p]; cbn [shr_1 shr_m]; try done.
  - apply (Z.div_unique _ _ _ 1); lia.
  - apply (Z.div_unique _ _ _ 0); lia.
Qed.

Lemma shr_m_iter (n : nat) (mrs : shr_record) :
  0 <= shr_m mrs ->
  shr_m (@Nat.iter n _ shr_1 mrs) = shr_m mrs / 2 ^ Z.of_nat n.
Proof.
  intros Hm. induction n as [|n IH].
  - simpl. by rewrite Z.div_1_r.
  - rewrite Nat2Z.inj_succ, Z.pow_succ_r by lia. simpl.
    rewrite shr_1_m; [|rewrite IH; apply Z.div_pos; lia].
    rewrite IH, Z.div_div by lia. f_equal. lia.
Qed.

Lemma shr_spec (mrs : shr_record) (e k : Z) :
  0 <= shr_m mrs ->
  shr_m (shr mrs e k).1 = shr_m mrs / 2 ^ Z.max k 0 /\
  (shr mrs e k).2 = e + Z.max k 0.
Proof.
  intros Hm. destruct k as [|p|p]; simpl.
  - split; [by rewrite Z.div_1_r | lia].
  - rewrite iter_pos_nat, shr_m_iter by done.
    rewrite positive_nat_Z. split; [done|lia].
  - split; [by rewrite Z.div_1_r | lia].
Qed.

Lemma shr_record_of_loc_m (m : Z) (l : location) :
  shr_m (shr_record_of_loc m l) = m.
Proof. by destruct l as [|[]]. Qed.

Lemma round_nearest_even_bound (m : Z) (l : location) :
  m <= round_nearest_even m l <= m + 1.
Proof.
  unfold round_nearest_even. destruct l as [|[]]; try lia.
  destruct (Z.even m); lia.
Qed.

Lemma fexp32_eq (e : Z) : fexp32 e = Z.max (e - 24) (-149).
Proof. reflexivity. Qed.

Lemma shr_fexp_spec (m e : Z) (l : location) :
  0 <= m ->
  shr_m (shr_fexp F32.prec F32.emax m e l).1
  = m / 2 ^ Z.max (fexp32 (Zdigits2 m + e) - e) 0 /\
  (shr_fexp F32.prec F32.emax m e l).2
  = e + Z.max (fexp32 (Zdigits2 m + e) - e) 0.
Proof.
  intros Hm. unfold shr_fexp.
  pose proof (shr_spec (shr_record_of_loc m l) e
                (fexp32 (Zdigits2 m + e) - e)) as H.
  rewrite shr_record_of_loc_m in H. by apply H.
Qed.

(** The result of rounding a non-negative mantissa: two right shifts around
    the rounding step. *)
Lemma binary_round_aux_spec (sx : bool) (mx ex : Z) (lx : location) :
  0 <= mx ->
  exists m2 m3 e1 e2,
    e1 = ex + Z.max (fexp32 (Zdigits2 mx + ex) - ex) 0 /\
    mx / 2 ^ (e1 - ex) <= m2 <= mx / 2 ^ (e1 - ex) + 1 /\
    e2 = e1 + Z.max (fexp32 (Zdigits2 m2 + e1) - e1) 0 /\
    m3 = m2 / 2 ^ (e2 - e1) /\
    binary_round_aux F32.prec F32.emax sx mx ex lx
    = match m3 with
      | 0 => S754_zero sx
      | Z.pos m => if e2 <=? 104 then S754_finite sx m e2
                   else S754_infinity sx
      | Z.neg _ => S754_nan
      end.
Proof.
  intros Hmx. unfold binary_round_aux.
  pose proof (shr_fexp_spec mx ex lx Hmx) as [Hm1 He1].
  destruct (shr_fexp F32.prec F32.emax mx ex lx) as [mrs1 e1]. simpl in *.
  set (m2 := round_nearest_even (shr_m mrs1) (loc_of_shr_record mrs1)).
  pose proof (round_nearest_even_bound (shr_m mrs1) (loc_of_shr_record mrs1))
    as Hm2. fold m2 in Hm2.
  assert (0 <= shr_m mrs1) as Hm1pos.
  { rewrite Hm1. apply Z.div_pos; [done|]. apply Z.pow_pos_nonneg; lia. }
  pose proof (shr_fexp_spec m2 e1 loc_Exact ltac:(lia)) as [Hm3 He2].
  destruct (shr_fexp F32.prec F32.emax m2 e1 loc_Exact) as [mrs2 e2].
  simpl in *.
  exists m2, (shr_m mrs2), e1, e2.
  split; [done|].
  replace (e1 - ex) with (Z.max (fexp32 (Zdigits2 mx + ex) - ex) 0) by lia.
  rewrite <- Hm1. split; [done|]. split; [done|].
  replace (e2 - e1) with (Z.max (fexp32 (Zdigits2 m2 + e1) - e1) 0) by lia.
  split; [done|]. done.
Qed.

(** The quotient of a positive finite float by a larger one rounds into the
    unit interval. The hypothesis compares the two values at the scale of
    the smallest subnormal. *)
Lemma SFdiv_lt_unit (ma mD : positive) (ea eD : Z) :
  -149 <= ea -> -149 <= eD ->
  Z.pos ma * 2 ^ (ea + 149) < Z.pos mD * 2 ^ (eD + 149) ->
  unit_float (F32.div (S754_finite false ma ea) (S754_finite false mD eD)).
Proof.
  intros Hea HeD Hlt. unfold F32.div, SFdiv, SFdiv_core_binary.
  set (d1 := Zdigits2 (Z.pos ma)). set (d2 := Zdigits2 (Z.pos mD)).
  assert (d1 + ea - (d2 + eD) <= 0) as Hdelta.
  { pose proof (Zdigits2_lower (Z.pos ma) ltac:(lia)) as Hlo. fold d1 in Hlo.
    assert (Z.pos mD < 2 ^ d2) as Hhi.
    { apply Zdigits2_le_iff; [lia|apply Zdigits2_nonneg|]. unfold d2. lia. }
    assert (0 < d1) by (unfold d1; simpl; lia).
    assert (0 < d2) by (unfold d2; simpl; lia).
    assert (2 ^ (d1 - 1 + (ea + 149)) < 2 ^ (d2 + (eD + 149))) as Hpow.
    { rewrite (Z.pow_add_r 2 (d1 - 1)), (Z.pow_add_r 2 d2) by lia.
      pow_pos (ea + 149).
      pow_pos (eD + 149).
      apply Z.le_lt_trans with (Z.pos ma * 2 ^ (ea + 149));
        [apply Z.mul_le_mono_nonneg_r; lia|].
      apply Z.lt_trans with (Z.pos mD * 2 ^ (eD + 149)); [done|].
      by apply Z.mul_lt_mono_pos_r. }
    apply Z.pow_lt_mono_r_iff in Hpow; lia. }
  set (e' := Z.min (fexp F32.prec F32.emax (d1 + ea - (d2 + eD))) (ea - eD)).
  assert (e' <= -24) as He'.
  { unfold e'. rewrite fexp32_eq. lia. }
  assert (0 <= ea - eD - e') as Hs by (unfold e'; lia).
  set (m' := match ea - eD - e' with
             | 0 => Z.pos ma
             | Z.pos _ => Z.shiftl (Z.pos ma) (ea - eD - e')
             | Z.neg _ => 0
             end).
  assert (m' = Z.pos ma * 2 ^ (ea - eD - e')) as Hm'.
  { unfold m'. destruct (ea - eD - e') as [|p|p] eqn:Hs'; [lia| |lia].
    by rewrite Z.shiftl_mul_pow2. }
  pose proof (Z.div_eucl_eq m' (Z.pos mD) ltac:(lia)) as Heucl.
  pose proof (Z.mod_pos_bound m' (Z.pos mD) ltac:(lia)) as Hmod.
  unfold Z.modulo in Hmod.
  destruct (Z.div_eucl m' (Z.pos mD)) as [q r] eqn:Hqr.
  assert (0 <= q /\ q < 2 ^ (- e')) as [Hq0 Hq].
  { pow_pos (ea - eD - e').
    assert (0 < 2 ^ (eD + 149)) as HP by (apply Z.pow_pos_nonneg; lia).
    assert (0 < 2 ^ (- e')) as HQ by (apply Z.pow_pos_nonneg; lia).
    split; [nia|].
    assert (2 ^ (ea - eD - e') * 2 ^ (eD + 149)
            = 2 ^ (ea + 149) * 2 ^ (- e')) as Hpow.
    { rewrite <- !Z.pow_add_r by lia. f_equal. lia. }
    assert (m' * 2 ^ (eD + 149) < Z.pos mD * 2 ^ (- e') * 2 ^ (eD + 149)).
    { rewrite Hm'. nia. }
    assert (m' < Z.pos mD * 2 ^ (- e')) by nia.
    nia. }
  destruct (binary_round_aux_spec (xorb false false) q e' (new_location (Z.pos mD) r)
              Hq0) as (m2 & m3 & e1 & e2 & He1 & Hm2 & He2 & Hm3 & ->).
  assert (e' <= e1) as Hle1 by lia.
  assert (e1 <= -24) as He1'.
  { destruct (Z.eq_dec q 0) as [->|Hq0'].
    - simpl in He1. rewrite fexp32_eq in He1. lia.
    - assert (Zdigits2 q <= - e') by (apply Zdigits2_le_iff; lia).
      rewrite fexp32_eq in He1. lia. }
  assert (0 <= q / 2 ^ (e1 - e') < 2 ^ (- e1)) as Hm1.
  { pow_pos (e1 - e').
    split; [apply Z.div_pos; lia|].
    apply Z.div_lt_upper_bound; [done|].
    rewrite <- Z.pow_add_r by lia.
    by replace (e1 - e' + - e1) with (- e') by lia. }
  assert (e1 <= e2) as Hle2 by lia.
  assert (0 <= m3 <= 2 ^ (- e2) /\ e2 <= -23) as [Hm3' He2'].
  { destruct (Z.eq_dec m2 0) as [Hm20|Hm20].
    - subst m2. simpl in He2. rewrite fexp32_eq in He2.
      rewrite Z.div_0_l in Hm3 by (apply Z.pow_nonzero; lia). subst m3.
      pow_pos (- e2). lia.
    - assert (Zdigits2 m2 <= - e1 + 1).
      { apply Zdigits2_le_iff; [lia|lia|].
        rewrite Z.pow_add_r by lia. lia. }
      rewrite fexp32_eq in He2.
      assert (e2 <= -23) by lia. split; [|done].
      pow_pos (e2 - e1).
      subst m3. split; [apply Z.div_pos; lia|].
      apply Z.div_le_upper_bound; [done|].
      rewrite <- Z.pow_add_r by lia.
      replace (e2 - e1 + - e2) with (- e1) by lia. lia. }
  destruct m3 as [|m|m]; [by left| |lia].
  right. destruct (Z.leb_spec e2 104); [|lia].
  exists m, e2. split; [done|].
  destruct (Z.eq_dec e2 (-23)) as [->|]; [right|left; lia].
  split; [done|]. simpl in Hm3'. lia.
Qed.

Lemma div_eucl_div_mod (a b : Z) : Z.div_eucl a b = (a / b, a mod b).
Proof. unfold Z.div, Z.modulo. by destruct (Z.div_eucl a b). Qed.

Lemma new_location_0 (n : Z) : new_location n 0 = loc_Exact.
Proof. unfold new_location. by destruct (Z.even n). Qed.

(** A positive finite float divided by itself is [1]. *)
Lemma SFdiv_self (m : positive) (e : Z) :
  F32.div (S754_finite false m e) (S754_finite false m e) = F32.one.
Proof.
  unfold F32.div, SFdiv, SFdiv_core_binary.
  rewrite !Z.sub_diag.
  change (Z.min (fexp F32.prec F32.emax 0) 0) with (-24).
  change (0 - -24) with 24.
  cbv beta iota.
  rewrite Z.shiftl_mul_pow2 by lia.
  rewrite div_eucl_div_mod, Z.mul_comm, Z.div_mul, Z.mod_mul by lia.
  rewrite new_location_0. vm_compute. reflexivity.
Qed.

(** ** Well-formed finite floats and their values *)

Lemma bounded_inv (m : positive) (e : Z) :
  bounded F32.prec F32.emax m e = true ->
  -149 <= e <= 104 /\ Z.pos m < 2 ^ 24 /\ (-149 < e -> 2 ^ 23 <= Z.pos m).
Proof.
  unfold bounded, canonical_mantissa.
  intros [Hc He]%andb_true_iff. apply Z.eqb_eq in Hc. apply Z.leb_le in He.
  change (Z.pos (digits2_pos m)) with (Zdigits2 (Z.pos m)) in Hc.
  rewrite fexp32_eq in Hc. change (F32.emax - F32.prec) with 104 in He.
  split; [lia|]. split.
  - apply Zdigits2_le_iff; lia.
  - intros Hlt. assert (Zdigits2 (Z.pos m) = 24) as Hd by lia.
    pose proof (Zdigits2_lower (Z.pos m) ltac:(lia)) as Hlo.
    by rewrite Hd in Hlo.
Qed.

Lemma bounded_intro (m : positive) (e : Z) :
  fexp32 (Zdigits2 (Z.pos m) + e) = e -> e <= 104 ->
  bounded F32.prec F32.emax m e = true.
Proof.
  intros Hc He. unfold bounded, canonical_mantissa.
  apply andb_true_iff. split; [by apply Z.eqb_eq | by apply Z.leb_le].
Qed.

(** Canonical positive floats compare as their fields do. *)
Lemma canonical_lt (m1 m2 : positive) (e1 e2 : Z) :
  bounded F32.prec F32.emax m1 e1 = true ->
  bounded F32.prec F32.emax m2 e2 = true ->
  e1 < e2 ->
  Z.pos m1 * 2 ^ (e1 + 149) < Z.pos m2 * 2 ^ (e2 + 149).
Proof.
  intros (He1 & Hm1 & _)%bounded_inv (He2 & _ & Hm2)%bounded_inv Hlt.
  specialize (Hm2 ltac:(lia)).
  replace (e2 + 149) with ((e2 - e1 - 1) + 1 + (e1 + 149)) by lia.
  rewrite (Z.pow_add_r 2 (e2 - e1 - 1 + 1) (e1 + 149)),
    (Z.pow_add_r 2 (e2 - e1 - 1) 1) by lia.
  pow_pos (e1 + 149).
  pow_pos (e2 - e1 - 1).
  change (2 ^ 1) with 2. change (2 ^ 24) with (2 * 2 ^ 23) in Hm1.
  generalize dependent (2 ^ (e1 + 149)). generalize dependent (2 ^ 23).
  generalize dependent (2 ^ (e2 - e1 - 1)). intros Q HQ K HK1 HK2 P HP.
  assert (Z.pos m1 * P < 2 * K * P) by (by apply Z.mul_lt_mono_pos_r).
  assert (2 * K * P <= 2 * Z.pos m2 * P)
    by (apply Z.mul_le_mono_nonneg_r; lia).
  assert (Z.pos m2 * P <= Z.pos m2 * P * Q) by nia.
  lia.
Qed.

Lemma compare_fields (m1 m2 : positive) (e1 e2 : Z) :
  bounded F32.prec F32.emax m1 e1 = true ->
  bounded F32.prec F32.emax m2 e2 = true ->
  match e1 ?= e2 with
  | Lt => Lt
  | Gt => Gt
  | Eq => Pos.compare_cont Eq m1 m2
  end
  = (Z.pos m1 * 2 ^ (e1 + 149) ?= Z.pos m2 * 2 ^ (e2 + 149)).
Proof.
  intros H1 H2. symmetry. destruct (Z.compare_spec e1 e2) as [->|Hlt|Hgt].
  - pose proof (bounded_inv _ _ H2) as (He2 & _).
    pow_pos (e2 + 149).
    change (Pos.compare_cont Eq m1 m2) with (Z.pos m1 ?= Z.pos m2).
    destruct (Z.compare_spec (Z.pos m1) (Z.pos m2)) as [Heq|?|?].
    + rewrite Heq. apply Z.compare_refl.
    + apply Z.compare_lt_iff. by apply Z.mul_lt_mono_pos_r.
    + apply Z.compare_gt_iff. by apply Z.mul_lt_mono_pos_r.
  - apply Z.compare_lt_iff. by apply canonical_lt.
  - apply Z.compare_gt_iff. by apply canonical_lt.
Qed.

Lemma SFcompare_zval (x y : spec_float) :
  fin x -> fin y -> SFcompare x y = Some (zval x ?= zval y).
Proof.
  destruct x as [sx| | |sx mx ex], y as [sy| | |sy my ey]; try done;
    intros Hx Hy; cbn [fin] in Hx, Hy; unfold SFcompare, zval.
  - pose proof (bounded_inv _ _ Hy) as (He & _).
    pow_pos (ey + 149).
    destruct sy; cbn [cond_Zopp]; f_equal; symmetry.
    + apply Z.compare_gt_iff. lia.
    + apply Z.compare_lt_iff. lia.
  - pose proof (bounded_inv _ _ Hx) as (He & _).
    pow_pos (ex + 149).
    destruct sx; cbn [cond_Zopp]; f_equal; symmetry.
    + apply Z.compare_lt_iff. lia.
    + apply Z.compare_gt_iff. lia.
  - pose proof (bounded_inv _ _ Hx) as (Hex & _).
    pose proof (bounded_inv _ _ Hy) as (Hey & _).
    pow_pos (ex + 149).
    pow_pos (ey + 149).
    destruct sx, sy; cbn [cond_Zopp]; f_equal.
    + rewrite Z.compare_opp.
      rewrite <- (compare_fields my mx ey ex) by done.
      rewrite (Z.compare_antisym ey ex).
      destruct (ey ?= ex); try done. simpl.
      by rewrite Pos.compare_cont_antisym.
    + symmetry. apply Z.compare_lt_iff. lia.
    + symmetry. apply Z.compare_gt_iff. lia.
    + by apply compare_fields.
Qed.

Lemma iter_xO_val (m d : positive) :
  Z.pos (Pos.iter xO m d) = Z.pos m * 2 ^ Z.pos d.
Proof.
  induction d as [|d IH] using Pos.peano_ind.
  - simpl. lia.
  - rewrite Pos.iter_succ, Pos2Z.inj_xO, IH, Pos2Z.inj_succ.
    rewrite Z.pow_succ_r by lia. lia.
Qed.

Lemma shl_align_spec (m : positive) (e e' : Z) :
  Z.pos (shl_align m e e').1 = Z.pos m * 2 ^ (e - Z.min e e') /\
  (shl_align m e e').2 = Z.min e e'.
Proof.
  unfold shl_align. destruct (e' - e) as [|d|d] eqn:Hd; simpl.
  - rewrite Z.min_l by lia. rewrite Z.sub_diag. simpl. lia.
  - rewrite Z.min_l by lia. rewrite Z.sub_diag. simpl. lia.
  - rewrite Z.min_r by lia. rewrite iter_xO_val. split; [|done].
    do 2 f_equal. lia.
Qed.

Lemma Zdigits2_mul_pow2 (m k : Z) :
  0 < m -> 0 <= k -> Zdigits2 (m * 2 ^ k) = Zdigits2 m + k.
Proof.
  intros Hm Hk. assert (0 < 2 ^ k) by (apply Z.pow_pos_nonneg; lia).
  rewrite !Zdigits2_log2 by nia. rewrite Z.log2_mul_pow2 by lia. lia.
Qed.

Lemma binary_round_aux_valid (mx ex : Z) (l : location) :
  0 < mx -> -149 <= ex -> ex <= fexp32 (Zdigits2 mx + ex) ->
  pos_or_inf (binary_round_aux F32.prec F32.emax false mx ex l).
Proof.
  intros Hmx Hex Hprec.
  destruct (binary_round_aux_spec false mx ex l ltac:(lia))
    as (m2 & m3 & e1 & e2 & He1 & Hm2 & He2 & Hm3 & ->).
  pose proof (Zdigits2_lower mx Hmx) as Hlo.
  assert (1 <= Zdigits2 mx) as Hd.
  { rewrite Zdigits2_log2 by done. pose proof (Z.log2_nonneg mx). lia. }
  rewrite Z.max_l in He1 by lia.
  assert (e1 = fexp32 (Zdigits2 mx + ex)) as He1' by lia.
  set (m1 := mx / 2 ^ (e1 - ex)) in *.
  assert (0 < m1) as Hm1.
  { unfold m1. apply Z.div_str_pos. split; [apply Z.pow_pos_nonneg; lia|].
    etrans; [|exact Hlo]. apply Z.pow_le_mono_r; [lia|].
    rewrite fexp32_eq in He1'. lia. }
  assert (Zdigits2 m1 + e1 = Zdigits2 mx + ex) as Hd1.
  { unfold m1. rewrite Zdigits2_shiftr; [lia|done|lia|done]. }
  assert (Zdigits2 m1 <= Zdigits2 m2) as Hmono
    by (apply Zdigits2_mono; lia).
  assert (e1 <= fexp32 (Zdigits2 m2 + e1)) as Hprec2.
  { rewrite fexp32_eq in *. lia. }
  rewrite Z.max_l in He2 by lia.
  assert (e2 = fexp32 (Zdigits2 m2 + e1)) as He2' by lia.
  pose proof (Zdigits2_lower m2 ltac:(lia)) as Hlo2.
  assert (0 < m3) as Hm3pos.
  { rewrite Hm3. apply Z.div_str_pos.
    split; [apply Z.pow_pos_nonneg; lia|].
    etrans; [|exact Hlo2]. apply Z.pow_le_mono_r; [lia|].
    rewrite fexp32_eq in He2'. lia. }
  assert (Zdigits2 m3 + e2 = Zdigits2 m2 + e1) as Hd3.
  { rewrite Hm3. rewrite Zdigits2_shiftr; [lia|lia|lia|by rewrite <- Hm3]. }
  destruct m3 as [|m|m]; [lia| |lia].
  destruct (Z.leb_spec e2 104); [right|by left].
  exists m, e2. split; [done|]. apply bounded_intro; [|done].
  rewrite Hd3. done.
Qed.

Lemma binary_round_valid (m : positive) (e : Z) :
  -149 <= e -> pos_or_inf (binary_round F32.prec F32.emax false m e).
Proof.
  intros He. unfold binary_round.
  pose proof (shl_align_spec m e
                (fexp F32.prec F32.emax (Z.pos (digits2_pos m) + e)))
    as [Hmz Hez].
  destruct (shl_align m e _) as [mz ez]. simpl in Hmz, Hez.
  change (Z.pos (digits2_pos m)) with (Zdigits2 (Z.pos m)) in *.
  assert (-149 <= fexp32 (Zdigits2 (Z.pos m) + e)) as Hf
    by (rewrite fexp32_eq; lia).
  assert (Zdigits2 (Z.pos mz) + ez = Zdigits2 (Z.pos m) + e) as Hd.
  { rewrite Hmz, Zdigits2_mul_pow2 by lia. lia. }
  apply binary_round_aux_valid; [lia|lia|].
  rewrite Hd. lia.
Qed.

Lemma cond_Zopp_mul (s : bool) (a c : Z) :
  cond_Zopp s a * c = cond_Zopp s (a * c).
Proof. destruct s; simpl; lia. Qed.

(** Subtracting a finite float from one that is not smaller: a zero when
    the two are equal, otherwise a positive finite float, or the overflow to
    infinity. *)
Lemma SFsub_ge (x y : spec_float) :
  fin x -> fin y -> zval y <= zval x ->
  (zval x = zval y -> exists s, F32.sub x y = S754_zero s) /\
  (zval y < zval x -> pos_or_inf (F32.sub x y)).
Proof.
  destruct x as [sx| | |sx mx ex], y as [sy| | |sy my ey]; try done;
    intros Hx Hy; cbn [fin] in Hx, Hy; unfold zval.
  - intros _. split; [|lia]. intros _. destruct sx, sy; by eexists.
  - pose proof (bounded_inv _ _ Hy) as (He & _).
    pow_pos (ey + 149).
    destruct sy; cbn [cond_Zopp]; [|lia]. intros _. split; [lia|].
    intros _. right. by exists my, ey.
  - pose proof (bounded_inv _ _ Hx) as (He & _).
    pow_pos (ex + 149).
    destruct sx; cbn [cond_Zopp]; [lia|]. intros _. split; [lia|].
    intros _. right. by exists mx, ex.
  - pose proof (bounded_inv _ _ Hx) as (Hex & _).
    pose proof (bounded_inv _ _ Hy) as (Hey & _).
    unfold F32.sub, SFsub.
    pose proof (shl_align_spec mx ex (Z.min ex ey)) as [Hmx _].
    pose proof (shl_align_spec my ey (Z.min ex ey)) as [Hmy _].
    replace (Z.min ex (Z.min ex ey)) with (Z.min ex ey) in Hmx by lia.
    replace (Z.min ey (Z.min ex ey)) with (Z.min ex ey) in Hmy by lia.
    set (ez := Z.min ex ey) in *.
    set (z := cond_Zopp sx (Z.pos (shl_align mx ex ez).1)
              - cond_Zopp sy (Z.pos (shl_align my ey ez).1)).
    assert (z * 2 ^ (ez + 149)
            = cond_Zopp sx (Z.pos mx * 2 ^ (ex + 149))
              - cond_Zopp sy (Z.pos my * 2 ^ (ey + 149))) as Hz.
    { unfold z. rewrite Z.mul_sub_distr_r, !cond_Zopp_mul, Hmx, Hmy.
      rewrite <- !Z.mul_assoc, <- !Z.pow_add_r by lia.
      by replace (ex - ez + (ez + 149)) with (ex + 149) by lia;
         replace (ey - ez + (ez + 149)) with (ey + 149) by lia. }
    pow_pos (ez + 149).
    fold z. intros Hle. split.
    + intros Heq. assert (z = 0) as -> by nia. by exists false.
    + intros Hlt. assert (0 < z) as Hzpos by nia.
      destruct z as [|p|p]; [lia| |lia]. simpl.
      apply binary_round_valid. lia.
Qed.

Lemma SFleb_finite (s1 s2 : bool) (m1 m2 : positive) (e1 e2 : Z) :
  SFleb (S754_finite s1 m1 e1) (S754_finite s2 m2 e2) = true <->
  match s1, s2 with
  | true, false => True
  | false, true => False
  | false, false => lex_le m1 e1 m2 e2
  | true, true => lex_le m2 e2 m1 e1
  end.
Proof.
  unfold SFleb, SFcompare, lex_le.
  change (Pos.compare_cont Eq m1 m2) with (Z.pos m1 ?= Z.pos m2).
  destruct s1, s2; try done;
    destruct (Z.compare_spec e1 e2);
    destruct (Z.compare_spec (Z.pos m1) (Z.pos m2)); simpl;
    split; try done; try lia; intros; exfalso; lia.
Qed.

Lemma SFleb_not_nan (x y : spec_float) :
  SFleb x y = true -> not_nan x /\ not_nan y.
Proof. by destruct x, y. Qed.

Lemma SFleb_total (x y : spec_float) :
  not_nan x -> not_nan y -> SFleb x y = true \/ SFleb y x = true.
Proof.
  destruct x as [sx|sx| |sx mx ex], y as [sy|sy| |sy my ey]; try done;
    intros _ _;
    try (destruct sx; try destruct sy; by auto);
    try (destruct sy; by auto).
  rewrite !SFleb_finite. unfold lex_le. destruct sx, sy; lia.
Qed.

Lemma SFleb_trans (x y z : spec_float) :
  SFleb x y = true -> SFleb y z = true -> SFleb x z = true.
Proof.
  destruct x as [sx|sx| |sx mx ex], y as [sy|sy| |sy my ey],
           z as [sz|sz| |sz mz ez]; try done;
    try (rewrite !SFleb_finite; unfold lex_le; destruct sx, sy, sz; lia);
    try (destruct sx; try destruct sy; try destruct sz; done);
    try (destruct sy; try destruct sz; done);
    try (destruct sz; done).
Qed.

(** ** Reductions *)

Lemma SFleb_refl (x : spec_float) : not_nan x -> SFleb x x = true.
Proof. intros Hx. by destruct (SFleb_total x x Hx Hx). Qed.

Lemma maximum_spec (acc x : spec_float) :
  not_nan acc -> not_nan x ->
  (F32.maximum acc x = acc \/ F32.maximum acc x = x) /\
  SFleb acc (F32.maximum acc x) = true /\
  SFleb x (F32.maximum acc x) = true.
Proof.
  intros Hacc Hx. unfold F32.maximum.
  destruct (SFleb x acc) eqn:Hle; simpl.
  - split; [by left|]. split; [by apply SFleb_refl | done].
  - replace (F32.is_nan acc) with false by (by destruct acc).
    split; [by right|]. split; [|by apply SFleb_refl].
    destruct (SFleb_total x acc Hx Hacc); [congruence | done].
Qed.

Lemma minimum_spec (acc x : spec_float) :
  not_nan acc -> not_nan x ->
  (F32.minimum acc x = acc \/ F32.minimum acc x = x) /\
  SFleb (F32.minimum acc x) acc = true /\
  SFleb (F32.minimum acc x) x = true.
Proof.
  intros Hacc Hx. unfold F32.minimum.
  destruct (SFleb acc x) eqn:Hle; simpl.
  - split; [by left|]. split; [by apply SFleb_refl | done].
  - replace (F32.is_nan acc) with false by (by destruct acc).
    split; [by right|]. split; [|by apply SFleb_refl].
    destruct (SFleb_total acc x Hacc Hx); [congruence | done].
Qed.

(** The maximum of a list without NaN is one of its members, and none is
    above it; likewise for the minimum. *)
Lemma foldl_maximum_spec (x0 : spec_float) (xs : list spec_float) :
  Forall not_nan (x0 :: xs) ->
  foldl F32.maximum x0 xs ∈ x0 :: xs /\
  Forall (fun z => SFleb z (foldl F32.maximum x0 xs) = true) (x0 :: xs).
Proof.
  revert x0. induction xs as [|x xs IH]; intros x0 Hall.
  - apply Forall_cons in Hall as [Hx0 _]. simpl. split; [by left|].
    constructor; [by apply SFleb_refl | done].
  - apply Forall_cons in Hall as [Hx0 Hall].
    pose proof Hall as [Hx Hxs]%Forall_cons. simpl.
    destruct (maximum_spec x0 x Hx0 Hx) as (Hsel & Hle0 & Hlex).
    destruct (IH (F32.maximum x0 x)) as [Hin Hle].
    { constructor; [|done]. by destruct Hsel as [->| ->]. }
    apply Forall_cons in Hle as [Hle1 Hle2]. split.
    + apply elem_of_cons in Hin as [->|Hin].
      * destruct Hsel as [->| ->]; [by left | by right; left].
      * by right; right.
    + constructor; [by eapply SFleb_trans|].
      constructor; [by eapply SFleb_trans|done].
Qed.

Lemma foldl_minimum_spec (x0 : spec_float) (xs : list spec_float) :
  Forall not_nan (x0 :: xs) ->
  foldl F32.minimum x0 xs ∈ x0 :: xs /\
  Forall (fun z => SFleb (foldl F32.minimum x0 xs) z = true) (x0 :: xs).
Proof.
  revert x0. induction xs as [|x xs IH]; intros x0 Hall.
  - apply Forall_cons in Hall as [Hx0 _]. simpl. split; [by left|].
    constructor; [by apply SFleb_refl | done].
  - apply Forall_cons in Hall as [Hx0 Hall].
    pose proof Hall as [Hx Hxs]%Forall_cons. simpl.
    destruct (minimum_spec x0 x Hx0 Hx) as (Hsel & Hle0 & Hlex).
    destruct (IH (F32.minimum x0 x)) as [Hin Hle].
    { constructor; [|done]. by destruct Hsel as [->| ->]. }
    apply Forall_cons in Hle as [Hle1 Hle2]. split.
    + apply elem_of_cons in Hin as [->|Hin].
      * destruct Hsel as [->| ->]; [by left | by right; left].
      * by right; right.
    + constructor; [by eapply SFleb_trans|].
      constructor; [by eapply SFleb_trans|done].
Qed.

(** ** Normalising one channel *)

Lemma zval_inj (m1 m2 : positive) (e1 e2 : Z) :
  bounded F32.prec F32.emax m1 e1 = true ->
  bounded F32.prec F32.emax m2 e2 = true ->
  Z.pos m1 * 2 ^ (e1 + 149) = Z.pos m2 * 2 ^ (e2 + 149) ->
  m1 = m2 /\ e1 = e2.
Proof.
  intros H1 H2 Heq.
  destruct (Z.lt_trichotomy e1 e2) as [Hlt|[->|Hgt]].
  - pose proof (canonical_lt _ _ _ _ H1 H2 Hlt). lia.
  - pose proof (bounded_inv _ _ H2) as (He & _).
    pow_pos (e2 + 149).
    split; [|done]. apply Z.mul_cancel_r in Heq; lia.
  - pose proof (canonical_lt _ _ _ _ H2 H1 ltac:(lia)). lia.
Qed.

Lemma nonneg_fin_fin (y : spec_float) : nonneg_fin y -> fin y /\ 0 <= zval y.
Proof.
  intros [[s ->]|(m & e & -> & Hb)]; [done|]. split; [done|]. simpl.
  pose proof (bounded_inv _ _ Hb) as (He & _).
  pow_pos (e + 149). lia.
Qed.

Lemma unit_float_in_unit (z : spec_float) : unit_float z -> in_unit z.
Proof.
  intros [->|(m & e & -> & He)]; [done|]. split; [done|].
  change F32.one with (S754_finite false 8388608 (-23)).
  apply SFleb_finite. unfold lex_le. change (2 ^ 23) with 8388608 in He. lia.
Qed.

Lemma zero_in_unit (s : bool) : in_unit (S754_zero s).
Proof. done. Qed.

(** Dividing a non-negative finite float by a positive one that is not
    smaller. *)
Lemma SFdiv_unit (y : spec_float) (mD : positive) (eD : Z) :
  nonneg_fin y -> bounded F32.prec F32.emax mD eD = true ->
  zval y <= zval (S754_finite false mD eD) ->
  in_unit (F32.div y (S754_finite false mD eD)).
Proof.
  intros [[s ->]|(m & e & -> & Hb)] HD Hle.
  - simpl. apply zero_in_unit.
  - simpl in Hle. apply Z.le_lteq in Hle as [Hlt|Heq].
    + apply unit_float_in_unit.
      pose proof (bounded_inv _ _ Hb) as (He & _).
      pose proof (bounded_inv _ _ HD) as (HeD & _).
      apply SFdiv_lt_unit; lia.
    + apply zval_inj in Heq as [-> ->]; [|done..].
      rewrite SFdiv_self. done.
Qed.

Lemma in_unit_min_zero (r : spec_float) (s : bool) :
  in_unit r -> SFleb r (S754_zero s) = true -> SFeqb r F32.zero = true.
Proof.
  intros [H0 _] Hle. by destruct r as [[]|[]| |[] m e], s.
Qed.

Lemma in_unit_max_one (r : spec_float) :
  in_unit r -> SFleb F32.one r = true -> r = F32.one.
Proof.
  intros [_ H1] Hle. destruct r as [[]|[]| |sr m e]; try done.
  change F32.one with (S754_finite false 8388608 (-23)) in *.
  apply SFleb_finite in H1, Hle. destruct sr; [done|].
  unfold lex_le in *. assert (e = -23 /\ m = 8388608%positive) as [-> ->] by lia.
  done.
Qed.

Lemma np_min_spec (l : list F32.t) :
  l <> [] -> Forall not_nan l ->
  np_min l ∈ l /\ Forall (fun z => SFleb (np_min l) z = true) l.
Proof. destruct l as [|x0 xs]; [done|]. intros _. apply foldl_minimum_spec. Qed.

Lemma np_max_spec (l : list F32.t) :
  l <> [] -> Forall not_nan l ->
  np_max l ∈ l /\ Forall (fun z => SFleb z (np_max l) = true) l.
Proof. destruct l as [|x0 xs]; [done|]. intros _. apply foldl_maximum_spec. Qed.

Lemma fin_not_nan (x : spec_float) : fin x -> not_nan x.
Proof. by destruct x. Qed.

Lemma SFleb_zval (x y : spec_float) :
  fin x -> fin y -> SFleb x y = true -> zval x <= zval y.
Proof.
  intros Hx Hy. unfold SFleb. rewrite (SFcompare_zval x y) by done.
  destruct (Z.compare_spec (zval x) (zval y)); [lia|lia|done].
Qed.

Section Channel.
Variable chan : list F32.t.

Hypothesis finite_values : Forall fin chan.
Hypothesis not_all_equal :
  exists x x', x ∈ chan /\ x' ∈ chan /\ SFeqb x x' = false.
Hypothesis finite_range :
  Forall (fun y => y <> S754_infinity false) (shifted chan).

Lemma channel_nonempty : chan <> [].
Proof.
  destruct not_all_equal as (x & _ & Hx & _). intros Hnil.
  rewrite Hnil in Hx. by apply elem_of_nil in Hx.
Qed.

Lemma channel_lo :
  np_min chan ∈ chan /\ fin (np_min chan) /\
  Forall (fun x => zval (np_min chan) <= zval x) chan.
Proof.
  destruct (np_min_spec chan channel_nonempty) as [Hin Hle].
  { eapply Forall_impl; [exact finite_values|]. apply fin_not_nan. }
  split; [done|].
  assert (fin (np_min chan)) as Hlo
    by (by eapply Forall_forall in finite_values).
  split; [done|].
  apply Forall_forall. intros x Hx.
  eapply Forall_forall in Hle; [|done].
  eapply Forall_forall in finite_values; [|done].
  by apply SFleb_zval.
Qed.

Lemma channel_shifted :
  Forall nonneg_fin (shifted chan) /\
  (exists s, S754_zero s ∈ shifted chan) /\
  (exists y, y ∈ shifted chan /\ 0 < zval y).
Proof.
  destruct channel_lo as (Hin & Hlo & Hle).
  set (lo := np_min chan) in *.
  assert (forall x, x ∈ chan ->
            nonneg_fin (F32.sub x lo) /\
            (zval lo < zval x -> 0 < zval (F32.sub x lo)) /\
            (zval x = zval lo -> exists s, F32.sub x lo = S754_zero s))
    as Hsub.
  { intros x Hx.
    assert (fin x) as Hfx by (by eapply Forall_forall in finite_values).
    assert (zval lo <= zval x) as Hlex by (by eapply Forall_forall in Hle).
    destruct (SFsub_ge x lo Hfx Hlo Hlex) as [Heq Hlt].
    assert (F32.sub x lo <> S754_infinity false) as Hfin.
    { eapply Forall_forall in finite_range; [done|].
      unfold shifted. apply list_elem_of_fmap. by exists x. }
    apply Z.le_lteq in Hlex as [Hlt'|Heq'].
    - destruct (Hlt Hlt') as [?|(m & e & Hr & Hb)]; [done|].
      rewrite Hr. split; [right; by exists m, e|]. split; [|lia].
      intros _. simpl.
      pose proof (bounded_inv _ _ Hb) as (He & _).
      pow_pos (e + 149). lia.
    - destruct (Heq (eq_sym Heq')) as [s Hs]. rewrite Hs.
      split; [left; by exists s|]. split; [lia|]. intros _. by exists s. }
  split; [|split].
  - unfold shifted. apply Forall_fmap, Forall_forall. intros x Hx.
    by apply Hsub.
  - destruct (Hsub lo Hin) as (_ & _ & [s Hs]); [done|].
    exists s. rewrite <- Hs. unfold shifted. apply list_elem_of_fmap.
    by exists lo.
  - destruct not_all_equal as (x & x' & Hx & Hx' & Hne).
    assert (fin x) as Hfx by (by eapply Forall_forall in finite_values).
    assert (fin x') as Hfx' by (by eapply Forall_forall in finite_values).
    unfold SFeqb in Hne. rewrite (SFcompare_zval x x') in Hne by done.
    assert (zval x <> zval x') as Hne'.
    { intros Heq. rewrite Heq, Z.compare_refl in Hne. done. }
    assert (zval lo <= zval x) by (by eapply Forall_forall in Hle).
    assert (zval lo <= zval x') by (by eapply Forall_forall in Hle).
    destruct (Z.eq_dec (zval x) (zval lo)) as [Heq|Hneq].
    + exists (F32.sub x' lo). split.
      * unfold shifted. apply list_elem_of_fmap. by exists x'.
      * apply Hsub; [done|lia].
    + exists (F32.sub x lo). split.
      * unfold shifted. apply list_elem_of_fmap. by exists x.
      * apply Hsub; [done|lia].
Qed.

Lemma channel_hi :
  np_max (shifted chan) ∈ shifted chan /\
  (exists mD eD, np_max (shifted chan) = S754_finite false mD eD /\
                 bounded F32.prec F32.emax mD eD = true) /\
  Forall (fun y => zval y <= zval (np_max (shifted chan))) (shifted chan).
Proof.
  destruct channel_shifted as (Hys & _ & (y1 & Hy1 & Hpos)).
  assert (Forall fin (shifted chan)) as Hfin.
  { eapply Forall_impl; [exact Hys|]. by intros y [? _]%nonneg_fin_fin. }
  destruct (np_max_spec (shifted chan)) as [Hin Hle].
  { intros Hnil. rewrite Hnil in Hy1. by apply elem_of_nil in Hy1. }
  { eapply Forall_impl; [exact Hfin|]. apply fin_not_nan. }
  set (hi := np_max (shifted chan)) in *.
  assert (Forall (fun y => zval y <= zval hi) (shifted chan)) as Hle'.
  { apply Forall_forall. intros y Hy.
    assert (fin y) by (by eapply Forall_forall in Hfin).
    assert (fin hi) by (by eapply Forall_forall in Hfin).
    eapply Forall_forall in Hle; [|done]. by apply SFleb_zval. }
  split; [done|]. split; [|done].
  assert (0 < zval hi) as Hhi.
  { eapply Forall_forall in Hle'; [|exact Hy1]. lia. }
  eapply Forall_forall in Hys; [|exact Hin].
  destruct Hys as [[s Hs]|?]; [|done]. rewrite Hs in Hhi. done.
Qed.

(** The normalised channel has minimum [0] and maximum [1]. *)
Lemma channel_range :
  SFeqb (np_min (normalize_channel chan)) F32.zero = true /\
  np_max (normalize_channel chan) = F32.one.
Proof.
  destruct channel_shifted as (Hys & (s & Hzero) & _).
  destruct channel_hi as (Hhi & (mD & eD & HhiD & HbD) & Hle).
  set (zs := normalize_channel chan).
  assert (Forall in_unit zs) as Hunit.
  { unfold zs, normalize_channel. apply Forall_fmap, Forall_forall.
    intros y Hy. simpl.
    rewrite HhiD. apply SFdiv_unit; [|done|].
    - by eapply Forall_forall in Hys.
    - rewrite <- HhiD. by eapply Forall_forall in Hle. }
  assert (S754_zero s ∈ zs) as Hz0.
  { unfold zs, normalize_channel. apply list_elem_of_fmap.
    exists (S754_zero s). split; [|done]. rewrite HhiD. simpl. by destruct s. }
  assert (F32.one ∈ zs) as Hz1.
  { unfold zs, normalize_channel. apply list_elem_of_fmap.
    exists (np_max (shifted chan)). split; [|done].
    rewrite HhiD. by rewrite SFdiv_self. }
  assert (zs <> []) as Hne.
  { intros Hnil. rewrite Hnil in Hz1. by apply elem_of_nil in Hz1. }
  assert (Forall not_nan zs) as Hnn.
  { eapply Forall_impl; [exact Hunit|].
    by intros z [[_ ?]%SFleb_not_nan _]. }
  split.
  - destruct (np_min_spec zs Hne Hnn) as [Hin Hmin].
    eapply in_unit_min_zero.
    + by eapply Forall_forall in Hunit.
    + by eapply Forall_forall in Hmin.
  - destruct (np_max_spec zs Hne Hnn) as [Hin Hmax].
    apply in_unit_max_one.
    + by eapply Forall_forall in Hunit.
    + by eapply Forall_forall in Hmax.
Qed.
End Channel.

(** ** Examples of the primitives *)

Example slice_negative : Py.slice (-2) 2 [10; 20] = [10; 20].
Proof. reflexivity. Qed.

Example slice_clipped : Py.slice (-1) 3 [10; 20] = [20].
Proof. reflexivity. Qed.

Example sorted3_mid_negative : Py.sorted3_mid 0 (-1) (-2) = -1.
Proof. reflexivity. Qed.

Example unique_example : Py.unique [[3; 0; 1]; [1; 0; 3]] = [0; 1; 3].
Proof. reflexivity. Qed.

Example round_half_up : round_half 85 2 = Ok 43.
Proof. vm_compute. reflexivity. Qed.

Example normalize_example :
  normalize_img (raw_of_Z [[3; 7; 4]])
  = Ok [[[F32.zero]; [F32.one]; [S754_finite false 8388608 (-25)]]].
Proof. vm_compute. reflexivity. Qed.

(** ** Slices *)

Section Slice.
Context {A : Type}.
Implicit Types l : list A.

Lemma slice_in_range l (c size : Z) :
  0 <= c -> 0 <= size -> c + size <= Z.of_nat (length l) ->
  Py.slice c (c + size) l = take (Z.to_nat size) (drop (Z.to_nat c) l).
Proof.
  intros Hc Hs Hle. unfold Py.slice, Py.slice_index.
  destruct (Z.ltb_spec c 0); [lia|].
  destruct (Z.ltb_spec (c + size) 0); [lia|].
  rewrite !Z.min_l by lia. do 2 f_equal. lia.
Qed.

Lemma slice_length l (c size : Z) :
  0 <= c -> 0 <= size -> c + size <= Z.of_nat (length l) ->
  length (Py.slice c (c + size) l) = Z.to_nat size.
Proof.
  intros Hc Hs Hle. rewrite slice_in_range by done.
  rewrite length_take, length_drop. lia.
Qed.

Lemma slice_length_le l (a b : Z) :
  (length (Py.slice a b l) <= length l)%nat.
Proof.
  unfold Py.slice. rewrite length_take, length_drop. lia.
Qed.

Lemma slice_lookup l (c size : Z) (i : nat) :
  0 <= c -> 0 <= size -> c + size <= Z.of_nat (length l) ->
  (i < Z.to_nat size)%nat ->
  Py.slice c (c + size) l !! i = l !! (Z.to_nat c + i)%nat.
Proof.
  intros Hc Hs Hle Hi. rewrite slice_in_range by done.
  rewrite lookup_take_lt by done. apply lookup_drop.
Qed.

Lemma slice_Forall (P : A -> Prop) l (a b : Z) :
  Forall P l -> Forall P (Py.slice a b l).
Proof. intros H. unfold Py.slice. by apply Forall_take, Forall_drop. Qed.
End Slice.

(** ** The clipped window origin *)

Lemma sorted3_mid_clamp (x hi : Z) :
  0 <= hi -> Py.sorted3_mid 0 x hi = clamp x 0 hi.
Proof.
  intros Hhi. unfold Py.sorted3_mid, Py.sorted, clamp. simpl.
  destruct (Z.leb_spec x hi); simpl;
    repeat (match goal with
            | |- context [?a <=? ?b] => destruct (Z.leb_spec a b); simpl
            end); lia.
Qed.

Lemma clamp_min_max (x lo hi : Z) :
  lo <= hi -> clamp x lo hi = Z.min hi (Z.max x lo).
Proof. unfold clamp. lia. Qed.

Lemma sorted3_mid_range (x hi : Z) :
  0 <= hi -> 0 <= Py.sorted3_mid 0 x hi <= hi.
Proof. intros Hhi. rewrite sorted3_mid_clamp by done. unfold clamp. lia. Qed.

(** Whatever the bounds, the middle value is not below the smaller of [0]
    and [hi], nor above the larger. *)
Lemma sorted3_mid_bounds (x hi : Z) :
  Z.min 0 hi <= Py.sorted3_mid 0 x hi <= Z.max 0 hi.
Proof.
  unfold Py.sorted3_mid, Py.sorted. simpl.
  destruct (Z.leb_spec x hi); simpl;
    repeat (match goal with
            | |- context [?a <=? ?b] => destruct (Z.leb_spec a b); simpl
            end); lia.
Qed.

(** ** The result monad *)

Lemma bind_Ok {A B : Type} (r : result A) (k : A -> result B) (b : B) :
  (r ≫= k) = Ok b -> exists a, r = Ok a /\ k a = Ok b.
Proof. destruct r as [a|e]; [by exists a | done]. Qed.

Lemma mapM_Ok_map {A B : Type} (f : A -> result B) (g : A -> B) (l : list A) :
  Forall (fun x => f x = Ok (g x)) l -> mapM f l = Ok (map g l).
Proof.
  induction 1 as [|x l Hx _ IH]; [done|].
  simpl. rewrite Hx. simpl. by rewrite IH.
Qed.

Lemma mapM_Ok_length {A B : Type} (f : A -> result B) (l : list A)
    (k : list B) :
  mapM f l = Ok k -> length k = length l.
Proof.
  revert k. induction l as [|x l IH]; intros k; simpl.
  - by intros [= <-].
  - intros (y & _ & (k' & Hk' & [= <-])%bind_Ok)%bind_Ok.
    simpl. f_equal. by apply IH.
Qed.

(** ** The dictionary *)

Section Dict.
Context {V : Type}.
Implicit Types d : Py.dict V.

Lemma dict_set_elem d (k k' : Z) (v v' : V) :
  (k', v') ∈ Py.dict_set k v d -> (k', v') = (k, v) \/ (k', v') ∈ d.
Proof.
  induction d as [|[k0 v0] d IH]; simpl.
  - rewrite list_elem_of_singleton. by left.
  - destruct (Z.eqb_spec k k0) as [->|Hne]; rewrite !elem_of_cons.
    + intros [?|?]; [by left | by right; right].
    + intros [?|?]; [by right; left |].
      destruct IH as [?|?]; [done | by left | by right; right].
Qed.

Lemma dict_set_keys_elem d (k k' : Z) (v : V) :
  k' ∈ Py.dict_keys (Py.dict_set k v d) <-> k' = k \/ k' ∈ Py.dict_keys d.
Proof.
  unfold Py.dict_keys. induction d as [|[k0 v0] d IH]; simpl.
  - rewrite list_elem_of_singleton, elem_of_nil. tauto.
  - destruct (Z.eqb_spec k k0) as [->|Hne]; simpl; rewrite !elem_of_cons.
    + tauto.
    + rewrite IH. tauto.
Qed.

Lemma dict_set_keys_NoDup d (k : Z) (v : V) :
  NoDup (Py.dict_keys d) -> NoDup (Py.dict_keys (Py.dict_set k v d)).
Proof.
  unfold Py.dict_keys. induction d as [|[k0 v0] d IH]; simpl.
  - intros _. apply NoDup_singleton.
  - rewrite NoDup_cons. intros [Hk0 Hd].
    destruct (Z.eqb_spec k k0) as [->|Hne]; simpl; rewrite NoDup_cons.
    + done.
    + split; [|by apply IH].
      intros [?|?]%dict_set_keys_elem; [congruence | done].
Qed.

(** A new key goes to the end; the keys of the dictionary stay in the order
    of their first insertion. *)
Lemma dict_set_keys_new d (k : Z) (v : V) :
  k ∉ Py.dict_keys d ->
  Py.dict_keys (Py.dict_set k v d) = Py.dict_keys d ++ [k].
Proof.
  unfold Py.dict_keys. induction d as [|[k0 v0] d IH]; simpl; [done|].
  rewrite not_elem_of_cons. intros [Hne Hk].
  destruct (Z.eqb_spec k k0); [done|]. simpl. by rewrite IH.
Qed.

Lemma dict_get_elem d (k : Z) (v : V) :
  NoDup (Py.dict_keys d) -> (k, v) ∈ d -> Py.dict_get k d = Some v.
Proof.
  unfold Py.dict_keys. induction d as [|[k0 v0] d IH]; simpl.
  - by intros _ ?%elem_of_nil.
  - rewrite NoDup_cons, elem_of_cons. intros [Hk0 Hd] [[= -> ->]|Hin].
    + by rewrite Z.eqb_refl.
    + destruct (Z.eqb_spec k k0) as [->|Hne]; [|by apply IH].
      exfalso. apply Hk0. apply list_elem_of_fmap. by exists (k0, v).
Qed.

Lemma dict_getitem_elem d (k : Z) (v : V) :
  NoDup (Py.dict_keys d) -> (k, v) ∈ d -> Py.dict_getitem k d = Ok v.
Proof.
  intros Hd Hin. unfold Py.dict_getitem. by rewrite (dict_get_elem d k v).
Qed.

(** Looking every key up, in the order of the keys, visits the values in
    the order of the entries. *)
Lemma mapM_getitem_sub {B : Type} (f : V -> result B) (g : V -> B) d d' :
  NoDup (Py.dict_keys d) -> d' ⊆ d ->
  Forall (fun kv => f kv.2 = Ok (g kv.2)) d' ->
  mapM (fun k => v ← Py.dict_getitem k d; f v) (map fst d')
  = Ok (map (fun kv => g kv.2) d').
Proof.
  intros Hd. induction d' as [|[k v] d' IH]; intros Hsub Hf; [done|].
  apply Forall_cons in Hf as [Hv Hf].
  simpl. rewrite (dict_getitem_elem d k v); [|done|apply Hsub; by left].
  simpl in *. rewrite Hv. simpl. rewrite IH; [done| |done].
  intros kv Hkv. apply Hsub. by right.
Qed.

Lemma mapM_getitem_keys d :
  NoDup (Py.dict_keys d) ->
  mapM (fun k => Py.dict_getitem k d) (Py.dict_keys d) = Ok (map snd d).
Proof.
  intros Hd.
  transitivity (mapM (fun k => v ← Py.dict_getitem k d; Ok v)
                     (Py.dict_keys d)).
  - generalize (Py.dict_keys d) as ks.
    induction ks as [|k ks IH]; [done|]. simpl. rewrite IH.
    by destruct (Py.dict_getitem k d).
  - by apply (mapM_getitem_sub (fun v => Ok v) (fun v => v));
      [| |apply Forall_true].
Qed.
End Dict.

(** ** Shapes *)

Lemma rect2_map {A B : Type} (f : A -> B) (d0 d1 : nat) (a : image2 A) :
  rect2 d0 d1 a -> rect2 d0 d1 (map (map f) a).
Proof.
  intros [H0 H1]. split; [by rewrite length_map|].
  apply Forall_fmap. eapply Forall_impl; [done|].
  intros row Hrow. simpl. by rewrite length_map.
Qed.

Lemma rect3_of_rect2 {A : Type} (d0 d1 : nat) (a : image2 A) :
  rect2 d0 d1 a -> rect3 d0 d1 1 (map (map (fun v => [v])) a).
Proof.
  intros [H0 H1]. split; [by rewrite length_map|].
  apply Forall_fmap. eapply Forall_impl; [done|].
  intros row Hrow. simpl. split; [by rewrite length_map|].
  apply Forall_fmap. by apply Forall_true.
Qed.

Lemma rect3_broadcast {A : Type} (f : A -> A -> A) (v : list A)
    (d0 d1 c : nat) (a : image3 A) :
  rect3 d0 d1 c a -> length v = c ->
  rect3 d0 d1 c (map (map (fun px => zip_with f px v)) a).
Proof.
  intros [H0 H1] Hv. split; [by rewrite length_map|].
  apply Forall_fmap. eapply Forall_impl; [done|].
  intros row [Hrow Hpx]. simpl. split; [by rewrite length_map|].
  apply Forall_fmap. eapply Forall_impl; [done|].
  intros px Hlen. simpl in *. rewrite length_zip_with. lia.
Qed.

Lemma rect3_pixels {A : Type} (d0 d1 c : nat) (a : image3 A) :
  rect3 d0 d1 c a -> Forall (fun px => length px = c) (concat a).
Proof.
  intros [_ H1]. apply Forall_concat.
  eapply Forall_impl; [done|]. by intros row [_ ?].
Qed.

Lemma foldl_zip_with_length {A : Type} (f : A -> A -> A) (c : nat)
    (pxs : list (list A)) (px : list A) :
  Forall (fun px => length px = c) pxs -> length px = c ->
  length (foldl (zip_with f) px pxs) = c.
Proof.
  intros Hall. revert px. induction Hall as [|q pxs Hq _ IH]; intros px Hpx.
  - done.
  - simpl. apply IH. rewrite length_zip_with. lia.
Qed.

Lemma reduce_axis01_length (f : F32.t -> F32.t -> F32.t) (name : string)
    (d0 d1 c : nat) (a : image3 F32.t) (v : list F32.t) :
  rect3 d0 d1 c a -> reduce_axis01 f name a = Ok v -> length v = c.
Proof.
  intros Ha%rect3_pixels. unfold reduce_axis01.
  destruct (concat a) as [|px pxs]; [done|].
  apply Forall_cons in Ha as [Hpx Hpxs]. intros [= <-].
  by apply foldl_zip_with_length.
Qed.

Lemma normalize_img_rect (d0 d1 c : nat) (a : raw_image) (img : image3 F32.t) :
  raw_rect d0 d1 c a -> normalize_img a = Ok img -> rect3 d0 d1 c img.
Proof.
  intros Ha. unfold normalize_img.
  set (a3 := with_channel_axis a).
  assert (rect3 d0 d1 c a3) as Ha3.
  { destruct a as [a|a]; simpl in *; [|done].
    destruct Ha as [Ha ->]. by apply rect3_of_rect2. }
  intros (lo & Hlo & (hi & Hhi & [= <-])%bind_Ok)%bind_Ok.
  apply reduce_axis01_length with (d0 := d0) (d1 := d1) (c := c) in Hlo;
    [|done].
  assert (rect3 d0 d1 c (map (map (fun px => zip_with F32.sub px lo)) a3))
    as Hsub by by apply rect3_broadcast.
  apply reduce_axis01_length with (d0 := d0) (d1 := d1) (c := c) in Hhi;
    [|done].
  by apply rect3_broadcast.
Qed.

Lemma window_rect2 {A : Type} (d0 d1 : nat) (c0 c1 size : Z) (a : image2 A) :
  rect2 d0 d1 a ->
  0 <= size -> 0 <= c0 <= Z.of_nat d0 - size -> 0 <= c1 <= Z.of_nat d1 - size ->
  rect2 (Z.to_nat size) (Z.to_nat size) (window c0 c1 size a).
Proof.
  intros [H0 H1] Hsize Hc0 Hc1. unfold window. split.
  - rewrite length_map, slice_length; lia.
  - apply Forall_fmap, slice_Forall. eapply Forall_impl; [done|].
    intros row Hrow. simpl in *. rewrite slice_length; lia.
Qed.

Lemma window_rect3 {A : Type} (d0 d1 c : nat) (c0 c1 size : Z) (a : image3 A) :
  rect3 d0 d1 c a ->
  0 <= size -> 0 <= c0 <= Z.of_nat d0 - size -> 0 <= c1 <= Z.of_nat d1 - size ->
  rect3 (Z.to_nat size) (Z.to_nat size) c (window c0 c1 size a).
Proof.
  intros [H0 H1] Hsize Hc0 Hc1. unfold window. split.
  - rewrite length_map, slice_length; lia.
  - apply Forall_fmap, slice_Forall. eapply Forall_impl; [done|].
    intros row [Hrow Hpx]. simpl. split; [rewrite slice_length; lia|].
    by apply slice_Forall.
Qed.

Lemma zip_with_Forall {A B C : Type} (f : A -> B -> C) (P : A -> Prop)
    (Q : C -> Prop) (l : list A) (k : list B) :
  (forall x y, P x -> Q (f x y)) -> Forall P l -> Forall Q (zip_with f l k).
Proof.
  intros Hf Hl. revert k.
  induction Hl as [|x l Hx _ IH]; intros [|y k]; simpl; constructor; auto.
Qed.

Lemma concat_mask_rect (d0 d1 c : nat) (a : image3 F32.t) (m : image2 bool) :
  rect3 d0 d1 c a -> rect2 d0 d1 m -> rect3 d0 d1 (c + 1) (concat_mask a m).
Proof.
  intros [Ha0 Ha1] [Hm0 Hm1]. unfold concat_mask. split.
  - rewrite length_zip_with. lia.
  - clear Ha0 Hm0. revert m Hm1.
    induction Ha1 as [|row a [Hrow Hpx] _ IH]; intros m Hm1.
    + destruct m; constructor.
    + destruct Hm1 as [|mrow m Hmrow Hm1]; simpl; constructor.
      * split; [rewrite length_zip_with; lia|].
        eapply zip_with_Forall; [|done].
        intros px b Hlen. simpl in *. rewrite length_app. simpl. lia.
      * by apply IH.
Qed.

Lemma rect3_shape3 {A : Type} (d0 d1 c : nat) (a : image3 A) :
  rect3 d0 d1 c a -> (0 < d0)%nat -> (0 < d1)%nat -> shape3 a = [d0; d1; c].
Proof.
  intros [H0 H1] Hd0 Hd1. unfold shape3.
  destruct H1 as [|row a [Hrow Hpx] _]; simpl in *; [lia|].
  destruct Hpx as [|px row Hlen _]; simpl in *; [lia|].
  by rewrite H0, Hrow, Hlen.
Qed.

Lemma rect3_shape3_eq {A : Type} (d0 d1 c : nat) (a b : image3 A) :
  rect3 d0 d1 c a -> rect3 d0 d1 c b -> shape3 a = shape3 b.
Proof.
  intros [Ha0 Ha1] [Hb0 Hb1]. unfold shape3. rewrite Ha0, Hb0. f_equal.
  destruct Ha1 as [|ra a [Hra Hpa] _], Hb1 as [|rb b [Hrb Hpb] _];
    simpl in *; try lia; [done|].
  rewrite Hra, Hrb. f_equal.
  destruct Hpa as [|pa ra Hpa _], Hpb as [|pb rb Hpb _];
    simpl in *; try lia; [done|].
  by rewrite Hpa, Hpb.
Qed.

Lemma length_concat_uniform {A : Type} (c : nat) (l : list (list A)) :
  Forall (fun x => length x = c) l -> length (concat l) = (length l * c)%nat.
Proof.
  induction 1 as [|x l Hx _ IH]; simpl; [done|].
  rewrite length_app, IH. lia.
Qed.

Lemma rect3_numel {A : Type} (d0 d1 c : nat) (a : image3 A) :
  rect3 d0 d1 c a -> numel a = (d0 * d1 * c)%nat.
Proof.
  intros [H0 H1]. unfold numel.
  rewrite (length_concat_uniform c).
  - rewrite (length_concat_uniform d1), H0; [done|].
    eapply Forall_impl; [done|]. by intros row [? _].
  - apply Forall_concat. eapply Forall_impl; [done|]. by intros row [_ ?].
Qed.

(** ** Normalisation *)

Lemma nth_zip_with {A : Type} (f : A -> A -> A) (px v : list A) (c : nat)
    (d : A) :
  (c < length px)%nat -> (c < length v)%nat ->
  nth c (zip_with f px v) d = f (nth c px d) (nth c v d).
Proof.
  revert px v. induction c as [|c IH]; intros [|x px] [|y v]; simpl;
    try lia; [done|].
  intros ? ?. apply IH; lia.
Qed.

Lemma nth_foldl_zip_with {A : Type} (f : A -> A -> A) (c C : nat) (d : A)
    (pxs : list (list A)) (px : list A) :
  Forall (fun q => length q = C) pxs -> length px = C -> (c < C)%nat ->
  nth c (foldl (zip_with f) px pxs) d
  = foldl f (nth c px d) (map (fun q => nth c q d) pxs).
Proof.
  intros Hall. revert px. induction Hall as [|q pxs Hq _ IH]; intros px Hpx Hc;
    [done|].
  simpl. rewrite IH; [|rewrite length_zip_with; lia|done].
  by rewrite nth_zip_with by lia.
Qed.

Lemma concat_map_map {A B : Type} (g : A -> B) (a : list (list A)) :
  concat (map (map g) a) = map g (concat a).
Proof.
  induction a as [|row a IH]; [done|]. simpl. by rewrite map_app, IH.
Qed.

Lemma channel_broadcast (f : F32.t -> F32.t -> F32.t) (v : list F32.t)
    (c d0 d1 C : nat) (a : image3 F32.t) :
  rect3 d0 d1 C a -> length v = C -> (c < C)%nat ->
  channel c (map (map (fun px => zip_with f px v)) a)
  = map (fun x => f x (nth c v F32.zero)) (channel c a).
Proof.
  intros Ha%rect3_pixels Hv Hc. unfold channel.
  rewrite concat_map_map, !map_map.
  induction Ha as [|px pxs Hpx _ IH]; [done|]. simpl.
  rewrite IH. f_equal. apply nth_zip_with; lia.
Qed.

Lemma reduce_axis01_channel (f : F32.t -> F32.t -> F32.t) (name : string)
    (c d0 d1 C : nat) (a : image3 F32.t) (v : list F32.t) :
  rect3 d0 d1 C a -> reduce_axis01 f name a = Ok v -> (c < C)%nat ->
  nth c v F32.zero
  = foldl f (hd F32.zero (channel c a)) (tl (channel c a)).
Proof.
  intros Ha%rect3_pixels Hv Hc. unfold reduce_axis01, channel in *.
  destruct (concat a) as [|px pxs]; [done|]. injection Hv as <-.
  apply Forall_cons in Ha as [Hpx Hpxs]. simpl.
  by apply nth_foldl_zip_with with (C := C).
Qed.

(** Channel by channel, [normalize_img] subtracts the minimum of the
    channel and divides by the maximum of the differences. *)
Lemma normalize_img_channel (d0 d1 C c : nat) (a : raw_image)
    (img : image3 F32.t) :
  raw_rect d0 d1 C a -> normalize_img a = Ok img -> (c < C)%nat ->
  channel c img = normalize_channel (channel c (with_channel_axis a)).
Proof.
  intros Ha Hnorm Hc. unfold normalize_img in Hnorm.
  set (a3 := with_channel_axis a) in *.
  assert (rect3 d0 d1 C a3) as Ha3.
  { destruct a as [a|a]; simpl in *; [|done].
    destruct Ha as [Ha ->]. by apply rect3_of_rect2. }
  apply bind_Ok in Hnorm as (lo & Hlo & Hnorm).
  apply bind_Ok in Hnorm as (hi & Hhi & [= <-]).
  pose proof (reduce_axis01_length _ _ _ _ _ _ _ Ha3 Hlo) as Hlen.
  pose proof (reduce_axis01_channel _ _ c _ _ _ _ _ Ha3 Hlo Hc) as Hlo_c.
  assert (rect3 d0 d1 C (map (map (fun px => zip_with F32.sub px lo)) a3))
    as Hsub by by apply rect3_broadcast.
  pose proof (reduce_axis01_length _ _ _ _ _ _ _ Hsub Hhi) as Hlen'.
  pose proof (reduce_axis01_channel _ _ c _ _ _ _ _ Hsub Hhi Hc) as Hhi_c.
  rewrite (channel_broadcast F32.div hi c d0 d1 C) by done.
  rewrite (channel_broadcast F32.sub lo c d0 d1 C) in Hhi_c |- * by done.
  unfold normalize_channel, shifted, np_max, np_min.
  by rewrite Hhi_c, Hlo_c.
Qed.

(** C8 (as amended). For every channel of a raw image whose float32 values
    are finite and not all equal, and from which subtracting the channel's
    minimum does not overflow, the normalized channel is the channel minus
    its minimum, divided by the maximum of the differences, and it has
    minimum 0 and maximum exactly 1. *)
Theorem normalize_img_range (d0 d1 C c : nat) (a : raw_image)
    (img : image3 F32.t) :
  raw_rect d0 d1 C a -> normalize_img a = Ok img -> (c < C)%nat ->
  Forall fin (channel c (with_channel_axis a)) ->
  (exists x x', x ∈ channel c (with_channel_axis a) /\
                x' ∈ channel c (with_channel_axis a) /\
                SFeqb x x' = false) ->
  Forall (fun y => y <> S754_infinity false)
         (shifted (channel c (with_channel_axis a))) ->
  channel c img = normalize_channel (channel c (with_channel_axis a)) /\
  SFeqb (np_min (channel c img)) F32.zero = true /\
  np_max (channel c img) = F32.one.
Proof.
  intros Ha Hnorm Hc Hfin Hne Hrange.
  rewrite (normalize_img_channel d0 d1 C c a img) by done.
  split; [done|]. by apply channel_range.
Qed.

Lemma corner_raw_rect : raw_rect 3 3 1 corner_raw.
Proof. split; [|reflexivity]. split; [reflexivity | repeat constructor]. Defined.

Lemma corner_normalize : normalize_img corner_raw = Ok corner_img.
Proof. vm_compute. reflexivity. Defined.

Lemma corner_channel_fin : Forall fin (channel 0 (with_channel_axis corner_raw)).
Proof. vm_compute. repeat constructor. Defined.

Lemma corner_channel_differs :
  exists x x', x ∈ channel 0 (with_channel_axis corner_raw) /\
               x' ∈ channel 0 (with_channel_axis corner_raw) /\
               SFeqb x x' = false.
Proof.
  exists (F32.of_Z 1), (F32.of_Z 2). vm_compute. repeat constructor.
Defined.

Lemma corner_channel_range :
  Forall (fun y => y <> S754_infinity false)
         (shifted (channel 0 (with_channel_axis corner_raw))).
Proof. vm_compute. repeat (constructor; [discriminate|]). constructor. Defined.

Lemma normalize_img_range_witness :
  channel 0 corner_img
  = normalize_channel (channel 0 (with_channel_axis corner_raw)) /\
  SFeqb (np_min (channel 0 corner_img)) F32.zero = true /\
  np_max (channel 0 corner_img) = F32.one.
Proof.
  apply (normalize_img_range 3 3 1 0 corner_raw corner_img corner_raw_rect
           corner_normalize).
  - lia.
  - exact corner_channel_fin.
  - exact corner_channel_differs.
  - exact corner_channel_range.
Defined.

(** Without the restriction the property fails: on the pixels
    [3.4028235e38] and [-3.4028235e38] the difference overflows to
    infinity, and the normalized channel holds a NaN. *)
Lemma normalize_overflow_counterexample :
  exists img,
    normalize_img overflow_raw = Ok img /\
    Forall fin (channel 0 (with_channel_axis overflow_raw)) /\
    SFeqb f32_max (SFopp f32_max) = false /\
    np_min (channel 0 img) = S754_nan /\
    np_max (channel 0 img) = S754_nan /\
    ~ (SFeqb (np_min (channel 0 img)) F32.zero = true /\
       np_max (channel 0 img) = F32.one).
Proof.
  exists [[[S754_nan]; [S754_zero false]]].
  split; [vm_compute; reflexivity|].
  split; [vm_compute; repeat constructor|].
  split; [reflexivity|]. split; [reflexivity|]. split; [reflexivity|].
  intros [_ Hmax]. vm_compute in Hmax. discriminate.
Qed.

(** ** Construction *)

Section Construction.
Variables (img : image3 F32.t) (marker : image2 Z)
          (label : option (image2 Z)) (crop : Z).

(** What one turn of the loop stores for the marker value [ind]. *)
Lemma make_patch_Ok (ind : Z) (p : patch) :
  make_patch img marker label crop ind = Ok p ->
  exists c0 c1,
    center_of_mass_as_int (eq_mask marker ind) = Ok (c0, c1) /\
    let w0 := Py.sorted3_mid 0 (c0 - crop / 2)
                (Z.of_nat (length marker) - crop) in
    let w1 := Py.sorted3_mid 0 (c1 - crop / 2)
                (Z.of_nat (length (hd [] marker)) - crop) in
    patch_coord p = (w0, w1) /\
    patch_data p = concat_mask (window w0 w1 crop img)
                     (eq_mask (window w0 w1 crop marker) ind) /\
    patch_label p =
      (fun l => map (map Z.b2z) (eq_mask (window w0 w1 crop l) ind))
        <$> label.
Proof.
  unfold make_patch. intros ([c0 c1] & Hc & Hp)%bind_Ok.
  exists c0, c1. split; [done|].
  destruct label as [l|]; simpl in *; injection Hp as <-; done.
Qed.

Lemma create_patches_loop_entries (indices : list Z) (ps0 ps : Py.dict patch) :
  create_patches_loop img marker label crop indices ps0 = Ok ps ->
  (forall k p, (k, p) ∈ ps0 -> make_patch img marker label crop k = Ok p) ->
  forall k p, (k, p) ∈ ps -> make_patch img marker label crop k = Ok p.
Proof.
  revert ps0. induction indices as [|ind indices IH]; intros ps0; simpl.
  - by intros [= <-].
  - intros (q & Hq & Hloop)%bind_Ok Hps0. apply (IH _ Hloop).
    intros k p [[= -> ->]|Hin]%dict_set_elem; [done | by apply Hps0].
Qed.

Lemma create_patches_loop_NoDup (indices : list Z) (ps0 ps : Py.dict patch) :
  create_patches_loop img marker label crop indices ps0 = Ok ps ->
  NoDup (Py.dict_keys ps0) -> NoDup (Py.dict_keys ps).
Proof.
  revert ps0. induction indices as [|ind indices IH]; intros ps0; simpl.
  - by intros [= <-].
  - intros (q & Hq & Hloop)%bind_Ok Hps0. apply (IH _ Hloop).
    by apply dict_set_keys_NoDup.
Qed.

Lemma create_patches_loop_keys (indices : list Z) (ps0 ps : Py.dict patch) :
  create_patches_loop img marker label crop indices ps0 = Ok ps ->
  NoDup indices -> (forall k, k ∈ indices -> k ∉ Py.dict_keys ps0) ->
  Py.dict_keys ps = Py.dict_keys ps0 ++ indices.
Proof.
  revert ps0. induction indices as [|ind indices IH]; intros ps0; simpl.
  - intros [= <-] _ _. by rewrite app_nil_r.
  - intros (q & Hq & Hloop)%bind_Ok [Hind Hnd]%NoDup_cons Hfresh.
    rewrite (IH _ Hloop Hnd).
    + rewrite dict_set_keys_new by (apply Hfresh; by left).
      by rewrite <- app_assoc.
    + intros k Hk [->|Hin]%dict_set_keys_elem; [done|].
      apply (Hfresh k); [by right | done].
Qed.

Lemma create_patches_entries (ps : Py.dict patch) :
  create_patches img marker label crop = Ok ps ->
  forall k p, (k, p) ∈ ps -> make_patch img marker label crop k = Ok p.
Proof.
  intros Hps. apply (create_patches_loop_entries _ _ _ Hps).
  by intros k p ?%elem_of_nil.
Qed.

Lemma create_patches_NoDup (ps : Py.dict patch) :
  create_patches img marker label crop = Ok ps -> NoDup (Py.dict_keys ps).
Proof.
  intros Hps. apply (create_patches_loop_NoDup _ _ _ Hps). constructor.
Qed.
End Construction.

Lemma init_Ok (data_img : raw_image) (marker : image2 Z)
    (label : option (image2 Z)) (crop : Z) (ds : Dataset) :
  init data_img marker label crop = Ok ds ->
  shape_mismatch data_img marker label = false /\
  exists img ps,
    normalize_img data_img = Ok img /\
    create_patches img marker label crop = Ok ps /\
    ds = mkDataset img marker label crop ps.
Proof.
  unfold init. destruct (shape_mismatch _ _ _); [done|].
  intros (img & Himg & (ps & Hps & [= <-])%bind_Ok)%bind_Ok.
  split; [done|]. by exists img, ps.
Qed.

(** The shape test compares whole [shape] tuples, so it passes on a
    two-dimensional raw image only. *)
Lemma shape_mismatch_false (data_img : raw_image) (marker : image2 Z)
    (label : option (image2 Z)) :
  shape_mismatch data_img marker label = false ->
  exists a, data_img = Raw2 a /\ shape2 a = shape2 marker /\
            forall l, label = Some l -> shape2 l = shape2 marker.
Proof.
  unfold shape_mismatch.
  intros [Hm Hl]%orb_false_iff. apply negb_false_iff, bool_decide_eq_true in Hm.
  destruct data_img as [a|a]; [|done]. exists a. simpl in *.
  split; [done|]. split; [done|].
  intros l ->. apply negb_false_iff, bool_decide_eq_true in Hl. congruence.
Qed.

Lemma shape_mismatch_raw3 (a : image3 F32.t) (marker : image2 Z)
    (label : option (image2 Z)) :
  shape_mismatch (Raw3 a) marker label = true.
Proof.
  destruct (shape_mismatch _ _ _) eqn:H; [done|].
  by apply shape_mismatch_false in H as (? & ? & _).
Qed.

Lemma wf2_shape {A : Type} (a : image2 A) (d0 d1 : nat) :
  wf2 a -> shape2 a = [d0; d1] -> rect2 d0 d1 a.
Proof. unfold wf2, shape2. by intros H [= <- <-]. Qed.

(** A failed shape test is the [ValueError] of the constructor; no object is
    built. *)
Lemma init_mismatch_raises (data_img : raw_image) (marker : image2 Z)
    (label : option (image2 Z)) (crop : Z) :
  shape_mismatch data_img marker label = true ->
  init data_img marker label crop
  = Raise (ValueError "Image size not match each other").
Proof. unfold init. by intros ->. Qed.

(** Every raw image with a channel axis fails the shape test, whatever the
    marker image. *)
Lemma init_raw3_raises (a : image3 F32.t) (marker : image2 Z)
    (label : option (image2 Z)) (crop : Z) :
  init (Raw3 a) marker label crop
  = Raise (ValueError "Image size not match each other").
Proof. unfold init. by rewrite shape_mismatch_raw3. Qed.

(** C4. A three-channel raw image and a marker image of the same height and
    width: the constructor raises the [ValueError] of the shape test,
    although the normalization it would go on with accepts the image. *)
Theorem init_raises_on_channel_axis :
  take 2 (raw_shape rgb_raw) = shape2 rgb_marker /\
  is_ok (normalize_img rgb_raw) = true /\
  init rgb_raw rgb_marker None 1
  = Raise (ValueError "Image size not match each other").
Proof.
  split; [reflexivity|]. split; [vm_compute; reflexivity|].
  apply init_raw3_raises.
Qed.

(** Every stored record is what [make_patch] computes for its key, and no
    key occurs twice. *)
Lemma init_patch_set (data_img : raw_image) (marker : image2 Z)
    (label : option (image2 Z)) (crop : Z) (ds : Dataset) :
  init data_img marker label crop = Ok ds ->
  marker_img ds = marker /\ label_img ds = label /\ crop_size ds = crop /\
  normalize_img data_img = Ok (img ds) /\
  NoDup (Py.dict_keys (patch_set ds)) /\
  forall k p, (k, p) ∈ patch_set ds ->
              make_patch (img ds) marker label crop k = Ok p.
Proof.
  intros (_ & im & ps & Him & Hps & ->)%init_Ok. simpl.
  repeat split; try done.
  - by eapply create_patches_NoDup.
  - by eapply create_patches_entries.
Qed.

(** The shape of the data tensor of a record, when the window fits. *)
Lemma init_patch_rect (data_img : raw_image) (marker : image2 Z)
    (label : option (image2 Z)) (crop : Z) (ds : Dataset) :
  wf_raw data_img -> wf2 marker ->
  init data_img marker label crop = Ok ds ->
  0 <= crop ->
  crop <= Z.min (Z.of_nat (length marker)) (Z.of_nat (length (hd [] marker))) ->
  forall k p, (k, p) ∈ patch_set ds ->
    rect3 (Z.to_nat crop) (Z.to_nat crop) (channels data_img + 1)
          (patch_data p).
Proof.
  intros Hraw Hmarker Hinit Hcrop Hmin k p Hin.
  pose proof Hinit as (Hmis & _)%init_Ok.
  apply shape_mismatch_false in Hmis as (a & -> & Hshape & _).
  apply init_patch_set in Hinit as (_ & _ & _ & Himg & _ & Hps).
  apply Hps in Hin as (c0 & c1 & _ & _ & -> & _)%make_patch_Ok.
  simpl in Hraw. simpl channels.
  assert (rect2 (length marker) (length (hd [] marker)) a) as Ha
    by by apply wf2_shape.
  apply (normalize_img_rect (length marker) (length (hd [] marker)) 1)
    in Himg; [|done].
  apply concat_mask_rect.
  - eapply window_rect3; [done|lia|apply sorted3_mid_range; lia..].
  - apply rect2_map.
    eapply window_rect2; [done|lia|apply sorted3_mid_range; lia..].
Qed.

(** C1. For every valid construction (well-formed images of one spatial
    shape, [0 <= crop_size <= min(H, W)]), the data tensor of every stored
    record has [crop_size] rows of [crop_size] pixels of [C + 1] channels,
    hence [crop_size * crop_size * (C + 1)] elements, wherever the object
    lies. *)
Theorem patch_data_shape (data_img : raw_image) (marker : image2 Z)
    (label : option (image2 Z)) (crop : Z) (ds : Dataset) :
  wf_raw data_img -> wf2 marker ->
  init data_img marker label crop = Ok ds ->
  0 <= crop ->
  crop <= Z.min (Z.of_nat (length marker)) (Z.of_nat (length (hd [] marker))) ->
  forall k p, (k, p) ∈ patch_set ds ->
    rect3 (Z.to_nat crop) (Z.to_nat crop) (channels data_img + 1)
          (patch_data p) /\
    numel (patch_data p)
    = (Z.to_nat crop * Z.to_nat crop * (channels data_img + 1))%nat /\
    (0 < crop ->
     shape3 (patch_data p)
     = [Z.to_nat crop; Z.to_nat crop; (channels data_img + 1)%nat]).
Proof.
  intros Hraw Hmarker Hinit Hcrop Hmin k p Hin.
  pose proof (init_patch_rect _ _ _ _ _ Hraw Hmarker Hinit Hcrop Hmin k p Hin)
    as Hrect.
  split; [done|]. split; [by apply rect3_numel|].
  intros Hpos. apply rect3_shape3; [done|lia..].
Qed.


(** The 3 x 3 example: both objects touch the border. *)
Lemma corner_init : init corner_raw corner_marker None 2 = Ok corner_ds.
Proof. vm_compute. reflexivity. Defined.

Lemma corner_wf_raw : wf_raw corner_raw.
Proof. split; [reflexivity | repeat constructor]. Defined.

Lemma corner_wf_marker : wf2 corner_marker.
Proof. split; [reflexivity | repeat constructor]. Defined.

Lemma corner_record_2 : (2, record_of 2 corner_ds) ∈ patch_set corner_ds.
Proof. vm_compute. apply list_elem_of_further, list_elem_of_here. Defined.

Lemma patch_data_shape_witness :
  rect3 2 2 2 (patch_data (record_of 2 corner_ds)) /\
  numel (patch_data (record_of 2 corner_ds)) = 8%nat /\
  (0 < 2 -> shape3 (patch_data (record_of 2 corner_ds)) = [2; 2; 2]%nat).
Proof.
  apply (patch_data_shape corner_raw corner_marker None 2 corner_ds
           corner_wf_raw corner_wf_marker corner_init)
    with (k := 2).
  - lia.
  - simpl. lia.
  - exact corner_record_2.
Defined.


(** ** Enumeration *)

Lemma generator_Ok (data_img : raw_image) (marker : image2 Z)
    (label : option (image2 Z)) (crop : Z) (ds : Dataset) :
  init data_img marker label crop = Ok ds ->
  generator ds = Ok (map snd (patch_set ds)).
Proof.
  intros (_ & _ & _ & _ & Hnd & _)%init_patch_set.
  by apply mapM_getitem_keys.
Qed.

Lemma init_labelled_records (data_img : raw_image) (marker l : image2 Z)
    (crop : Z) (ds : Dataset) :
  init data_img marker (Some l) crop = Ok ds ->
  Forall (fun kp => exists c, kp.2 = Patch3 c (data_label kp.2).1
                                           (data_label kp.2).2)
         (patch_set ds).
Proof.
  intros (_ & _ & _ & _ & _ & Hps)%init_patch_set.
  apply Forall_forall. intros [k p] Hin.
  apply Hps in Hin as (c0 & c1 & _ & _ & _ & Hlab)%make_patch_Ok.
  destruct p as [c d|c d lab]; [done|]. by exists c.
Qed.


Lemma corner_labelled_init :
  init corner_raw corner_marker (Some corner_label) 2 = Ok corner_labelled_ds.
Proof. vm_compute. reflexivity. Defined.


(** ** Local-area sampling *)

Lemma is_within_in_area (c : Z * Z) (a0 a1 area_size : Z) :
  is_within c (a0, a1, area_size, area_size) = true
  <-> in_area a0 a1 area_size c.
Proof.
  unfold is_within, in_area.
  rewrite !andb_true_iff, !Z.leb_le, !Z.ltb_lt. tauto.
Qed.

Lemma filter_within_sub (d d' : Py.dict patch) (a0 a1 area_size : Z) :
  NoDup (Py.dict_keys d) -> d' ⊆ d ->
  filter_within d (a0, a1, area_size, area_size) (map fst d')
  = Ok (map fst (filter (fun kp => in_area a0 a1 area_size (patch_coord kp.2))
                        d')).
Proof.
  intros Hd. induction d' as [|[k p] d' IH]; intros Hsub; [done|].
  rewrite filter_cons. cbn [map fst filter_within].
  rewrite (dict_getitem_elem d k p); [|done|apply Hsub; by left].
  cbn [mbind result_bind].
  rewrite IH by (intros kv Hkv; apply Hsub; by right).
  cbn [mbind result_bind snd].
  destruct (is_within _ _) eqn:Hw; case_decide as Hin; try done.
  - by apply is_within_in_area in Hw.
  - apply is_within_in_area in Hin. congruence.
Qed.

Lemma tf_stack_Ok (values data : list (image3 F32.t)) :
  tf_stack values = Ok data -> data = values.
Proof.
  unfold tf_stack. destruct values as [|v vs]; [by intros [= <-]|].
  destruct (forallb _ _); [by intros [= <-] | done].
Qed.

Lemma relative_coords_Ok (coords rel : list (Z * Z)) (a0 a1 : Z) :
  relative_coords coords a0 a1 = Ok rel ->
  rel = map (fun c => (c.1 - a0, c.2 - a1)) coords.
Proof. destruct coords; [done | by intros [= <-]]. Qed.

Lemma length_filter_map {A B : Type} (P : B -> Prop) `{!forall y, Decision (P y)}
    (f : A -> B) (l : list A) :
  length (filter P (map f l)) = length (filter (fun x => P (f x)) l).
Proof.
  induction l as [|x l IH]; [done|]. simpl.
  rewrite !filter_cons. case_decide; simpl; by rewrite IH.
Qed.

Section WithinArea.
Context {G : Type} `{RandomSourceOk G}.

(** What one turn of the loop does once the anchor is drawn. *)
Lemma within_area_draw_anchor (self : Dataset) (area_size : Z) (rng g0 g1 : G)
    (a0 a1 : Z) :
  NoDup (Py.dict_keys (patch_set self)) ->
  rng_integers rng (Z.of_nat (length (marker_img self)) - area_size
                    - crop_size self) = Ok (a0, g0) ->
  rng_integers g0 (Z.of_nat (length (hd [] (marker_img self))) - area_size
                   - crop_size self) = Ok (a1, g1) ->
  let selected :=
    filter (fun kp => in_area a0 a1 area_size (patch_coord kp.2))
           (patch_set self) in
  within_area_draw self area_size rng =
    (data ← tf_stack (map (fun kp => patch_data kp.2) selected);
     coords ← relative_coords (map (fun kp => patch_coord kp.2) selected) a0 a1;
     Ok ((data, coords), g1)).
Proof.
  intros Hnd Ha0 Ha1 sel. unfold within_area_draw.
  rewrite Ha0. cbn [mbind result_bind]. rewrite Ha1. cbn [mbind result_bind].
  unfold Py.dict_keys at 1.
  rewrite (filter_within_sub _ _ a0 a1 area_size Hnd) by done.
  cbn [mbind result_bind]. fold sel.
  assert (sel ⊆ patch_set self) as Hsub.
  { intros kp Hkp. by apply list_elem_of_filter in Hkp as [_ ?]. }
  rewrite (mapM_getitem_sub (fun p => Ok (patch_coord p)) patch_coord);
    [|done|done|by apply Forall_true].
  cbn [mbind result_bind].
  rewrite (mapM_getitem_sub (fun p => Ok (patch_data p)) patch_data);
    [|done|done|by apply Forall_true].
  done.
Qed.

(** With no stored coordinate in the drawn rectangle the turn raises: the
    empty coordinate array does not broadcast against the anchor. *)
Lemma within_area_draw_empty (self : Dataset) (area_size : Z) (rng g0 g1 : G)
    (a0 a1 : Z) :
  NoDup (Py.dict_keys (patch_set self)) ->
  rng_integers rng (Z.of_nat (length (marker_img self)) - area_size
                    - crop_size self) = Ok (a0, g0) ->
  rng_integers g0 (Z.of_nat (length (hd [] (marker_img self))) - area_size
                   - crop_size self) = Ok (a1, g1) ->
  filter (fun kp => in_area a0 a1 area_size (patch_coord kp.2))
         (patch_set self) = [] ->
  within_area_draw self area_size rng
  = Raise (ValueError
      "operands could not be broadcast together with shapes (0,) (2,) ").
Proof.
  intros Hnd Ha0 Ha1 Hsel.
  rewrite (within_area_draw_anchor _ _ _ _ _ _ _ Hnd Ha0 Ha1).
  by rewrite Hsel.
Qed.

Lemma within_area_draw_inv (self : Dataset) (area_size : Z) (rng rng' : G)
    (x : sample) :
  NoDup (Py.dict_keys (patch_set self)) ->
  within_area_draw self area_size rng = Ok (x, rng') ->
  exists a0 a1 g0,
    rng_integers rng (Z.of_nat (length (marker_img self)) - area_size
                      - crop_size self) = Ok (a0, g0) /\
    rng_integers g0 (Z.of_nat (length (hd [] (marker_img self))) - area_size
                     - crop_size self) = Ok (a1, rng') /\
    let selected :=
      filter (fun kp => in_area a0 a1 area_size (patch_coord kp.2))
             (patch_set self) in
    selected <> [] /\
    x = (map (fun kp => patch_data kp.2) selected,
         map (fun kp => ((patch_coord kp.2).1 - a0, (patch_coord kp.2).2 - a1))
             selected).
Proof.
  intros Hnd Hdraw. pose proof Hdraw as Hdraw'. unfold within_area_draw in Hdraw'.
  apply bind_Ok in Hdraw' as ([a0 g0] & Ha0 & Hdraw'). simpl in Hdraw'.
  apply bind_Ok in Hdraw' as ([a1 g1] & Ha1 & _).
  rewrite (within_area_draw_anchor _ _ _ _ _ _ _ Hnd Ha0 Ha1) in Hdraw.
  apply bind_Ok in Hdraw as (data & ->%tf_stack_Ok & Hdraw).
  apply bind_Ok in Hdraw as (rel & Hrel & [= <- <-]).
  exists a0, a1, g0. split; [done|]. split; [done|]. simpl. split.
  - intros Hsel. by rewrite Hsel in Hrel.
  - apply relative_coords_Ok in Hrel as ->. by rewrite map_map.
Qed.

(** No element of the sequence is an empty stack. *)
Lemma within_area_draw_nonempty (self : Dataset) (area_size : Z)
    (rng rng' : G) (x : sample) :
  NoDup (Py.dict_keys (patch_set self)) ->
  within_area_draw self area_size rng = Ok (x, rng') ->
  x.1 <> [] /\ x.2 <> [].
Proof.
  intros Hnd (a0 & a1 & g0 & _ & _ & Hsel & ->)%within_area_draw_inv; [|done].
  simpl. destruct (filter _ _); [done|]. done.
Qed.

(** Whatever one turn of the loop yields is a sample as specified. *)
Lemma within_area_draw_ok (self : Dataset) (area_size : Z) (rng rng' : G)
    (x : sample) :
  NoDup (Py.dict_keys (patch_set self)) ->
  within_area_draw self area_size rng = Ok (x, rng') ->
  draw_ok self area_size x.
Proof.
  intros Hnd (a0 & a1 & g0 & Ha0 & Ha1 & _ & ->)%within_area_draw_inv; [|done].
  apply rng_integers_range in Ha0, Ha1.
  exists a0, a1. split; [done|]. split; [done|]. simpl.
  split; [done|]. split; [done|]. split.
  - rewrite length_map. by rewrite length_filter_map.
  - apply Forall_fmap, Forall_forall.
    intros [k p] [Hin _]%list_elem_of_filter. unfold in_area in Hin.
    simpl in *. lia.
Qed.

Lemma tf_stack_same_shape (d0 d1 c : nat) (values : list (image3 F32.t)) :
  Forall (rect3 d0 d1 c) values -> tf_stack values = Ok values.
Proof.
  intros Hall. unfold tf_stack. destruct Hall as [|v vs Hv Hvs]; [done|].
  replace (forallb _ vs) with true; [done|].
  symmetry. induction Hvs as [|w vs Hw _ IH]; [done|]. simpl.
  rewrite IH, andb_true_r. apply bool_decide_eq_true.
  by apply (rect3_shape3_eq d0 d1 c).
Qed.

(** On a valid construction and with room for the area, a turn of the loop
    yields the selected records when there are any, and raises when there
    are none. *)
Lemma within_area_draw_defined (data_img : raw_image) (marker : image2 Z)
    (label : option (image2 Z)) (crop : Z) (ds : Dataset) (area_size : Z)
    (rng : G) :
  wf_raw data_img -> wf2 marker ->
  init data_img marker label crop = Ok ds ->
  0 <= crop ->
  crop <= Z.min (Z.of_nat (length marker)) (Z.of_nat (length (hd [] marker))) ->
  0 < Z.of_nat (length marker) - area_size - crop ->
  0 < Z.of_nat (length (hd [] marker)) - area_size - crop ->
  exists a0 a1 g1,
    let selected :=
      filter (fun kp => in_area a0 a1 area_size (patch_coord kp.2))
             (patch_set ds) in
    within_area_draw ds area_size rng =
      match selected with
      | [] => Raise (ValueError
          "operands could not be broadcast together with shapes (0,) (2,) ")
      | _ =>
          Ok ((map (fun kp => patch_data kp.2) selected,
               map (fun kp => ((patch_coord kp.2).1 - a0,
                               (patch_coord kp.2).2 - a1)) selected), g1)
      end.
Proof.
  intros Hraw Hmarker Hinit Hcrop Hmin Hh0 Hh1.
  pose proof (init_patch_set _ _ _ _ _ Hinit)
    as (Hm & _ & Hc & _ & Hnd & _).
  pose proof (rng_integers_pos rng _ Hh0) as Hok0.
  destruct (rng_integers rng _) as [[a0 g0]|e0] eqn:Ha0; [|done].
  pose proof (rng_integers_pos g0 _ Hh1) as Hok1.
  destruct (rng_integers g0 _) as [[a1 g1]|e1] eqn:Ha1; [|done].
  exists a0, a1, g1. intros sel.
  rewrite <- Hm, <- Hc in Ha0, Ha1.
  rewrite (within_area_draw_anchor _ _ _ _ _ _ _ Hnd Ha0 Ha1). fold sel.
  destruct sel as [|kp sel'] eqn:Hsel; [done|].
  rewrite (tf_stack_same_shape (Z.to_nat crop) (Z.to_nat crop)
             (channels data_img + 1)).
  - cbn [mbind result_bind relative_coords map]. by rewrite map_map.
  - apply Forall_fmap, Forall_forall. intros [k p] Hin. simpl.
    eapply (init_patch_rect data_img marker label crop ds); try done.
    assert ((k, p) ∈ filter (fun kp => in_area a0 a1 area_size
                                         (patch_coord kp.2)) (patch_set ds))
      as Hin' by (fold sel; by rewrite Hsel).
    by apply list_elem_of_filter in Hin' as [_ ?].
Qed.

Lemma generator_within_area_ok (n : nat) (self : Dataset) (area_size : Z)
    (rng rng' : G) (xs : list sample) :
  NoDup (Py.dict_keys (patch_set self)) ->
  generator_within_area n self area_size rng = Ok (xs, rng') ->
  length xs = n /\ Forall (draw_ok self area_size) xs.
Proof.
  intros Hnd. revert rng xs. induction n as [|n IH]; intros rng xs; simpl.
  - by intros [= <- <-].
  - intros ([x g0] & Hx & Hrest)%bind_Ok. simpl in Hrest.
    apply bind_Ok in Hrest as ([xs' g1] & Hxs' & [= <- <-]).
    apply IH in Hxs' as [Hlen Hall].
    apply within_area_draw_ok in Hx; [|done].
    split; [simpl; by rewrite Hlen | by constructor].
Qed.
End WithinArea.


(** C6. Every element of the local-area sequence is a sample as specified:
    the anchor lies in [[0, H - area_size - crop_size)] x
    [[0, W - area_size - crop_size)], the stacked data tensors and the
    coordinates are those of exactly the records whose coordinate lies in the
    half-open rectangle of side [area_size] at the anchor, in their iteration
    order, and every relative coordinate lies in [[0, area_size)] on both
    axes. *)
Theorem generator_within_area_spec {G : Type} `{RandomSourceOk G}
    (data_img : raw_image) (marker : image2 Z) (label : option (image2 Z))
    (crop : Z) (ds : Dataset) (area_size : Z) (n : nat) (rng rng' : G)
    (xs : list sample) :
  init data_img marker label crop = Ok ds ->
  generator_within_area n ds area_size rng = Ok (xs, rng') ->
  length xs = n /\ Forall (draw_ok ds area_size) xs.
Proof.
  intros (_ & _ & _ & _ & Hnd & _)%init_patch_set Hxs.
  by eapply generator_within_area_ok.
Qed.

Lemma counter_rng_ok : RandomSourceOk counter_rng.
Proof.
  split; unfold rng_integers, counter_integers.
  - intros g g' high v. destruct (Z.leb_spec high 0); [done|].
    intros [= <- _]. by apply Z.mod_pos_bound.
  - intros g high Hpos. destruct (Z.leb_spec high 0); [lia | done].
  - intros g high Hle. destruct (Z.leb_spec high 0); [by eexists | lia].
Defined.

Lemma area_init : init area_raw area_marker None 2 = Ok area_ds.
Proof. vm_compute. reflexivity. Defined.

Lemma area_draws_eq :
  generator_within_area 2 area_ds 4 (0%nat : counter_rng)
  = Ok (area_draws.1, area_draws.2).
Proof. vm_compute. reflexivity. Defined.

Lemma generator_within_area_spec_witness :
  length area_draws.1 = 2%nat /\ Forall (draw_ok area_ds 4) area_draws.1.
Proof.
  exact (generator_within_area_spec (H0 := counter_rng_ok)
           area_raw area_marker None 2 area_ds 4 2 0%nat area_draws.2
           area_draws.1 area_init area_draws_eq).
Defined.

(** C7. With the only object in the bottom-right corner no stored
    coordinate lies in the drawn area, and the turn raises instead of
    yielding an empty stack. *)
Theorem within_area_draw_raises_on_empty :
  init area_raw far_marker None 2 = Ok far_ds /\
  within_area_draw far_ds 4 (0%nat : counter_rng)
  = Raise (ValueError
      "operands could not be broadcast together with shapes (0,) (2,) ").
Proof. split; vm_compute; reflexivity. Qed.

(** ** The object identities *)

Lemma insert_unique_elem (x y : Z) (l : list Z) :
  y ∈ Py.insert_unique x l <-> y = x \/ y ∈ l.
Proof.
  induction l as [|z l IH]; simpl.
  - rewrite list_elem_of_singleton, elem_of_nil. tauto.
  - destruct (Z.ltb_spec x z); [by rewrite elem_of_cons|].
    destruct (Z.eqb_spec x z) as [->|Hne].
    + rewrite elem_of_cons. tauto.
    + rewrite !elem_of_cons, IH. tauto.
Qed.

Lemma insert_unique_sorted (x : Z) (l : list Z) :
  StronglySorted Z.lt l -> StronglySorted Z.lt (Py.insert_unique x l).
Proof.
  induction 1 as [|z l Hl IH Hz]; simpl.
  - repeat constructor.
  - destruct (Z.ltb_spec x z).
    + constructor; [by constructor|]. constructor; [done|].
      eapply Forall_impl; [done|]. intros; simpl in *; lia.
    + destruct (Z.eqb_spec x z) as [->|Hne]; [by constructor|].
      constructor; [done|]. apply Forall_forall.
      intros y [->|Hy]%insert_unique_elem; [lia|].
      by eapply Forall_forall in Hz.
Qed.

Lemma unique_elem (a : list (list Z)) (x : Z) :
  x ∈ Py.unique a <-> x ∈ concat a.
Proof.
  unfold Py.unique. induction (concat a) as [|y l IH]; simpl; [done|].
  rewrite insert_unique_elem, elem_of_cons, IH. tauto.
Qed.

Lemma unique_sorted (a : list (list Z)) : StronglySorted Z.lt (Py.unique a).
Proof.
  unfold Py.unique. induction (concat a) as [|y l IH]; simpl.
  - constructor.
  - by apply insert_unique_sorted.
Qed.

Lemma sorted_lt_NoDup (l : list Z) : StronglySorted Z.lt l -> NoDup l.
Proof.
  induction 1 as [|z l Hl IH Hz]; constructor; [|done].
  intros Hin. eapply Forall_forall in Hz; [|done]. lia.
Qed.

(** The keys of the stored records, in order: the sorted distinct marker
    values without the first. *)
Lemma init_keys (data_img : raw_image) (marker : image2 Z)
    (label : option (image2 Z)) (crop : Z) (ds : Dataset) :
  init data_img marker label crop = Ok ds ->
  Py.dict_keys (patch_set ds) = drop 1 (Py.unique marker).
Proof.
  intros (_ & img & ps & _ & Hps & ->)%init_Ok. simpl.
  unfold create_patches in Hps.
  apply create_patches_loop_keys in Hps; [done| |].
  - pose proof (sorted_lt_NoDup _ (unique_sorted marker)) as Hnd.
    destruct (Py.unique marker); [done|]. simpl. rewrite drop_0.
    by apply NoDup_cons in Hnd as [_ ?].
  - intros k _ ?%elem_of_nil. done.
Qed.

(** When the marker image has a background pixel and no negative value, the
    dropped value is [0] and the keys are the positive marker values. *)
Lemma init_keys_positive (data_img : raw_image) (marker : image2 Z)
    (label : option (image2 Z)) (crop : Z) (ds : Dataset) :
  init data_img marker label crop = Ok ds ->
  0 ∈ concat marker -> Forall (Z.le 0) (concat marker) ->
  forall k, k ∈ Py.dict_keys (patch_set ds) <-> 0 < k /\ k ∈ concat marker.
Proof.
  intros Hinit H0 Hnonneg k. rewrite (init_keys _ _ _ _ _ Hinit).
  rewrite <- (unique_elem marker k).
  apply unique_elem in H0.
  assert (Forall (Z.le 0) (Py.unique marker)) as Hall.
  { apply Forall_forall. intros y Hy%unique_elem.
    by eapply Forall_forall in Hnonneg. }
  pose proof (unique_sorted marker) as Hs.
  destruct (Py.unique marker) as [|z l]; [by apply elem_of_nil in H0|].
  simpl. rewrite drop_0.
  apply StronglySorted_cons in Hs as [Hz _].
  apply Forall_cons in Hall as [Hz0 Hall].
  assert (z = 0) as ->.
  { apply elem_of_cons in H0 as [->|H0]; [done|].
    eapply Forall_forall in Hz; [|done]. lia. }
  rewrite elem_of_cons. split.
  - intros Hk. split; [|by right]. by eapply Forall_forall in Hz.
  - intros [Hpos [->|Hk]]; [lia | done].
Qed.

(** C2. On a marker image without a background pixel the first of the
    sorted distinct values is an object identity, and it is dropped: of the
    two objects [1] and [2] filling the 2 x 2 image only [2] gets a record. *)
Theorem keys_drop_smallest_value :
  init full_raw full_marker None 1 = Ok full_ds /\
  Py.dict_keys (patch_set full_ds) = [2] /\
  (0 < 1 /\ 1 ∈ concat full_marker) /\
  1 ∉ Py.dict_keys (patch_set full_ds).
Proof.
  split; [vm_compute; reflexivity|].
  split; [vm_compute; reflexivity|].
  split.
  - split; [lia|]. vm_compute. apply list_elem_of_here.
  - replace (Py.dict_keys (patch_set full_ds)) with [2]
      by (vm_compute; reflexivity).
    rewrite list_elem_of_singleton. lia.
Qed.

(** ** The crop size is not checked *)

Lemma slice_length_bound {A : Type} (l : list A) (c size : Z) :
  0 <= size ->
  (length (Py.slice c (c + size) l) <= Z.to_nat size)%nat.
Proof.
  intros Hsize. unfold Py.slice, Py.slice_index.
  rewrite length_take. etrans; [apply Nat.le_min_l|].
  destruct (Z.ltb_spec c 0), (Z.ltb_spec (c + size) 0); lia.
Qed.

Lemma numel_bound {A : Type} (r c k : nat) (a : image3 A) :
  (length a <= r)%nat ->
  Forall (fun row => (length row <= c)%nat /\
                     Forall (fun px => length px = k) row) a ->
  (numel a <= r * c * k)%nat.
Proof.
  intros Hr Ha. unfold numel.
  rewrite (length_concat_uniform k).
  - assert (length (concat a) <= length a * c)%nat as Hc.
    { clear Hr. induction Ha as [|row a [Hrow _] _ IH]; simpl; [lia|].
      rewrite length_app. lia. }
    apply Nat.mul_le_mono_r. etrans; [exact Hc|].
    by apply Nat.mul_le_mono_r.
  - apply Forall_concat. eapply Forall_impl; [done|]. by intros row [_ ?].
Qed.

(** With a crop size above the height or the width the window is cut at the
    border of the image, and every data tensor has fewer elements than
    [crop_size * crop_size * (C + 1)]. *)
Lemma init_patch_truncated (data_img : raw_image) (marker : image2 Z)
    (label : option (image2 Z)) (crop : Z) (ds : Dataset) :
  wf_raw data_img -> wf2 marker ->
  init data_img marker label crop = Ok ds ->
  Z.min (Z.of_nat (length marker)) (Z.of_nat (length (hd [] marker))) < crop ->
  forall k p, (k, p) ∈ patch_set ds ->
    (numel (patch_data p)
     < Z.to_nat crop * Z.to_nat crop * (channels data_img + 1))%nat.
Proof.
  intros Hraw Hmarker Hinit Hmin k p Hin.
  pose proof Hinit as (Hmis & _)%init_Ok.
  apply shape_mismatch_false in Hmis as (a & -> & Hshape & _).
  apply init_patch_set in Hinit as (_ & _ & _ & Himg & _ & Hps).
  apply Hps in Hin as (c0 & c1 & _ & _ & -> & _)%make_patch_Ok.
  simpl in Hraw. simpl channels.
  assert (rect2 (length marker) (length (hd [] marker)) a) as Ha
    by by apply wf2_shape.
  apply (normalize_img_rect (length marker) (length (hd [] marker)) 1)
    in Himg; [|done].
  destruct Himg as [Hlen Hrows].
  set (w0 := Py.sorted3_mid _ _ _). set (w1 := Py.sorted3_mid _ _ _).
  eapply Nat.le_lt_trans.
  - apply (numel_bound (Z.to_nat (Z.min (Z.of_nat (length marker)) crop))
                       (Z.to_nat (Z.min (Z.of_nat (length (hd [] marker))) crop))
                       2).
    + unfold concat_mask, window. rewrite length_zip_with, length_map.
      pose proof (slice_length_le (img ds) w0 (w0 + crop)).
      pose proof (slice_length_bound (img ds) w0 crop). lia.
    + unfold concat_mask, window.
      eapply (zip_with_Forall _
                (fun irow => (length irow
                              <= Z.to_nat (Z.min (Z.of_nat (length (hd [] marker)))
                                                 crop))%nat /\
                             Forall (fun px => length px = 1%nat) irow)).
      * intros irow mrow [Hw Hpx]. split; [rewrite length_zip_with; lia|].
        eapply zip_with_Forall; [|done].
        intros px b Hpx1. simpl in *. rewrite length_app. simpl. lia.
      * apply Forall_fmap, slice_Forall. eapply Forall_impl; [done|].
        intros row0 [Hw Hpx]. simpl. split; [|by apply slice_Forall].
        pose proof (slice_length_le row0 w1 (w1 + crop)).
        pose proof (slice_length_bound row0 w1 crop). lia.
  - nia.
Qed.

(** C10. The constructor does not compare the crop size with the image:
    whenever it returns with a crop size above [min(H, W)], every stored data
    tensor has fewer than [crop_size * crop_size * (C + 1)] elements; and it
    does return on such inputs: with a crop size of 4 on a 2 x 2 image it
    succeeds, and the one stored data tensor has 4 elements instead of
    4 * 4 * 2. *)
Theorem oversized_crop_truncates :
  (forall data_img marker label crop ds,
     wf_raw data_img -> wf2 marker ->
     init data_img marker label crop = Ok ds ->
     Z.min (Z.of_nat (length marker)) (Z.of_nat (length (hd [] marker)))
     < crop ->
     Forall (fun kp =>
               (numel (patch_data kp.2)
                < Z.to_nat crop * Z.to_nat crop * (channels data_img + 1))%nat)
            (patch_set ds)) /\
  exists ds,
    init tiny_raw tiny_marker None 4 = Ok ds /\
    Z.min (Z.of_nat (length tiny_marker))
          (Z.of_nat (length (hd [] tiny_marker))) < crop_size ds /\
    patch_set ds <> [] /\
    Forall (fun kp =>
              (numel (patch_data kp.2)
               < Z.to_nat (crop_size ds) * Z.to_nat (crop_size ds)
                 * (channels tiny_raw + 1))%nat)
           (patch_set ds).
Proof.
  split.
  { intros data_img marker label crop ds Hraw Hmarker Hinit Hmin.
    apply Forall_forall. intros [k p] Hin.
    by apply (init_patch_truncated data_img marker label crop ds) with (k := k). }
  exists tiny_ds. split; [vm_compute; reflexivity|].
  split; [vm_compute; reflexivity|].
  split; [by vm_compute|].
  replace (patch_set tiny_ds) with [(1, record_of 1 tiny_ds)]
    by (vm_compute; reflexivity).
  constructor; [|constructor]. vm_compute. lia.
Qed.

(** ** The worked example *)

Lemma concat_mask_row (row : list (list F32.t)) (mrow : list bool) :
  length row = length mrow ->
  map last (zip_with (fun px b => px ++ [F32.of_bool b]) row mrow)
  = map (fun b => Some (F32.of_bool b)) mrow.
Proof.
  revert mrow. induction row as [|px row IH]; intros [|b mrow]; simpl;
    try done.
  intros [= Hlen]. by rewrite last_snoc, IH.
Qed.

(** The last channel of the data tensor is the mask. *)
Lemma concat_mask_mask_channel (d0 d1 c : nat) (a : image3 F32.t)
    (m : image2 bool) :
  rect3 d0 d1 c a -> rect2 d0 d1 m ->
  mask_channel (concat_mask a m) = map (map (fun b => Some (F32.of_bool b))) m.
Proof.
  intros [Ha0 Ha1] [Hm0 Hm1]. unfold mask_channel, concat_mask.
  assert (length a = length m) as Hlen by congruence. clear Ha0 Hm0.
  revert m Hm1 Hlen.
  induction Ha1 as [|row a [Hrow _] _ IH]; intros [|mrow m] Hm1; simpl;
    try done.
  intros [= Hlen]. apply Forall_cons in Hm1 as [Hmrow Hm1].
  rewrite concat_mask_row by congruence. by rewrite IH.
Qed.

Lemma blob_centroid :
  center_of_mass_as_int (eq_mask (blob_marker 40 45) 1) = Ok (43, 43).
Proof. vm_compute. reflexivity. Qed.

(** The object on rows and columns 40 to 45 of the 100 x 100 image, with any
    raw image of that size: the centroid, the window and the record. *)
Lemma blob_record (raw : image2 F32.t) (ds : Dataset) :
  rect2 100 100 raw ->
  init (Raw2 raw) (blob_marker 40 45) None 64 = Ok ds ->
  exists data,
    patch_set ds = [(1, Patch2 (11, 11) data)] /\
    rect3 64 64 2 data /\
    mask_channel data
    = map (map (fun b => Some (F32.of_bool b))) (square 29 34 64).
Proof.
  intros Hraw Hinit.
  pose proof (init_keys _ _ _ _ _ Hinit) as Hkeys.
  replace (drop 1 (Py.unique (blob_marker 40 45))) with [1] in Hkeys
    by (vm_compute; reflexivity).
  pose proof Hinit as (_ & _ & _ & Himg & _ & Hps)%init_patch_set.
  destruct (patch_set ds) as [|[k p] [|? ?]] eqn:Hset;
    [discriminate Hkeys| |discriminate Hkeys].
  injection Hkeys as ->.
  specialize (Hps 1 p (list_elem_of_here _ _)).
  apply make_patch_Ok in Hps as (c0 & c1 & Hc & Hcoord & Hdata & Hlab).
  rewrite blob_centroid in Hc. injection Hc as <- <-.
  replace (Py.sorted3_mid 0 (43 - 64 / 2)
             (Z.of_nat (length (blob_marker 40 45)) - 64))
    with 11 in * by (vm_compute; reflexivity).
  replace (Py.sorted3_mid 0 (43 - 64 / 2)
             (Z.of_nat (length (hd [] (blob_marker 40 45))) - 64))
    with 11 in * by (vm_compute; reflexivity).
  replace (eq_mask (window 11 11 64 (blob_marker 40 45)) 1)
    with (square 29 34 64) in Hdata by (vm_compute; reflexivity).
  apply (normalize_img_rect 100 100 1) in Himg; [|by split].
  assert (rect3 64 64 1 (window 11 11 64 (img ds))) as Hwin.
  { apply (window_rect3 100 100 1 11 11 64); [exact Himg|lia..]. }
  assert (rect2 64 64 (square 29 34 64)) as Hsq.
  { apply (bool_decide_unpack _). vm_compute. exact I. }
  destruct p as [c data|c data lab]; [|discriminate Hlab].
  cbn [patch_coord patch_data] in Hcoord, Hdata. subst c data.
  eexists. split; [reflexivity|]. split.
  - exact (concat_mask_rect 64 64 1 _ _ Hwin Hsq).
  - exact (concat_mask_mask_channel 64 64 1 _ _ Hwin Hsq).
Qed.

(** C9 (as amended). For the single object on rows 40-45, columns 40-45 of a
    100 x 100 image and a crop size of 64, the centroid is (43, 43), the
    window's top-left corner is (11, 11), and the one record's data tensor is
    64 x 64 x 2 with the mask channel true exactly on rows 29-34, columns
    29-34 of the window. *)
Theorem centroid_example (raw : image2 F32.t) (ds : Dataset) :
  rect2 100 100 raw ->
  init (Raw2 raw) (blob_marker 40 45) None 64 = Ok ds ->
  center_of_mass_as_int (eq_mask (blob_marker 40 45) 1) = Ok (43, 43) /\
  exists data,
    patch_set ds = [(1, Patch2 (11, 11) data)] /\
    shape3 data = [64; 64; channels (Raw2 raw) + 1]%nat /\
    rect3 64 64 (channels (Raw2 raw) + 1) data /\
    mask_channel data
    = map (map (fun b => Some (F32.of_bool b))) (square 29 34 64).
Proof.
  intros Hraw Hinit. split; [apply blob_centroid|].
  destruct (blob_record raw ds Hraw Hinit) as (data & Hset & Hrect & Hmask).
  exists data. split; [done|]. split; [|done].
  apply rect3_shape3; [done|lia..].
Qed.

Lemma blob_raw_rect : rect2 100 100 blob_raw.
Proof. apply (bool_decide_unpack _). vm_compute. exact I. Defined.

Lemma blob_init :
  init (Raw2 blob_raw) (blob_marker 40 45) None 64 = Ok (blob_ds 40 45).
Proof. vm_compute. reflexivity. Defined.

Lemma centroid_example_witness :
  center_of_mass_as_int (eq_mask (blob_marker 40 45) 1) = Ok (43, 43) /\
  exists data,
    patch_set (blob_ds 40 45) = [(1, Patch2 (11, 11) data)] /\
    shape3 data = [64; 64; 2]%nat /\
    rect3 64 64 2 data /\
    mask_channel data
    = map (map (fun b => Some (F32.of_bool b))) (square 29 34 64).
Proof.
  exact (centroid_example blob_raw (blob_ds 40 45) blob_raw_rect blob_init).
Defined.

Lemma record_of_singleton (k : Z) (p : patch) (ds : Dataset) :
  patch_set ds = [(k, p)] -> record_of k ds = p.
Proof.
  unfold record_of. intros ->. cbn [Py.dict_get]. by rewrite Z.eqb_refl.
Qed.

(** The values the specification gives for this example are not those of
    the code: the mean 42.5 of the rows 40 to 45 rounds half up to 43. *)
Lemma centroid_example_counterexample :
  ~ (center_of_mass_as_int (eq_mask (blob_marker 40 45) 1) = Ok (42, 42)) /\
  ~ (patch_coord (record_of 1 (blob_ds 40 45)) = (10, 10)) /\
  ~ (mask_channel (patch_data (record_of 1 (blob_ds 40 45)))
     = map (map (fun b => Some (F32.of_bool b))) (square 30 35 64)).
Proof.
  split; [by rewrite blob_centroid|].
  destruct (blob_record blob_raw (blob_ds 40 45) blob_raw_rect blob_init)
    as (data & Hset & _ & Hmask).
  rewrite (record_of_singleton _ _ _ Hset). cbn [patch_coord patch_data].
  split; [discriminate|].
  rewrite Hmask. intros Heq.
  apply (f_equal (fun m => m !! 29%nat ≫= (.!! 29%nat))) in Heq.
  vm_compute in Heq. discriminate.
Qed.

(** Read as the half-open ranges 40:45 (rows and columns 40 to 44), the
    example has the values of the specification, with the mask on 30:35. *)
Lemma centroid_example_half_open :
  center_of_mass_as_int (eq_mask (blob_marker 40 44) 1) = Ok (42, 42) /\
  patch_coord (record_of 1 (blob_ds 40 44)) = (10, 10) /\
  mask_channel (patch_data (record_of 1 (blob_ds 40 44)))
  = map (map (fun b => Some (F32.of_bool b))) (square 30 34 64).
Proof.
  split; [vm_compute; reflexivity|].
  split; vm_compute; reflexivity.
Qed.

(** ** Pixels of a record *)

Lemma lookup_map {A B : Type} (f : A -> B) (l : list A) (i : nat) :
  map f l !! i = f <$> (l !! i).
Proof. revert i. induction l as [|x l IH]; intros [|i]; simpl; auto. Qed.

Lemma at2_map {A B : Type} (f : A -> B) (a : list (list A)) (i j : nat) :
  at2 (map (map f) a) i j = f <$> at2 a i j.
Proof.
  unfold at2. rewrite lookup_map. destruct (a !! i) as [row|]; simpl; [|done].
  apply lookup_map.
Qed.

Lemma at2_window {A : Type} (d0 d1 : nat) (c0 c1 size : Z) (a : list (list A))
    (i j : nat) :
  length a = d0 -> Forall (fun row => length row = d1) a ->
  0 <= size -> 0 <= c0 <= Z.of_nat d0 - size -> 0 <= c1 <= Z.of_nat d1 - size ->
  (i < Z.to_nat size)%nat -> (j < Z.to_nat size)%nat ->
  at2 (window c0 c1 size a) i j = at2 a (Z.to_nat c0 + i) (Z.to_nat c1 + j).
Proof.
  intros Hl Hrows Hs H0 H1 Hi Hj. unfold at2, window.
  rewrite lookup_map, slice_lookup by lia.
  destruct (a !! (Z.to_nat c0 + i)%nat) as [row|] eqn:E; simpl; [|done].
  apply slice_lookup; try lia.
  rewrite Forall_forall in Hrows.
  rewrite (Hrows row) by (eapply list_elem_of_lookup_2; exact E). lia.
Qed.

Lemma at2_concat_mask (a : image3 F32.t) (m : image2 bool) (i j : nat) :
  at2 (concat_mask a m) i j
  = match at2 a i j, at2 m i j with
    | Some px, Some b => Some (px ++ [F32.of_bool b])
    | _, _ => None
    end.
Proof.
  unfold at2, concat_mask, image3, image2 in *. rewrite lookup_zip_with.
  destruct (a !! i) as [row|]; [|reflexivity].
  destruct (m !! i) as [mrow|]; cbn.
  - rewrite lookup_zip_with. destruct (row !! j); [|reflexivity].
    destruct (mrow !! j); reflexivity.
  - destruct (row !! j); reflexivity.
Qed.

Lemma at2_Some {A : Type} (d0 d1 : nat) (a : list (list A)) (i j : nat) :
  rect2 d0 d1 a -> (i < d0)%nat -> (j < d1)%nat -> is_Some (at2 a i j).
Proof.
  intros [Hl Hrows] Hi Hj. unfold at2.
  destruct (lookup_lt_is_Some_2 a i) as [row E]; [lia|]. rewrite E.
  apply lookup_lt_is_Some_2. rewrite Forall_forall in Hrows.
  rewrite (Hrows row) by (eapply list_elem_of_lookup_2; exact E). done.
Qed.

Lemma rect3_rect2 {A : Type} (d0 d1 c : nat) (a : image3 A) :
  rect3 d0 d1 c a -> rect2 d0 d1 a.
Proof. intros [Hl H]. split; [done|]. eapply Forall_impl; [exact H|]. by intros ? []. Qed.

(** On a valid construction the window of a record lies inside the image,
    and the record is cut from the stored image, the marker image and the
    label image at that window. *)
Lemma init_patch_window (data_img : raw_image) (marker : image2 Z)
    (label : option (image2 Z)) (crop : Z) (ds : Dataset) :
  wf_raw data_img -> wf2 marker -> (forall l, label = Some l -> wf2 l) ->
  init data_img marker label crop = Ok ds ->
  0 <= crop ->
  crop <= Z.min (Z.of_nat (length marker)) (Z.of_nat (length (hd [] marker))) ->
  forall k p, (k, p) ∈ patch_set ds ->
  exists w0 w1 : nat,
    patch_coord p = (Z.of_nat w0, Z.of_nat w1) /\
    (w0 + Z.to_nat crop <= length marker)%nat /\
    (w1 + Z.to_nat crop <= length (hd [] marker))%nat /\
    rect3 (length marker) (length (hd [] marker)) 1 (img ds) /\
    patch_data p = concat_mask (window (Z.of_nat w0) (Z.of_nat w1) crop (img ds))
                     (eq_mask (window (Z.of_nat w0) (Z.of_nat w1) crop marker) k) /\
    patch_label p =
      (fun l => map (map Z.b2z)
                  (eq_mask (window (Z.of_nat w0) (Z.of_nat w1) crop l) k))
        <$> label /\
    forall l, label = Some l -> rect2 (length marker) (length (hd [] marker)) l.
Proof.
  intros Hraw Hmarker Hlabel Hinit Hcrop Hmin k p Hin.
  pose proof Hinit as (Hmis & _)%init_Ok.
  apply shape_mismatch_false in Hmis as (a & -> & Hshape & Hlshape).
  apply init_patch_set in Hinit as (_ & _ & _ & Himg & _ & Hps).
  apply Hps in Hin as (c0 & c1 & _ & Hc & Hd & Hl)%make_patch_Ok.
  simpl in Hraw.
  assert (rect2 (length marker) (length (hd [] marker)) a) as Ha
    by by apply wf2_shape.
  apply (normalize_img_rect (length marker) (length (hd [] marker)) 1)
    in Himg; [|done].
  set (w0 := Py.sorted3_mid 0 (c0 - crop / 2) (Z.of_nat (length marker) - crop)) in *.
  set (w1 := Py.sorted3_mid 0 (c1 - crop / 2)
               (Z.of_nat (length (hd [] marker)) - crop)) in *.
  assert (0 <= w0 <= Z.of_nat (length marker) - crop) as H0
    by (apply sorted3_mid_range; lia).
  assert (0 <= w1 <= Z.of_nat (length (hd [] marker)) - crop) as H1
    by (apply sorted3_mid_range; lia).
  exists (Z.to_nat w0), (Z.to_nat w1).
  rewrite !Z2Nat.id by lia.
  split; [done|]. split; [lia|]. split; [lia|]. split; [done|].
  split; [done|]. split; [done|].
  intros l El. apply wf2_shape; [by apply Hlabel|].
  rewrite (Hlshape l El). done.
Qed.

Lemma at2_Some_inv {A : Type} (i j : nat) (a : list (list A)) (x : A) :
  wf2 a -> at2 a i j = Some x ->
  (i < length a)%nat /\ (j < length (hd [] a))%nat.
Proof.
  intros [_ Hrows]. unfold at2.
  destruct (a !! i) as [row|] eqn:E; [|done]. intros Hj.
  pose proof (lookup_lt_Some _ _ _ E). pose proof (lookup_lt_Some _ _ _ Hj).
  rewrite Forall_forall in Hrows.
  rewrite (Hrows row) in * by (by eapply list_elem_of_lookup_2). lia.
Qed.

(** ** Shapes of the stored image and labels *)

Lemma normalize_img_nonempty (a : raw_image) (im : image3 F32.t) :
  normalize_img a = Ok im -> concat (with_channel_axis a) <> [].
Proof.
  unfold normalize_img, reduce_axis01.
  destruct (concat (with_channel_axis a)); [done|]. done.
Qed.

Lemma concat_nonempty_rect2 {A : Type} (d0 d1 : nat) (a : image2 A) :
  rect2 d0 d1 a -> concat a <> [] -> (0 < d0)%nat /\ (0 < d1)%nat.
Proof.
  intros [Hl Hrows] Hne.
  destruct a as [|row a]; [done|]. simpl in Hl. split; [lia|].
  destruct d1; [|lia]. exfalso. apply Hne.
  clear Hl Hne. induction Hrows as [|r rs Hr _ IH]; [done|].
  simpl. destruct r; [|done]. exact IH.
Qed.

(** The stored image of a constructed dataset has the shape of the marker
    image and one channel, and both have pixels. *)
Lemma init_img_shape (data_img : raw_image) (marker : image2 Z)
    (label : option (image2 Z)) (crop : Z) (ds : Dataset) :
  wf_raw data_img -> wf2 marker ->
  init data_img marker label crop = Ok ds ->
  (0 < length marker)%nat /\ (0 < length (hd [] marker))%nat /\
  rect3 (length marker) (length (hd [] marker)) 1 (img ds) /\
  shape3 (img ds) = [length marker; length (hd [] marker); 1%nat].
Proof.
  intros Hraw Hmarker Hinit.
  pose proof Hinit as (Hmis & _)%init_Ok.
  apply shape_mismatch_false in Hmis as (a & -> & Hshape & _).
  apply init_patch_set in Hinit as (_ & _ & _ & Himg & _).
  simpl in Hraw.
  assert (rect2 (length marker) (length (hd [] marker)) a) as Ha
    by by apply wf2_shape.
  pose proof (normalize_img_nonempty _ _ Himg) as Hne. simpl in Hne.
  rewrite concat_map_map in Hne.
  assert (concat a <> []) as Hne' by (intros E; apply Hne; by rewrite E).
  destruct (concat_nonempty_rect2 _ _ _ Ha Hne') as [H0 H1].
  apply (normalize_img_rect (length marker) (length (hd [] marker)) 1)
    in Himg; [|done].
  split; [done|]. split; [done|]. split; [done|].
  by apply rect3_shape3.
Qed.

(** ** The content of a record *)

(** X6. The data tensor of a record is the window of the normalized image
    at the stored coordinate with the mask of the object appended: the
    pixel [(i, j)] of the tensor is the pixel [(c0 + i, c1 + j)] of the
    normalized image followed by [1.0] when the marker image holds the
    identity of the record there and by [0.0] otherwise. *)
Theorem patch_data_is_window (data_img : raw_image) (marker : image2 Z)
    (label : option (image2 Z)) (crop : Z) (ds : Dataset) :
  wf_raw data_img -> wf2 marker -> (forall l, label = Some l -> wf2 l) ->
  init data_img marker label crop = Ok ds ->
  0 <= crop ->
  crop <= Z.min (Z.of_nat (length marker)) (Z.of_nat (length (hd [] marker))) ->
  forall k p, (k, p) ∈ patch_set ds ->
  forall i j, (i < Z.to_nat crop)%nat -> (j < Z.to_nat crop)%nat ->
    exists px v,
      at2 (img ds) (Z.to_nat (patch_coord p).1 + i)
                   (Z.to_nat (patch_coord p).2 + j) = Some px /\
      at2 marker (Z.to_nat (patch_coord p).1 + i)
                 (Z.to_nat (patch_coord p).2 + j) = Some v /\
      at2 (patch_data p) i j = Some (px ++ [F32.of_bool (v =? k)]).
Proof.
  intros Hraw Hmarker Hlabel Hinit Hcrop Hmin k p Hin i j Hi Hj.
  destruct (init_patch_window _ _ _ _ _ Hraw Hmarker Hlabel Hinit Hcrop Hmin
              _ _ Hin) as (w0 & w1 & -> & H0 & H1 & Himg & -> & _).
  simpl. rewrite !Nat2Z.id.
  destruct (at2_Some _ _ (img ds) (w0 + i) (w1 + j) (rect3_rect2 _ _ _ _ Himg))
    as [px Epx]; [lia..|].
  destruct (at2_Some _ _ marker (w0 + i) (w1 + j) Hmarker) as [v Ev]; [lia..|].
  exists px, v. split; [done|]. split; [done|].
  destruct Himg as [Hl Hrows]. destruct Hmarker as [Hl' Hrows'].
  rewrite at2_concat_mask. unfold eq_mask. rewrite at2_map.
  rewrite (at2_window (length marker) (length (hd [] marker)));
    [|done| |lia..].
  2:{ eapply Forall_impl; [exact Hrows|]. by intros ? []. }
  rewrite (at2_window (length marker) (length (hd [] marker))); [|done|done|lia..].
  rewrite !Nat2Z.id, Epx, Ev. done.
Qed.

Lemma patch_data_is_window_witness :
  exists px v,
    at2 (img corner_ds) (Z.to_nat (patch_coord (record_of 2 corner_ds)).1 + 1)
        (Z.to_nat (patch_coord (record_of 2 corner_ds)).2 + 1) = Some px /\
    at2 corner_marker (Z.to_nat (patch_coord (record_of 2 corner_ds)).1 + 1)
        (Z.to_nat (patch_coord (record_of 2 corner_ds)).2 + 1) = Some v /\
    at2 (patch_data (record_of 2 corner_ds)) 1 1
    = Some (px ++ [F32.of_bool (v =? 2)]).
Proof.
  apply (patch_data_is_window corner_raw corner_marker None 2 corner_ds
           corner_wf_raw corner_wf_marker) with (k := 2).
  - intros l [=].
  - exact corner_init.
  - lia.
  - simpl. lia.
  - exact corner_record_2.
  - simpl. lia.
  - simpl. lia.
Defined.

(** X7. With a label image, every record has a label patch of
    [crop_size] x [crop_size] entries; the entry [(i, j)] is [1] when the
    label image holds the identity of the record at [(c0 + i, c1 + j)], and
    [0] otherwise. *)
Theorem patch_label_is_window (data_img : raw_image) (marker l : image2 Z)
    (crop : Z) (ds : Dataset) :
  wf_raw data_img -> wf2 marker -> wf2 l ->
  init data_img marker (Some l) crop = Ok ds ->
  0 <= crop ->
  crop <= Z.min (Z.of_nat (length marker)) (Z.of_nat (length (hd [] marker))) ->
  forall k p, (k, p) ∈ patch_set ds ->
    exists lab,
      patch_label p = Some lab /\
      rect2 (Z.to_nat crop) (Z.to_nat crop) lab /\
      forall i j, (i < Z.to_nat crop)%nat -> (j < Z.to_nat crop)%nat ->
        exists w,
          at2 l (Z.to_nat (patch_coord p).1 + i)
                (Z.to_nat (patch_coord p).2 + j) = Some w /\
          at2 lab i j = Some (if w =? k then 1 else 0).
Proof.
  intros Hraw Hmarker Hwl Hinit Hcrop Hmin k p Hin.
  destruct (init_patch_window data_img marker (Some l) crop ds Hraw Hmarker)
    with (k := k) (p := p)
    as (w0 & w1 & -> & H0 & H1 & _ & _ & -> & Hl); try done.
  { by intros ? [= <-]. }
  specialize (Hl l eq_refl). simpl.
  eexists. split; [done|]. split.
  - do 2 apply rect2_map. eapply window_rect2; [exact Hl|lia..].
  - intros i j Hi Hj. rewrite !Nat2Z.id.
    destruct (at2_Some _ _ l (w0 + i) (w1 + j) Hl) as [w Ew]; [lia..|].
    exists w. split; [done|].
    unfold eq_mask. rewrite !at2_map.
    destruct Hl as [Hl Hrows].
    rewrite (at2_window (length marker) (length (hd [] marker)));
      [|done|done|lia..].
    rewrite !Nat2Z.id, Ew. simpl. by destruct (w =? k).
Qed.

Lemma corner_wf_label : wf2 corner_label.
Proof. split; [reflexivity | repeat constructor]. Defined.

Lemma corner_labelled_record_2 :
  (2, record_of 2 corner_labelled_ds) ∈ patch_set corner_labelled_ds.
Proof. vm_compute. apply list_elem_of_further, list_elem_of_here. Defined.

Lemma patch_label_is_window_witness :
  exists lab,
    patch_label (record_of 2 corner_labelled_ds) = Some lab /\
    rect2 2 2 lab /\
    forall i j, (i < 2)%nat -> (j < 2)%nat ->
      exists w,
        at2 corner_label
            (Z.to_nat (patch_coord (record_of 2 corner_labelled_ds)).1 + i)
            (Z.to_nat (patch_coord (record_of 2 corner_labelled_ds)).2 + j)
        = Some w /\
        at2 lab i j = Some (if w =? 2 then 1 else 0).
Proof.
  apply (patch_label_is_window corner_raw corner_marker corner_label 2
           corner_labelled_ds corner_wf_raw corner_wf_marker corner_wf_label
           corner_labelled_init) with (k := 2).
  - lia.
  - simpl. lia.
  - exact corner_labelled_record_2.
Defined.

(** ** The declared signatures *)

(** The records of a dataset are pairs without a label image and triples
    with a label of [crop_size] x [crop_size] entries with one. *)
Lemma init_label_rect (data_img : raw_image) (marker : image2 Z)
    (label : option (image2 Z)) (crop : Z) (ds : Dataset) :
  wf_raw data_img -> wf2 marker -> (forall l, label = Some l -> wf2 l) ->
  init data_img marker label crop = Ok ds ->
  0 <= crop ->
  crop <= Z.min (Z.of_nat (length marker)) (Z.of_nat (length (hd [] marker))) ->
  forall k p, (k, p) ∈ patch_set ds ->
    match label with
    | None => exists c data, p = Patch2 c data
    | Some _ => exists c data lab,
        p = Patch3 c data lab /\ rect2 (Z.to_nat crop) (Z.to_nat crop) lab
    end.
Proof.
  intros Hraw Hmarker Hlabel Hinit Hcrop Hmin k p Hin.
  destruct (init_patch_window _ _ _ _ _ Hraw Hmarker Hlabel Hinit Hcrop Hmin
              _ _ Hin) as (w0 & w1 & _ & H0 & H1 & _ & _ & Hlab & Hl).
  destruct label as [l|]; simpl in Hlab.
  - destruct p as [c d|c d lab]; [done|]. injection Hlab as ->.
    exists c, d. eexists. split; [done|].
    do 2 apply rect2_map. eapply window_rect2; [by apply Hl|lia..].
  - destruct p as [c d|c d lab]; [|done]. by exists c, d.
Qed.

(** X15. On a construction with [0 <= crop_size <= min(H, W)] every element
    of the full enumeration has the structure and the shapes that
    [tf_dataset] declares: two components without a label image and three
    with one, a data tensor of shape [(crop_size, crop_size, ch + 1)] and a
    label of shape [(crop_size, crop_size)]. *)
Theorem tf_dataset_conforms (data_img : raw_image) (marker : image2 Z)
    (label : option (image2 Z)) (crop : Z) (ds : Dataset) :
  wf_raw data_img -> wf2 marker -> (forall l, label = Some l -> wf2 l) ->
  init data_img marker label crop = Ok ds ->
  0 <= crop ->
  crop <= Z.min (Z.of_nat (length marker)) (Z.of_nat (length (hd [] marker))) ->
  exists records,
    (tf_dataset ds).1 = Ok records /\
    length records = length (patch_set ds) /\
    Forall (conforms (tf_dataset ds).2) records.
Proof.
  intros Hraw Hmarker Hlabel Hinit Hcrop Hmin.
  exists (map snd (patch_set ds)). unfold tf_dataset. simpl.
  split; [by eapply generator_Ok|]. split; [by rewrite length_map|].
  pose proof (init_img_shape _ _ _ _ _ Hraw Hmarker Hinit)
    as (_ & _ & _ & [= _ _ Hch]).
  pose proof (init_patch_set _ _ _ _ _ Hinit) as (_ & -> & -> & _).
  rewrite Forall_forall. intros p [[k p'] [-> Hin]]%list_elem_of_fmap. simpl.
  pose proof (init_patch_rect _ _ _ _ _ Hraw Hmarker Hinit Hcrop Hmin _ _ Hin)
    as Hdata.
  pose proof (init_label_rect _ _ _ _ _ Hraw Hmarker Hlabel Hinit Hcrop Hmin
                _ _ Hin) as Hp.
  pose proof Hinit as (Hmis & _)%init_Ok.
  apply shape_mismatch_false in Hmis as (a & -> & _). simpl in Hdata.
  assert (has_shape3
            (mkTensorSpec [crop; crop; Z.of_nat (length (hd [] (hd [] (img ds)))) + 1]
               tf_float32) (patch_data p')) as H3.
  { exists (Z.to_nat crop), (Z.to_nat crop), 2%nat. simpl.
    rewrite Hch, !Z2Nat.id by lia. done. }
  destruct label as [l|].
  - destruct Hp as (c & d & lab & -> & Hlab). simpl in *.
    split; [done|]. split; [done|].
    exists (Z.to_nat crop), (Z.to_nat crop). simpl. by rewrite !Z2Nat.id by lia.
  - destruct Hp as (c & d & ->). simpl in *. done.
Qed.

Lemma tf_dataset_conforms_witness :
  exists records,
    (tf_dataset corner_labelled_ds).1 = Ok records /\
    length records = length (patch_set corner_labelled_ds) /\
    Forall (conforms (tf_dataset corner_labelled_ds).2) records.
Proof.
  apply (tf_dataset_conforms corner_raw corner_marker (Some corner_label) 2
           corner_labelled_ds corner_wf_raw corner_wf_marker).
  - intros l [= <-]. exact corner_wf_label.
  - exact corner_labelled_init.
  - lia.
  - simpl. lia.
Defined.

Lemma generator_with_label_Ok (data_img : raw_image) (marker l : image2 Z)
    (crop : Z) (ds : Dataset) :
  init data_img marker (Some l) crop = Ok ds ->
  generator_with_label ds
  = Ok (map (fun kp => data_label kp.2) (patch_set ds)).
Proof.
  intros Hinit. pose proof Hinit as (_ & Hlab & _ & _ & Hnd & _)%init_patch_set.
  unfold generator_with_label. rewrite Hlab.
  pose proof (init_labelled_records _ _ _ _ _ Hinit) as Hrec.
  apply (mapM_getitem_sub
           (fun p => '(c, data, label) ← unpack3 p; Ok (data, label))
           data_label); [done|done|].
  eapply Forall_impl; [done|]. intros [k p] [c Hp]. simpl in *.
  by rewrite Hp.
Qed.

(** X16. With a label image and [0 <= crop_size <= min(H, W)], every pair of
    the label-paired enumeration has the shapes that [tf_dataset_with_label]
    declares. *)
Theorem tf_dataset_with_label_conforms (data_img : raw_image)
    (marker l : image2 Z) (crop : Z) (ds : Dataset) :
  wf_raw data_img -> wf2 marker -> wf2 l ->
  init data_img marker (Some l) crop = Ok ds ->
  0 <= crop ->
  crop <= Z.min (Z.of_nat (length marker)) (Z.of_nat (length (hd [] marker))) ->
  exists pairs,
    (tf_dataset_with_label ds).1 = Ok pairs /\
    length pairs = length (patch_set ds) /\
    Forall (conforms_pair (tf_dataset_with_label ds).2) pairs.
Proof.
  intros Hraw Hmarker Hwl Hinit Hcrop Hmin.
  assert (forall l', Some l = Some l' -> wf2 l') as Hlabel by by intros ? [= <-].
  exists (map (fun kp => data_label kp.2) (patch_set ds)).
  unfold tf_dataset_with_label. simpl.
  split; [by eapply generator_with_label_Ok|]. split; [by rewrite length_map|].
  pose proof (init_img_shape _ _ _ _ _ Hraw Hmarker Hinit)
    as (_ & _ & _ & [= _ _ Hch]).
  pose proof (init_patch_set _ _ _ _ _ Hinit) as (_ & _ & -> & _).
  rewrite Forall_forall. intros x [[k p] [-> Hin]]%list_elem_of_fmap. simpl.
  pose proof (init_patch_rect _ _ _ _ _ Hraw Hmarker Hinit Hcrop Hmin _ _ Hin)
    as Hdata.
  pose proof (init_label_rect _ _ _ _ _ Hraw Hmarker Hlabel Hinit Hcrop Hmin
                _ _ Hin) as (c & d & lab & -> & Hlab).
  pose proof Hinit as (Hmis & _)%init_Ok.
  apply shape_mismatch_false in Hmis as (a & -> & _). simpl in *.
  split.
  - exists (Z.to_nat crop), (Z.to_nat crop), 2%nat. simpl.
    rewrite Hch, !Z2Nat.id by lia. done.
  - exists (Z.to_nat crop), (Z.to_nat crop). simpl. by rewrite !Z2Nat.id by lia.
Qed.

Lemma tf_dataset_with_label_conforms_witness :
  exists pairs,
    (tf_dataset_with_label corner_labelled_ds).1 = Ok pairs /\
    length pairs = length (patch_set corner_labelled_ds) /\
    Forall (conforms_pair (tf_dataset_with_label corner_labelled_ds).2) pairs.
Proof.
  apply (tf_dataset_with_label_conforms corner_raw corner_marker corner_label 2
           corner_labelled_ds corner_wf_raw corner_wf_marker corner_wf_label
           corner_labelled_init).
  - lia.
  - simpl. lia.
Defined.

(** X17. With a crop size above [min(H, W)] no element of the full
    enumeration has the shapes that [tf_dataset] declares. *)
Theorem tf_dataset_oversized_crop (data_img : raw_image) (marker : image2 Z)
    (label : option (image2 Z)) (crop : Z) (ds : Dataset) :
  wf_raw data_img -> wf2 marker ->
  init data_img marker label crop = Ok ds ->
  Z.min (Z.of_nat (length marker)) (Z.of_nat (length (hd [] marker))) < crop ->
  exists records,
    (tf_dataset ds).1 = Ok records /\
    Forall (fun p => ~ conforms (tf_dataset ds).2 p) records.
Proof.
  intros Hraw Hmarker Hinit Hmin.
  exists (map snd (patch_set ds)). unfold tf_dataset. simpl.
  split; [by eapply generator_Ok|].
  pose proof (init_img_shape _ _ _ _ _ Hraw Hmarker Hinit)
    as (_ & _ & _ & [= _ _ Hch]).
  pose proof (init_patch_set _ _ _ _ _ Hinit) as (_ & -> & -> & _).
  rewrite Forall_forall. intros p [[k p'] [-> Hin]]%list_elem_of_fmap. simpl.
  pose proof (init_patch_truncated _ _ _ _ _ Hraw Hmarker Hinit Hmin _ _ Hin)
    as Hlt.
  pose proof Hinit as (Hmis & _)%init_Ok.
  apply shape_mismatch_false in Hmis as (a & -> & _). simpl in Hlt.
  rewrite Hch.
  assert (~ has_shape3 (mkTensorSpec [crop; crop; Z.of_nat 1 + 1] tf_float32)
            (patch_data p')) as Hno.
  { intros (d0 & d1 & d2 & [= E0 E1 E2] & Hrect).
    apply rect3_numel in Hrect.
    assert (d0 = Z.to_nat crop) by lia. assert (d1 = Z.to_nat crop) by lia.
    assert (d2 = 2%nat) by lia. subst d0 d1 d2. lia. }
  destruct label, p'; simpl; tauto.
Qed.

Lemma tiny_wf_raw : wf_raw tiny_raw.
Proof. split; [reflexivity | repeat constructor]. Defined.

Lemma tiny_wf_marker : wf2 tiny_marker.
Proof. split; [reflexivity | repeat constructor]. Defined.

Lemma tiny_init : init tiny_raw tiny_marker None 4 = Ok tiny_ds.
Proof. vm_compute. reflexivity. Defined.

Lemma tf_dataset_oversized_crop_witness :
  exists records,
    (tf_dataset tiny_ds).1 = Ok records /\
    Forall (fun p => ~ conforms (tf_dataset tiny_ds).2 p) records.
Proof.
  apply (tf_dataset_oversized_crop tiny_raw tiny_marker None 4 tiny_ds
           tiny_wf_raw tiny_wf_marker tiny_init).
  simpl. lia.
Defined.

(** ** Degenerate channels *)

(** NaN *)
Lemma foldl_minimum_nan (l : list F32.t) (acc : F32.t) :
  acc = S754_nan \/ S754_nan ∈ l -> foldl F32.minimum acc l = S754_nan.
Proof.
  revert acc. induction l as [|x l IH]; intros acc [H|H].
  - done.
  - by apply elem_of_nil in H.
  - subst. simpl. apply IH. by left.
  - simpl. apply IH. apply elem_of_cons in H as [<-|H]; [|by right].
    left. unfold F32.minimum. destruct acc; done.
Qed.

Lemma foldl_maximum_nan (l : list F32.t) :
  foldl F32.maximum S754_nan l = S754_nan.
Proof.
  induction l as [|x l IH]; [done|]. simpl.
  unfold F32.maximum at 2. by rewrite orb_true_r.
Qed.

Lemma np_min_nan (chan : list F32.t) :
  S754_nan ∈ chan -> np_min chan = S754_nan.
Proof.
  unfold np_min. destruct chan as [|x chan]; [by intros ?%elem_of_nil|].
  intros [<-|H]%elem_of_cons; simpl; apply foldl_minimum_nan; auto.
Qed.

Lemma normalize_channel_nan (chan : list F32.t) :
  S754_nan ∈ chan -> Forall (eq S754_nan) (normalize_channel chan).
Proof.
  intros Hin. unfold normalize_channel, shifted. rewrite (np_min_nan _ Hin).
  apply Forall_fmap, Forall_fmap, Forall_forall. intros x _. simpl.
  unfold F32.sub, F32.div. by destruct x.
Qed.

Lemma foldl_same (f : F32.t -> F32.t -> F32.t) (x : F32.t) (l : list F32.t) :
  f x x = x -> Forall (eq x) l -> foldl f x l = x.
Proof.
  intros Hf. induction 1 as [|y l <- _ IH]; [done|]. simpl. by rewrite Hf.
Qed.

Lemma minimum_same (x : F32.t) : F32.minimum x x = x.
Proof. unfold F32.minimum. by destruct (_ || _). Qed.

Lemma maximum_same (x : F32.t) : F32.maximum x x = x.
Proof. unfold F32.maximum. by destruct (_ || _). Qed.

Lemma sub_same (x : F32.t) :
  F32.sub x x = S754_zero false \/ F32.sub x x = S754_nan.
Proof.
  unfold F32.sub. destruct x as [[]|[]| |s m e]; simpl; auto.
  left. by rewrite Z.sub_diag.
Qed.

Lemma normalize_channel_constant (x : F32.t) (chan : list F32.t) :
  Forall (eq x) chan -> Forall (eq S754_nan) (normalize_channel chan).
Proof.
  intros Hall. destruct chan as [|x0 chan]; [constructor|].
  pose proof (Forall_inv Hall) as <-. pose proof (Forall_inv_tail Hall) as Htl.
  assert (np_min (x :: chan) = x) as Hmin
    by (apply foldl_same; [apply minimum_same|done]).
  unfold normalize_channel, shifted. rewrite Hmin.
  assert (Forall (eq (F32.sub x x)) (map (fun y => F32.sub y x) (x :: chan)))
    as Hsh.
  { apply Forall_fmap. eapply Forall_impl; [exact Hall|]. by intros ? <-. }
  assert (np_max (map (fun y => F32.sub y x) (x :: chan)) = F32.sub x x) as Hmax.
  { unfold np_max. simpl. apply foldl_same; [apply maximum_same|].
    by apply Forall_inv_tail in Hsh. }
  rewrite Hmax. apply Forall_fmap. eapply Forall_impl; [exact Hsh|].
  intros y <-. simpl. unfold F32.div. by destruct (sub_same x) as [-> | ->].
Qed.

(** X13. A NaN pixel in a channel makes every normalized value of that
    channel a NaN. *)
Theorem normalize_img_nan_propagates (d0 d1 C c : nat) (a : raw_image)
    (img : image3 F32.t) :
  raw_rect d0 d1 C a -> normalize_img a = Ok img -> (c < C)%nat ->
  S754_nan ∈ channel c (with_channel_axis a) ->
  Forall (eq S754_nan) (channel c img).
Proof.
  intros Ha Himg Hc Hnan.
  rewrite (normalize_img_channel d0 d1 C c a img Ha Himg Hc).
  by apply normalize_channel_nan.
Qed.

Lemma nan_raw_rect : raw_rect 2 2 1 nan_raw.
Proof. split; [|reflexivity]. split; [reflexivity | repeat constructor]. Defined.

Lemma nan_normalize : normalize_img nan_raw = Ok nan_img.
Proof. vm_compute. reflexivity. Defined.

Lemma normalize_img_nan_propagates_witness :
  Forall (eq S754_nan) (channel 0 nan_img).
Proof.
  apply (normalize_img_nan_propagates 2 2 1 0 nan_raw nan_img nan_raw_rect
           nan_normalize).
  - lia.
  - vm_compute. apply list_elem_of_further, list_elem_of_here.
Defined.

(** X14. A channel all of whose pixels hold the same value normalizes to
    NaN throughout: the shifted channel is zero and is divided by its
    maximum, zero. *)
Theorem normalize_img_constant_channel (d0 d1 C c : nat) (a : raw_image)
    (img : image3 F32.t) (x : F32.t) :
  raw_rect d0 d1 C a -> normalize_img a = Ok img -> (c < C)%nat ->
  Forall (eq x) (channel c (with_channel_axis a)) ->
  Forall (eq S754_nan) (channel c img).
Proof.
  intros Ha Himg Hc Hall.
  rewrite (normalize_img_channel d0 d1 C c a img Ha Himg Hc).
  by eapply normalize_channel_constant.
Qed.

Lemma flat_raw_rect : raw_rect 2 2 1 flat_raw.
Proof. split; [|reflexivity]. split; [reflexivity | repeat constructor]. Defined.

Lemma flat_normalize : normalize_img flat_raw = Ok flat_img.
Proof. vm_compute. reflexivity. Defined.

Lemma normalize_img_constant_channel_witness :
  Forall (eq S754_nan) (channel 0 flat_img).
Proof.
  apply (normalize_img_constant_channel 2 2 1 0 flat_raw flat_img (F32.of_Z 5)
           flat_raw_rect flat_normalize).
  - lia.
  - vm_compute. repeat constructor.
Defined.

(** normalize: defined exactly on images with pixels; shape preserved *)
Lemma with_channel_axis_rect (d0 d1 c : nat) (a : raw_image) :
  raw_rect d0 d1 c a -> rect3 d0 d1 c (with_channel_axis a).
Proof.
  destruct a as [a|a]; simpl; [|done]. intros [H ->]. by apply rect3_of_rect2.
Qed.

(** X12. Normalization raises the [ValueError] of [np.min] exactly on an
    image without pixels; on every other image it returns an image of the
    same height, width and number of channels. *)
Theorem normalize_img_defined (d0 d1 c : nat) (a : raw_image) :
  raw_rect d0 d1 c a ->
  match concat (with_channel_axis a) with
  | [] => normalize_img a
          = Raise (ValueError
              "zero-size array to reduction operation minimum which has no identity")
  | _ :: _ => exists img, normalize_img a = Ok img /\ rect3 d0 d1 c img /\
                          length (concat img) = (d0 * d1)%nat
  end.
Proof.
  intros Ha. pose proof (with_channel_axis_rect _ _ _ _ Ha) as Hrect.
  destruct (concat (with_channel_axis a)) as [|px pxs] eqn:E.
  - unfold normalize_img, reduce_axis01. by rewrite E.
  - assert (exists img, normalize_img a = Ok img) as [img Himg].
    { unfold normalize_img, reduce_axis01. rewrite E. simpl.
      rewrite concat_map_map, E. simpl. by eexists. }
    exists img. split; [done|].
    pose proof (normalize_img_rect _ _ _ _ _ Ha Himg) as Hr.
    split; [done|].
    destruct Hr as [Hl Hrows]. rewrite (length_concat_uniform d1), Hl; [done|].
    eapply Forall_impl; [exact Hrows|]. by intros ? [].
Qed.

Lemma normalize_img_defined_witness :
  exists img, normalize_img corner_raw = Ok img /\ rect3 3 3 1 img /\
              length (concat img) = (3 * 3)%nat.
Proof. exact (normalize_img_defined 3 3 1 corner_raw corner_raw_rect). Defined.

(** ** Identities and the order of enumeration *)

(** X9. The full enumeration never fails on a constructed dataset. It
    yields one record for each of the sorted distinct marker values but the
    first, in strictly increasing order of identity. *)
Theorem generator_ascending_identities (data_img : raw_image)
    (marker : image2 Z) (label : option (image2 Z)) (crop : Z) (ds : Dataset) :
  init data_img marker label crop = Ok ds ->
  exists records,
    generator ds = Ok records /\
    Py.dict_keys (patch_set ds) = drop 1 (Py.unique marker) /\
    StronglySorted Z.lt (Py.dict_keys (patch_set ds)) /\
    Forall2 (fun k p => (k, p) ∈ patch_set ds)
            (Py.dict_keys (patch_set ds)) records.
Proof.
  intros Hinit. exists (map snd (patch_set ds)).
  split; [by eapply generator_Ok|].
  pose proof (init_keys _ _ _ _ _ Hinit) as Hk.
  split; [done|]. split.
  - rewrite Hk. pose proof (unique_sorted marker) as Hs.
    destruct (Py.unique marker) as [|x l]; [constructor|].
    simpl. rewrite drop_0. by apply StronglySorted_inv in Hs as [? _].
  - unfold Py.dict_keys. apply Forall2_fmap, Forall_Forall2_diag, Forall_forall.
    by intros [k p] Hin.
Qed.

Lemma generator_ascending_identities_witness :
  exists records,
    generator corner_ds = Ok records /\
    Py.dict_keys (patch_set corner_ds) = drop 1 (Py.unique corner_marker) /\
    StronglySorted Z.lt (Py.dict_keys (patch_set corner_ds)) /\
    Forall2 (fun k p => (k, p) ∈ patch_set corner_ds)
            (Py.dict_keys (patch_set corner_ds)) records.
Proof.
  exact (generator_ascending_identities corner_raw corner_marker None 2
           corner_ds corner_init).
Defined.

(** X10. When the marker image has a background pixel and no negative
    value, the identities with a record are exactly the positive values of
    the marker image. *)
Theorem identities_are_positive_values (data_img : raw_image)
    (marker : image2 Z) (label : option (image2 Z)) (crop : Z) (ds : Dataset) :
  init data_img marker label crop = Ok ds ->
  0 ∈ concat marker -> Forall (Z.le 0) (concat marker) ->
  forall k, (exists p, (k, p) ∈ patch_set ds) <-> 0 < k /\ k ∈ concat marker.
Proof.
  intros Hinit H0 Hpos k.
  rewrite <- (init_keys_positive _ _ _ _ _ Hinit H0 Hpos k).
  unfold Py.dict_keys. rewrite list_elem_of_fmap. split.
  - intros [p Hin]. by exists (k, p).
  - intros [[k' p] [-> Hin]]. by exists p.
Qed.

Lemma identities_are_positive_values_witness :
  (exists p, (2, p) ∈ patch_set corner_ds) <-> 0 < 2 /\ 2 ∈ concat corner_marker.
Proof.
  apply (identities_are_positive_values corner_raw corner_marker None 2
           corner_ds corner_init).
  - vm_compute. apply list_elem_of_further, list_elem_of_here.
  - vm_compute. repeat constructor; discriminate.
Defined.

(** X11. With a crop size above [min(H, W)] every data tensor has fewer
    than [crop_size * crop_size * (C + 1)] elements, and along a dimension
    smaller than the crop size the stored coordinate lies between
    [dimension - crop_size] and [0]: it is never positive and may be
    negative. *)
Theorem oversized_crop_never_fits (data_img : raw_image) (marker : image2 Z)
    (label : option (image2 Z)) (crop : Z) (ds : Dataset) :
  wf_raw data_img -> wf2 marker ->
  init data_img marker label crop = Ok ds ->
  Z.min (Z.of_nat (length marker)) (Z.of_nat (length (hd [] marker))) < crop ->
  forall k p, (k, p) ∈ patch_set ds ->
    (numel (patch_data p)
     < Z.to_nat crop * Z.to_nat crop * (channels data_img + 1))%nat /\
    (Z.of_nat (length marker) < crop ->
     Z.of_nat (length marker) - crop <= (patch_coord p).1 <= 0) /\
    (Z.of_nat (length (hd [] marker)) < crop ->
     Z.of_nat (length (hd [] marker)) - crop <= (patch_coord p).2 <= 0).
Proof.
  intros Hraw Hmarker Hinit Hmin k p Hin.
  split; [by eapply init_patch_truncated|].
  apply init_patch_set in Hinit as (_ & _ & _ & _ & _ & Hps).
  apply Hps in Hin as (c0 & c1 & _ & -> & _)%make_patch_Ok. simpl.
  split; intros Hlt.
  - pose proof (sorted3_mid_bounds (c0 - crop / 2)
                  (Z.of_nat (length marker) - crop)). lia.
  - pose proof (sorted3_mid_bounds (c1 - crop / 2)
                  (Z.of_nat (length (hd [] marker)) - crop)). lia.
Qed.

Lemma tiny_record_1 : (1, record_of 1 tiny_ds) ∈ patch_set tiny_ds.
Proof. vm_compute. apply list_elem_of_here. Defined.

Lemma oversized_crop_never_fits_witness :
  (numel (patch_data (record_of 1 tiny_ds)) < 4 * 4 * 2)%nat /\
  (2 < 4 -> 2 - 4 <= (patch_coord (record_of 1 tiny_ds)).1 <= 0) /\
  (2 < 4 -> 2 - 4 <= (patch_coord (record_of 1 tiny_ds)).2 <= 0).
Proof.
  apply (oversized_crop_never_fits tiny_raw tiny_marker None 4 tiny_ds
           tiny_wf_raw tiny_wf_marker tiny_init) with (k := 1).
  - simpl. lia.
  - exact tiny_record_1.
Defined.

(** ** The centroid of an empty mask *)

(** empty mask *)
Lemma foldr_add_zeros (l : list Z) : Forall (eq 0) l -> foldr Z.add 0 l = 0.
Proof. induction 1 as [|x l <- _ IH]; [done|]. simpl. lia. Qed.

Lemma np_sum_zeros (l : list Z) : Forall (eq 0) l -> np_sum l = 0.
Proof. intros H. unfold np_sum. by rewrite foldr_add_zeros. Qed.

Lemma zip_with_mul_zeros (u v : list Z) :
  Forall (eq 0) u -> Forall (eq 0) (zip_with Z.mul u v).
Proof.
  intros H. eapply zip_with_Forall; [|exact H]. intros x y <-. simpl. lia.
Qed.

Lemma sum_axis1_false (mask : image2 bool) :
  Forall (Forall (eq false)) mask -> Forall (eq 0) (sum_axis1 mask).
Proof.
  intros H. unfold sum_axis1. apply Forall_fmap. eapply Forall_impl; [exact H|].
  intros row Hrow. simpl. symmetry. apply np_sum_zeros.
  apply Forall_fmap. eapply Forall_impl; [exact Hrow|]. by intros ? <-.
Qed.

Lemma sum_all_false (mask : image2 bool) :
  Forall (Forall (eq false)) mask -> sum_all mask = 0.
Proof.
  intros H. unfold sum_all. apply np_sum_zeros, Forall_fmap.
  apply Forall_concat in H. eapply Forall_impl; [exact H|]. by intros ? <-.
Qed.

(** X3. On a mask without a true pixel the centroid is [0 / 0]: the
    conversion of the NaN to an integer raises a [ValueError]. *)
Theorem center_of_mass_empty_mask_raises (mask : image2 bool) :
  Forall (Forall (eq false)) mask ->
  center_of_mass_as_int mask
  = Raise (ValueError "cannot convert float NaN to integer").
Proof.
  intros H. unfold center_of_mass_as_int, np_dot.
  rewrite (sum_all_false _ H).
  rewrite (np_sum_zeros _ (zip_with_mul_zeros _ _ (sum_axis1_false _ H))).
  reflexivity.
Qed.

Lemma center_of_mass_empty_mask_raises_witness :
  center_of_mass_as_int (eq_mask corner_marker 5)
  = Raise (ValueError "cannot convert float NaN to integer").
Proof.
  apply (center_of_mass_empty_mask_raises (eq_mask corner_marker 5)).
  vm_compute. repeat constructor.
Defined.

(** ** Placement *)

Lemma map_ext_keys {A B : Type} (f : Z * A -> B) (g : Z -> B) (l : list (Z * A)) :
  Forall (fun kp => f kp = g kp.1) l -> map f l = map g (map fst l).
Proof. induction 1 as [|kp l H _ IH]; [done|]. simpl. by rewrite H, IH. Qed.

Lemma window_length_rows {A B : Type} (c0 c1 size : Z) (a : list (list A))
    (b : list (list B)) :
  length a = length b ->
  Forall2 (fun r r' => length r = length r') a b ->
  Forall2 (fun r r' => length r = length r')
          (window c0 c1 size a) (window c0 c1 size b).
Proof.
  intros Hl H. unfold window. apply Forall2_fmap.
  unfold Py.slice. rewrite <- Hl.
  apply Forall2_take, Forall2_drop.
  eapply Forall2_impl; [exact H|]. intros r r' Hr. simpl.
  rewrite !length_take, !length_drop, Hr. done.
Qed.

Lemma mask_channel_concat_mask (a : image3 F32.t) (m : image2 bool) :
  Forall2 (fun r r' => length r = length r') a m ->
  mask_channel (concat_mask a m) = map (map (fun b => Some (F32.of_bool b))) m.
Proof.
  unfold mask_channel, concat_mask.
  induction 1 as [|row mrow a m Hrow _ IH]; [done|].
  simpl. rewrite IH. f_equal. by apply concat_mask_row.
Qed.

Lemma rect_Forall2_length {A B : Type} (d0 d1 : nat) (a : list (list A))
    (b : list (list B)) :
  rect2 d0 d1 a -> rect2 d0 d1 b ->
  Forall2 (fun r r' => length r = length r') a b.
Proof.
  intros [Ha Hra] [Hb Hrb]. apply Forall2_same_length_lookup_2.
  - lia.
  - intros i r r' Er Er'. rewrite Forall_forall in Hra.
    rewrite Forall_forall in Hrb.
    rewrite (Hra r), (Hrb r'); [done|by eapply list_elem_of_lookup_2..].
Qed.

(** X8. The identities, the window origins and the mask channels of the
    records depend on the marker image and the crop size only: two
    constructions over the same marker image agree on them, whatever the raw
    pixel values and the label images are. *)
Theorem placement_ignores_pixel_values (data_img data_img' : raw_image)
    (marker : image2 Z) (label label' : option (image2 Z)) (crop : Z)
    (ds ds' : Dataset) :
  wf_raw data_img -> wf_raw data_img' -> wf2 marker ->
  init data_img marker label crop = Ok ds ->
  init data_img' marker label' crop = Ok ds' ->
  placement ds = placement ds'.
Proof.
  intros Hraw Hraw' Hmarker Hinit Hinit'.
  set (f := fun k : Z =>
    match make_patch (img ds) marker label crop k with
    | Ok p => (k, patch_coord p, mask_channel (patch_data p))
    | Raise _ => (k, (0, 0), [])
    end).
  assert (forall (data : raw_image) (lab : option (image2 Z)) (d : Dataset),
            wf_raw data ->
            init data marker lab crop = Ok d ->
            placement d = map f (drop 1 (Py.unique marker))) as Hpl.
  { intros data lab d Hwf Hd. rewrite <- (init_keys _ _ _ _ _ Hd).
    unfold placement, Py.dict_keys. apply map_ext_keys, Forall_forall.
    intros [k p] Hin. simpl.
    pose proof (init_img_shape _ _ _ _ _ Hraw Hmarker Hinit) as (_ & _ & Hr & _).
    pose proof (init_img_shape _ _ _ _ _ Hwf Hmarker Hd) as (_ & _ & Hr' & _).
    pose proof (init_patch_set _ _ _ _ _ Hd) as (_ & _ & _ & _ & _ & Hps).
    pose proof (Hps _ _ Hin) as Hp.
    pose proof Hp as (c0 & c1 & Hc & Hcoord & Hdata & _)%make_patch_Ok.
    unfold f, make_patch. rewrite Hc. simpl.
    set (w0 := Py.sorted3_mid 0 (c0 - crop / 2)
                 (Z.of_nat (length marker) - crop)) in *.
    set (w1 := Py.sorted3_mid 0 (c1 - crop / 2)
                 (Z.of_nat (length (hd [] marker)) - crop)) in *.
    assert (forall im : image3 F32.t,
              rect3 (length marker) (length (hd [] marker)) 1 im ->
              mask_channel (concat_mask (window w0 w1 crop im)
                              (eq_mask (window w0 w1 crop marker) k))
              = map (map (fun b => Some (F32.of_bool b)))
                    (eq_mask (window w0 w1 crop marker) k)) as Hmask.
    { intros im Him. apply mask_channel_concat_mask.
      unfold eq_mask. apply Forall2_fmap_r.
      eapply Forall2_impl.
      - apply window_length_rows.
        + destruct Him as [-> _]. done.
        + eapply rect_Forall2_length; [by eapply rect3_rect2|done].
      - intros r r' Hr0. simpl. by rewrite length_map. }
    rewrite Hcoord, Hdata, (Hmask _ Hr'). 
    destruct label; simpl; by rewrite (Hmask _ Hr). }
  rewrite (Hpl _ _ _ Hraw Hinit), (Hpl _ _ _ Hraw' Hinit'). done.
Qed.

Lemma repainted_wf_raw : wf_raw repainted_raw.
Proof. split; [reflexivity | repeat constructor]. Defined.

Lemma repainted_init :
  init repainted_raw corner_marker (Some corner_label) 2 = Ok repainted_ds.
Proof. vm_compute. reflexivity. Defined.

Lemma placement_ignores_pixel_values_witness :
  placement corner_ds = placement repainted_ds.
Proof.
  exact (placement_ignores_pixel_values corner_raw repainted_raw corner_marker
           None (Some corner_label) 2 corner_ds repainted_ds
           corner_wf_raw repainted_wf_raw corner_wf_marker
           corner_init repainted_init).
Defined.

(** ** Local-area sampling: errors and outcome *)

(** X18. When [area_size + crop_size] reaches the height or the width of the
    image, the first turn of the local-area generator raises the
    [ValueError] of the random source, and so does every prefix of the
    sequence. With the default area of 640 this is the case of every image
    below [640 + crop_size] rows or columns. *)
Theorem within_area_raises_without_room {G : Type} `{RandomSourceOk G}
    (self : Dataset) (area_size : Z) (rng : G) :
  Z.of_nat (length (marker_img self)) - area_size - crop_size self <= 0 \/
  Z.of_nat (length (hd [] (marker_img self))) - area_size - crop_size self <= 0 ->
  exists msg,
    within_area_draw self area_size rng = Raise (ValueError msg) /\
    forall n,
      generator_within_area (S n) self area_size rng = Raise (ValueError msg).
Proof.
  intros Hroom.
  assert (exists msg, within_area_draw self area_size rng
                      = Raise (ValueError msg)) as [msg Hmsg].
  { unfold within_area_draw.
    destruct (Z.le_gt_cases
                (Z.of_nat (length (marker_img self)) - area_size
                 - crop_size self) 0) as [Hd0|Hd0].
    - destruct (rng_integers_nonpos rng _ Hd0) as [msg ->]. by exists msg.
    - destruct Hroom as [?|Hd1]; [lia|].
      pose proof (rng_integers_pos rng _ Hd0) as Hok.
      destruct (rng_integers rng _) as [[a0 g0]|e]; [|done]. simpl.
      destruct (rng_integers_nonpos g0 _ Hd1) as [msg ->]. by exists msg. }
  exists msg. split; [done|]. intros n. simpl. by rewrite Hmsg.
Qed.

Lemma within_area_raises_without_room_witness :
  exists msg,
    within_area_draw corner_ds 640 (0%nat : counter_rng)
    = Raise (ValueError msg) /\
    forall n,
      generator_within_area (S n) corner_ds 640 (0%nat : counter_rng)
      = Raise (ValueError msg).
Proof.
  apply (@within_area_raises_without_room counter_rng _ counter_rng_ok
           corner_ds 640 0%nat).
  left. vm_compute. discriminate.
Defined.

(** X19. A turn of the local-area generator that returns never yields an
    empty sample: it holds at least one data tensor, as many coordinates as
    tensors, and every tensor is the data tensor of a stored record. *)
Theorem within_area_draw_never_empty {G : Type} `{RandomSourceOk G}
    (data_img : raw_image) (marker : image2 Z) (label : option (image2 Z))
    (crop : Z) (ds : Dataset) (area_size : Z) (rng rng' : G) (x : sample) :
  init data_img marker label crop = Ok ds ->
  within_area_draw ds area_size rng = Ok (x, rng') ->
  x.1 <> [] /\ length x.1 = length x.2 /\
  Forall (fun d => exists k p, (k, p) ∈ patch_set ds /\ d = patch_data p) x.1.
Proof.
  intros Hinit Hdraw.
  pose proof (init_patch_set _ _ _ _ _ Hinit) as (_ & _ & _ & _ & Hnd & _).
  destruct (within_area_draw_inv _ _ _ _ _ Hnd Hdraw)
    as (a0 & a1 & g0 & _ & _ & Hne & ->). simpl.
  split; [by destruct (filter _ _)|]. split; [by rewrite !length_map|].
  apply Forall_fmap, Forall_forall. intros [k p] Hin%list_elem_of_filter.
  exists k, p. by destruct Hin.
Qed.

Lemma area_first_draw_eq :
  within_area_draw area_ds 4 (0%nat : counter_rng)
  = Ok (area_first_draw, 2%nat).
Proof. vm_compute. reflexivity. Defined.

Lemma within_area_draw_never_empty_witness :
  area_first_draw.1 <> [] /\
  length area_first_draw.1 = length area_first_draw.2 /\
  Forall (fun d => exists k p, (k, p) ∈ patch_set area_ds /\ d = patch_data p)
         area_first_draw.1.
Proof.
  exact (@within_area_draw_never_empty counter_rng _ counter_rng_ok
           area_raw area_marker None 2 area_ds 4 0%nat 2%nat area_first_draw
           area_init area_first_draw_eq).
Defined.





(** ** Binary64 arithmetic *)

Lemma fexp64_eq (e : Z) : fexp64 e = Z.max (e - 53) (-1074).
Proof. reflexivity. Qed.

Lemma shr_fexp_spec64 (m e : Z) (l : location) :
  0 <= m ->
  shr_m (shr_fexp F64.prec F64.emax m e l).1
  = m / 2 ^ Z.max (fexp64 (Zdigits2 m + e) - e) 0 /\
  (shr_fexp F64.prec F64.emax m e l).2
  = e + Z.max (fexp64 (Zdigits2 m + e) - e) 0.
Proof.
  intros Hm. unfold shr_fexp.
  pose proof (shr_spec (shr_record_of_loc m l) e
                (fexp64 (Zdigits2 m + e) - e)) as H.
  rewrite shr_record_of_loc_m in H. by apply H.
Qed.

Lemma binary_round_aux_spec64 (sx : bool) (mx ex : Z) (lx : location) :
  0 <= mx ->
  exists m2 m3 e1 e2,
    e1 = ex + Z.max (fexp64 (Zdigits2 mx + ex) - ex) 0 /\
    mx / 2 ^ (e1 - ex) <= m2 <= mx / 2 ^ (e1 - ex) + 1 /\
    e2 = e1 + Z.max (fexp64 (Zdigits2 m2 + e1) - e1) 0 /\
    m3 = m2 / 2 ^ (e2 - e1) /\
    binary_round_aux F64.prec F64.emax sx mx ex lx
    = match m3 with
      | 0 => S754_zero sx
      | Z.pos m => if e2 <=? 971 then S754_finite sx m e2
                   else S754_infinity sx
      | Z.neg _ => S754_nan
      end.
Proof.
  intros Hmx. unfold binary_round_aux.
  pose proof (shr_fexp_spec64 mx ex lx Hmx) as [Hm1 He1].
  destruct (shr_fexp F64.prec F64.emax mx ex lx) as [mrs1 e1]. simpl in *.
  set (m2 := round_nearest_even (shr_m mrs1) (loc_of_shr_record mrs1)).
  pose proof (round_nearest_even_bound (shr_m mrs1) (loc_of_shr_record mrs1))
    as Hm2. fold m2 in Hm2.
  assert (0 <= shr_m mrs1) as Hm1pos.
  { rewrite Hm1. apply Z.div_pos; [done|]. apply Z.pow_pos_nonneg; lia. }
  pose proof (shr_fexp_spec64 m2 e1 loc_Exact ltac:(lia)) as [Hm3 He2].
  destruct (shr_fexp F64.prec F64.emax m2 e1 loc_Exact) as [mrs2 e2].
  simpl in *.
  exists m2, (shr_m mrs2), e1, e2.
  split; [done|].
  replace (e1 - ex) with (Z.max (fexp64 (Zdigits2 mx + ex) - ex) 0) by lia.
  rewrite <- Hm1. split; [done|]. split; [done|].
  replace (e2 - e1) with (Z.max (fexp64 (Zdigits2 m2 + e1) - e1) 0) by lia.
  split; [done|]. done.
Qed.

(** Rounding a mantissa of at least 53 digits in the normal range: the
    result is finite, and at the scale of the input exponent it lies in the
    interval of the two neighbours of the shifted mantissa. *)
Lemma binary_round_aux_near64 (sx : bool) (mx ex : Z) (lx : location) :
  0 < mx ->
  53 <= Zdigits2 mx -> -1021 <= Zdigits2 mx + ex <= 1023 ->
  exists (m : positive) (e k : Z),
    binary_round_aux F64.prec F64.emax sx mx ex lx = S754_finite sx m e /\
    k = Zdigits2 mx - 53 /\ ex + k <= e <= ex + k + 1 /\
    mx / 2 ^ k * 2 ^ k <= Z.pos m * 2 ^ (e - ex) <= (mx / 2 ^ k + 1) * 2 ^ k.
Proof.
  intros Hmx Hd HD.
  destruct (binary_round_aux_spec64 sx mx ex lx ltac:(lia))
    as (m2 & m3 & e1 & e2 & He1 & Hm2 & He2 & Hm3 & ->).
  rewrite fexp64_eq in He1.
  set (k := Zdigits2 mx - 53) in *.
  assert (e1 = ex + k) as -> by lia.
  replace (ex + k - ex) with k in * by lia.
  assert (0 <= k) as Hk by lia.
  pow_pos k.
  assert (0 < mx / 2 ^ k) as Hm1pos.
  { apply Z.div_str_pos. split; [lia|].
    pose proof (Zdigits2_lower mx Hmx) as Hlo.
    apply Z.le_trans with (2 ^ (Zdigits2 mx - 1)); [|done].
    apply Z.pow_le_mono_r; lia. }
  pose proof (Zdigits2_shiftr mx k Hmx Hk Hm1pos) as Hd1.
  replace (Zdigits2 mx - k) with 53 in Hd1 by lia.
  assert (mx / 2 ^ k < 2 ^ 53) as Hm1hi
    by (apply Zdigits2_le_iff; lia).
  assert (2 ^ 52 <= mx / 2 ^ k) as Hm1lo.
  { pose proof (Zdigits2_lower _ Hm1pos) as Hlo. by rewrite Hd1 in Hlo. }
  destruct (Z.eq_dec m2 (2 ^ 53)) as [E|NE].
  - (* the mantissa carries into the next binade *)
    subst m2. change (Zdigits2 (2 ^ 53)) with 54 in He2.
    rewrite fexp64_eq in He2.
    assert (e2 = ex + k + 1) as -> by lia.
    replace (ex + k + 1 - (ex + k)) with 1 in Hm3 by lia.
    change (2 ^ 53 / 2 ^ 1) with (2 ^ 52) in Hm3. subst m3.
    change (2 ^ 52) with (Z.pos (2 ^ 52)%positive) at 1. cbv iota.
    destruct (Z.leb_spec (ex + k + 1) 971); [|lia].
    exists (2 ^ 52)%positive, (ex + k + 1), k.
    split; [done|]. split; [done|]. split; [lia|].
    replace (ex + k + 1 - ex) with (1 + k) by lia.
    rewrite Z.pow_add_r by lia.
    rewrite Z.mul_assoc.
    change (Z.pos (2 ^ 52) * 2 ^ 1) with (2 ^ 53).
    split; apply Z.mul_le_mono_nonneg_r; lia.
  - assert (2 ^ 52 <= m2 < 2 ^ 53) as Hm2r by lia.
    assert (Zdigits2 m2 = 53) as Hd2.
    { apply Z.le_antisymm.
      - apply Zdigits2_le_iff; lia.
      - pose proof (Zdigits2_mono (2 ^ 52) m2 ltac:(lia) ltac:(lia)) as H'.
        change (Zdigits2 (2 ^ 52)) with 53 in H'. done. }
    rewrite Hd2, fexp64_eq in He2.
    assert (e2 = ex + k) as -> by lia.
    rewrite Z.sub_diag in Hm3. rewrite Z.div_1_r in Hm3. subst m3.
    destruct m2 as [|m|m]; [lia| |lia].
    destruct (Z.leb_spec (ex + k) 971); [|lia].
    exists m, (ex + k), k.
    split; [done|]. split; [done|]. split; [lia|].
    replace (ex + k - ex) with k by lia.
    split; apply Z.mul_le_mono_nonneg_r; lia.
Qed.

(** A mantissa that needs no shift is kept as it is. *)
Lemma binary_round_aux_exact64 (sx : bool) (m : positive) (e : Z) :
  fexp64 (Zdigits2 (Z.pos m) + e) <= e -> e <= 971 ->
  binary_round_aux F64.prec F64.emax sx (Z.pos m) e loc_Exact
  = S754_finite sx m e.
Proof.
  intros Hf He. unfold binary_round_aux, shr_fexp.
  assert (forall mrs : shr_record,
            shr mrs e (fexp64 (Zdigits2 (Z.pos m) + e) - e) = (mrs, e)) as Hshr.
  { intros mrs. unfold shr.
    destruct (fexp64 (Zdigits2 (Z.pos m) + e) - e) eqn:E; [done|lia|done]. }
  rewrite Hshr. cbn [shr_record_of_loc loc_of_shr_record shr_m
                     round_nearest_even].
  rewrite Hshr. cbn [shr_m].
  change (F64.emax - F64.prec) with 971.
  destruct (Z.leb_spec e 971); [done|lia].
Qed.

(** An integer below [2 ^ 53] converts exactly, to a mantissa of 53
    digits. *)
Lemma of_Z_exact (n : Z) :
  0 < n < 2 ^ 53 ->
  exists (m : positive) (e : Z),
    F64.of_Z n = S754_finite false m e /\
    Zdigits2 (Z.pos m) = 53 /\ -52 <= e <= 0 /\ Z.pos m = n * 2 ^ (- e).
Proof.
  intros Hn. destruct n as [|p|p]; [lia| |lia].
  unfold F64.of_Z, binary_normalize, binary_round.
  change (Z.pos (digits2_pos p)) with (Zdigits2 (Z.pos p)).
  set (d := Zdigits2 (Z.pos p)).
  assert (1 <= d <= 53) as Hd.
  { split; [unfold d; simpl; lia|].
    apply Zdigits2_le_iff; lia. }
  rewrite Z.add_0_r. rewrite fexp64_eq.
  replace (Z.max (d - 53) (-1074)) with (d - 53) by lia.
  pose proof (shl_align_spec p 0 (d - 53)) as [Hmz Hez].
  destruct (shl_align p 0 (d - 53)) as [mz ez]. simpl in Hmz, Hez.
  replace (Z.min 0 (d - 53)) with (d - 53) in * by lia.
  subst ez.
  assert (Zdigits2 (Z.pos mz) = 53) as Hdz.
  { rewrite Hmz, Zdigits2_mul_pow2 by lia. fold d. lia. }
  rewrite binary_round_aux_exact64.
  - exists mz, (d - 53). split; [done|]. split; [done|]. split; [lia|].
    rewrite Hmz. by replace (0 - (d - 53)) with (- (d - 53)) by lia.
  - rewrite Hdz, fexp64_eq. lia.
  - lia.
Qed.

Lemma div_pow2_bounds (q k : Z) :
  0 <= q -> 0 <= k <= 1 ->
  q - 1 <= q / 2 ^ k * 2 ^ k /\ (q / 2 ^ k + 1) * 2 ^ k <= q + 2.
Proof.
  intros Hq Hk. assert (k = 0 \/ k = 1) as [-> | ->] by lia.
  - rewrite Z.pow_0_r, Z.div_1_r. lia.
  - rewrite Z.pow_1_r.
    pose proof (Z.div_mod q 2 ltac:(lia)).
    pose proof (Z.mod_pos_bound q 2 ltac:(lia)). lia.
Qed.

(** The quotient of two positive floats with full mantissas: the result is
    finite and, at the scale [ea - eb - 53], within two units of the integer
    quotient of the mantissas. *)
Lemma div_near64 (ma mb : positive) (ea eb : Z) :
  Zdigits2 (Z.pos ma) = 53 -> Zdigits2 (Z.pos mb) = 53 ->
  -52 <= ea <= 0 -> -52 <= eb <= 0 ->
  exists (m : positive) (e : Z),
    F64.div (S754_finite false ma ea) (S754_finite false mb eb)
    = S754_finite false m e /\
    ea - eb - 53 <= e <= ea - eb - 51 /\
    2 ^ 52 <= Z.pos ma * 2 ^ 53 / Z.pos mb /\
    Z.pos ma * 2 ^ 53 / Z.pos mb - 1
    <= Z.pos m * 2 ^ (e - (ea - eb - 53))
    <= Z.pos ma * 2 ^ 53 / Z.pos mb + 2.
Proof.
  intros Hda Hdb Hea Heb.
  unfold F64.div, SFdiv, SFdiv_core_binary.
  rewrite Hda, Hdb.
  replace (53 + ea - (53 + eb)) with (ea - eb) by lia.
  change (fexp F64.prec F64.emax (ea - eb)) with (fexp64 (ea - eb)).
  rewrite fexp64_eq.
  replace (Z.min (Z.max (ea - eb - 53) (-1074)) (ea - eb))
    with (ea - eb - 53) by lia.
  replace (ea - eb - (ea - eb - 53)) with 53 by lia.
  cbv beta iota. rewrite Z.shiftl_mul_pow2 by lia.
  rewrite div_eucl_div_mod.
  set (q := Z.pos ma * 2 ^ 53 / Z.pos mb).
  assert (Z.pos ma < 2 ^ 53) as Hahi by (apply Zdigits2_le_iff; lia).
  assert (Z.pos mb < 2 ^ 53) as Hbhi by (apply Zdigits2_le_iff; lia).
  pose proof (Zdigits2_lower (Z.pos ma) ltac:(lia)) as Halo.
  pose proof (Zdigits2_lower (Z.pos mb) ltac:(lia)) as Hblo.
  rewrite Hda in Halo. rewrite Hdb in Hblo.
  change (2 ^ (53 - 1)) with (2 ^ 52) in *.
  assert (2 ^ 52 <= q < 2 ^ 54) as Hq.
  { unfold q. split.
    - apply Z.div_le_lower_bound; [lia|].
      change (2 ^ 53) with (2 * 2 ^ 52) in *. lia.
    - apply Z.div_lt_upper_bound; [lia|].
      change (2 ^ 54) with (2 * 2 ^ 53). lia. }
  assert (53 <= Zdigits2 q <= 54) as Hdq.
  { split.
    - pose proof (Zdigits2_mono (2 ^ 52) q ltac:(lia) ltac:(lia)) as H'.
      change (Zdigits2 (2 ^ 52)) with 53 in H'. done.
    - apply Zdigits2_le_iff; lia. }
  destruct (binary_round_aux_near64 (xorb false false) q (ea - eb - 53)
              (new_location (Z.pos mb) (Z.pos ma * 2 ^ 53 mod Z.pos mb)))
    as (m & e & k & -> & Hk & He & Hm); [lia..|].
  exists m, e. split; [done|]. split; [lia|]. split; [lia|].
  destruct (div_pow2_bounds q k) as [Hlo Hhi]; lia.
Qed.

Lemma floor_pow2_bounds (x k : Z) :
  0 <= x -> 0 <= k ->
  x - 2 ^ k <= x / 2 ^ k * 2 ^ k /\ (x / 2 ^ k + 1) * 2 ^ k <= x + 2 ^ k.
Proof.
  intros Hx Hk. pow_pos k.
  pose proof (Z.div_mod x (2 ^ k) ltac:(lia)).
  pose proof (Z.mod_pos_bound x (2 ^ k) ltac:(lia)). lia.
Qed.

Lemma rescale_near (x m c T E : Z) :
  0 < T -> m - c <= x <= m + c -> c * T <= E ->
  m * T - E <= x * T <= m * T + E.
Proof.
  intros HT Hx HE.
  pose proof (Z.mul_le_mono_nonneg_r (m - c) x T ltac:(lia) ltac:(lia)).
  pose proof (Z.mul_le_mono_nonneg_r x (m + c) T ltac:(lia) ltac:(lia)).
  lia.
Qed.

(** Adding one half to a positive float below [2 ^ 28]: the result is finite
    with a negative exponent and, in units of [2 ^ -128], within [2 ^ 104]
    of the exact sum. *)
Lemma add_half_near64 (m : positive) (e : Z) :
  -105 <= e -> Zdigits2 (Z.pos m) + e <= 28 ->
  exists (m' : positive) (e' : Z),
    F64.add (S754_finite false m e) F64.half = S754_finite false m' e' /\
    -53 <= e' <= -23 /\
    Z.pos m * 2 ^ (e + 128) + 2 ^ 127 - 2 ^ 104
    <= Z.pos m' * 2 ^ (e' + 128)
    <= Z.pos m * 2 ^ (e + 128) + 2 ^ 127 + 2 ^ 104.
Proof.
  intros He Hd.
  assert (1 <= Zdigits2 (Z.pos m)) as Hd1 by (simpl; lia).
  unfold F64.add, F64.half, SFadd.
  set (ez := Z.min e (-53)).
  pose proof (shl_align_spec m e ez) as [Hm1 _].
  pose proof (shl_align_spec 4503599627370496 (-53) ez) as [Hm2 _].
  replace (Z.min e ez) with ez in Hm1 by lia.
  replace (Z.min (-53) ez) with ez in Hm2 by lia.
  cbn [cond_Zopp].
  set (z := Z.pos (shl_align m e ez).1
            + Z.pos (shl_align 4503599627370496 (-53) ez).1).
  assert (z = Z.pos m * 2 ^ (e - ez) + 2 ^ 52 * 2 ^ (-53 - ez)) as Hz
    by (unfold z; rewrite Hm1, Hm2; done).
  clearbody z. clear Hm1 Hm2.
  pow_pos (e - ez). pow_pos (-53 - ez).
  assert (0 < z) as Hzpos by (rewrite Hz; lia).
  destruct z as [|pz|pz]; [lia| |lia].
  unfold binary_normalize, binary_round.
  change (Z.pos (digits2_pos pz)) with (Zdigits2 (Z.pos pz)).
  set (D := Zdigits2 (Z.pos pz) + ez).
  (* the magnitude of the sum *)
  assert (Z.pos pz * 2 ^ (ez + 128)
          = Z.pos m * 2 ^ (e + 128) + 2 ^ 127) as HV.
  { rewrite Hz, Z.mul_add_distr_r, <- !Z.mul_assoc, <- !Z.pow_add_r by lia.
    replace (e - ez + (ez + 128)) with (e + 128) by lia.
    replace (-53 - ez + (ez + 128)) with 75 by lia.
    f_equal. }
  assert (0 <= D <= 29) as HD.
  { unfold D. split.
    - assert (2 ^ (-1 - ez) <= Z.pos pz) as Hlo.
      { rewrite Hz. replace (-1 - ez) with (52 + (-53 - ez)) by lia.
        rewrite Z.pow_add_r by lia. lia. }
      assert (0 < 2 ^ (-1 - ez)) as Hpos by (apply Z.pow_pos_nonneg; lia).
      pose proof (Zdigits2_mono _ _ Hpos Hlo) as H'.
      rewrite (Zdigits2_log2 _ Hpos) in H'.
      rewrite Z.log2_pow2 in H' by lia. lia.
    - assert (Zdigits2 (Z.pos pz) <= 29 - ez); [|lia].
      apply Zdigits2_le_iff; [lia|lia|].
      assert (Z.pos m < 2 ^ (28 - e)) as Hm
        by (apply Zdigits2_le_iff; lia).
      rewrite Hz.
      assert (Z.pos m * 2 ^ (e - ez) < 2 ^ (28 - ez)) as H1.
      { replace (28 - ez) with (28 - e + (e - ez)) by lia.
        rewrite Z.pow_add_r by lia. by apply Z.mul_lt_mono_pos_r. }
      assert (2 ^ 52 * 2 ^ (-53 - ez) < 2 ^ (28 - ez)) as H2.
      { rewrite <- Z.pow_add_r by lia. apply Z.pow_lt_mono_r; lia. }
      replace (29 - ez) with (1 + (28 - ez)) by lia.
      rewrite Z.pow_add_r by lia. lia. }
  rewrite fexp64_eq. replace (Z.max (D - 53) (-1074)) with (D - 53) by lia.
  pose proof (shl_align_spec pz ez (D - 53)) as [Hmz Hez].
  destruct (shl_align pz ez (D - 53)) as [mz ez']. simpl in Hmz, Hez.
  subst ez'. set (ez' := Z.min ez (D - 53)) in *.
  assert (Zdigits2 (Z.pos mz) = D - ez') as Hdz.
  { rewrite Hmz, Zdigits2_mul_pow2 by lia. unfold D. lia. }
  destruct (binary_round_aux_near64 false (Z.pos mz) ez' loc_Exact)
    as (m' & e' & k & -> & Hk & He' & Hm'); [lia|lia|lia|].
  exists m', e'. split; [done|]. split; [lia|].
  rewrite Hdz in Hk.
  destruct (floor_pow2_bounds (Z.pos mz) k) as [Hlo Hhi]; [lia|lia|].
  assert (Z.pos mz - 2 ^ k <= Z.pos m' * 2 ^ (e' - ez') <= Z.pos mz + 2 ^ k)
    as Hnear by lia.
  clear Hlo Hhi Hm'.
  (* rescale to units of 2 ^ -128 *)
  pow_pos (ez' + 128).
  assert (Z.pos m' * 2 ^ (e' + 128)
          = Z.pos m' * 2 ^ (e' - ez') * 2 ^ (ez' + 128)) as ->.
  { rewrite <- Z.mul_assoc, <- Z.pow_add_r by lia. do 2 f_equal. lia. }
  assert (Z.pos mz * 2 ^ (ez' + 128) = Z.pos pz * 2 ^ (ez + 128)) as Hmz'.
  { rewrite Hmz, <- Z.mul_assoc, <- Z.pow_add_r by lia. do 2 f_equal. lia. }
  assert (2 ^ k * 2 ^ (ez' + 128) <= 2 ^ 104) as Herr.
  { rewrite <- Z.pow_add_r by lia. apply Z.pow_le_mono_r; lia. }
  rewrite <- HV, <- Hmz'.
  apply (rescale_near _ _ (2 ^ k)); [lia|exact Hnear|exact Herr].
Qed.

(** [int(n / s + .5)] of two exactly representable integers whose quotient
    lies between the integers [A] and [B]: the computation returns, and its
    result lies between [A] and [B] as well. *)
Lemma round_half_bounds (n s A B : Z) :
  0 <= n < 2 ^ 53 -> 0 < s < 2 ^ 53 -> B < 2 ^ 27 ->
  A * s <= n <= B * s ->
  exists c, round_half n s = Ok c /\ A <= c <= B.
Proof.
  intros Hn Hs HB HAB. unfold round_half.
  destruct (of_Z_exact s Hs) as (mb & eb & -> & Hdb & Heb & Hmb).
  destruct (Z.eq_dec n 0) as [->|Hn0].
  { exists 0. split; [reflexivity|]. nia. }
  destruct (of_Z_exact n ltac:(lia)) as (ma & ea & -> & Hda & Hea & Hma).
  destruct (div_near64 ma mb ea eb Hda Hdb Hea Heb)
    as (m & e & -> & He & Hq52 & Hm).
  set (e0 := ea - eb - 53) in *.
  set (q := Z.pos ma * 2 ^ 53 / Z.pos mb) in *.
  set (P := 2 ^ (- e0)).
  assert (0 < P) as HP by (apply Z.pow_pos_nonneg; lia).
  pow_pos (- ea). pow_pos (- eb).
  assert (P * 2 ^ (- eb) = 2 ^ (- ea) * 2 ^ 53) as HPe.
  { unfold P. rewrite <- !Z.pow_add_r by lia. f_equal. lia. }
  assert (A * P <= q <= B * P) as HqAB.
  { unfold q. split.
    - apply Z.div_le_lower_bound; [lia|].
      rewrite Hma, Hmb.
      replace (Z.pos mb) with (s * 2 ^ (- eb)) by done.
      transitivity (A * s * (P * 2 ^ (- eb))); [lia|].
      rewrite HPe. nia.
    - apply Z.div_le_upper_bound; [lia|].
      rewrite Hma, Hmb.
      transitivity (B * s * (P * 2 ^ (- eb))); [|lia].
      rewrite HPe. nia. }
  assert (0 <= B) as HB0 by nia.
  assert (e0 <= -26) as He0.
  { assert (2 ^ 52 < 2 ^ 27 * P) as Hlt by nia.
    unfold P in Hlt. rewrite <- Z.pow_add_r in Hlt by lia.
    apply Z.pow_lt_mono_r_iff in Hlt; lia. }
  assert (Zdigits2 (Z.pos m) + e <= 28) as Hdm.
  { assert (Zdigits2 (Z.pos m * 2 ^ (e - e0)) <= 28 - e0) as H'.
    { apply Zdigits2_le_iff; [|lia|].
      - pow_pos (e - e0). lia.
      - replace (28 - e0) with (28 + - e0) by lia.
        rewrite Z.pow_add_r by lia. fold P.
        assert (4 <= P).
        { unfold P. change 4 with (2 ^ 2). apply Z.pow_le_mono_r; lia. }
        change (2 ^ 28) with (2 * 2 ^ 27). nia. }
    rewrite Zdigits2_mul_pow2 in H' by lia. lia. }
  destruct (add_half_near64 m e ltac:(lia) Hdm) as (m' & e' & -> & He' & HV).
  unfold F64.to_int. destruct (Z.leb_spec 0 e') as [?|_]; [lia|].
  rewrite Z.shiftr_div_pow2 by lia.
  eexists. split; [reflexivity|].
  (* in units of 2 ^ -128 *)
  set (U := 2 ^ (e0 + 128)).
  assert (0 < U) as HS by (apply Z.pow_pos_nonneg; lia).
  assert (P * U = 2 ^ 128) as HPS.
  { unfold P, U. rewrite <- Z.pow_add_r by lia. f_equal. lia. }
  assert (U <= 2 ^ 102) as HS100 by (apply Z.pow_le_mono_r; lia).
  assert (Z.pos m * 2 ^ (e + 128) = Z.pos m * 2 ^ (e - e0) * U) as HVm.
  { unfold U. rewrite <- Z.mul_assoc, <- Z.pow_add_r by lia.
    do 2 f_equal. lia. }
  assert (A * 2 ^ 128 - U <= Z.pos m * 2 ^ (e + 128) <= B * 2 ^ 128 + 2 * U)
    as HVb.
  { rewrite HVm, <- HPS. nia. }
  assert (Z.pos m' / 2 ^ (- e')
          = Z.pos m' * 2 ^ (e' + 128) / 2 ^ 128) as ->.
  { replace (2 ^ 128) with (2 ^ (- e') * 2 ^ (e' + 128)).
    2:{ rewrite <- Z.pow_add_r by lia. f_equal. lia. }
    rewrite Z.div_mul_cancel_r; [done| |];
      apply Z.pow_nonzero; lia. }
  change (2 ^ 127) with 170141183460469231731687303715884105728 in HV.
  change (2 ^ 104) with 20282409603651670423947251286016 in HV.
  change (2 ^ 102) with 5070602400912917605986812821504 in HS100.
  change (2 ^ 128) with 340282366920938463463374607431768211456 in *.
  split.
  - apply Z.div_le_lower_bound; lia.
  - assert (Z.pos m' * 2 ^ (e' + 128)
              / 340282366920938463463374607431768211456 < B + 1); [|lia].
    apply Z.div_lt_upper_bound; lia.
Qed.

(** ** Exact sums *)

Lemma wrap64_id (x : Z) : - 2 ^ 63 <= x < 2 ^ 63 -> wrap64 x = x.
Proof.
  intros Hx. unfold wrap64. rewrite Z.mod_small; [lia|].
  change (2 ^ 64) with (2 * 2 ^ 63). lia.
Qed.

Lemma total_app (l k : list Z) : total (l ++ k) = total l + total k.
Proof. unfold total. induction l as [|x l IH]; simpl; lia. Qed.

Lemma count_bounds (row : list bool) : 0 <= count row <= Z.of_nat (length row).
Proof.
  unfold count, total. induction row as [|b row IH]; simpl; [lia|].
  destruct b; simpl; lia.
Qed.

Lemma count_concat (mask : image2 bool) :
  count (concat mask) = total (map count mask).
Proof.
  unfold count. induction mask as [|row mask IH]; [done|].
  simpl. rewrite map_app, total_app, IH. done.
Qed.

Lemma count_pos_true (row : list bool) :
  count row <> 0 -> exists j, row !! j = Some true.
Proof.
  induction row as [|b row IH]; [done|].
  destruct b; [by exists 0%nat|].
  intros H. destruct IH as [j Hj]; [done|]. by exists (S j).
Qed.

Lemma count_true_pos (row : list bool) (j : nat) :
  row !! j = Some true -> 0 < count row.
Proof.
  revert j. induction row as [|b row IH]; intros [|j]; try done.
  - intros [= ->]. pose proof (count_bounds row). unfold count, total in *.
    simpl. lia.
  - intros H%IH. unfold count, total in *. simpl. destruct b; simpl; lia.
Qed.

(** A weighted sum of non-negative counts lies between the smallest and
    the largest weight of a non-zero count, times the total. *)
Lemma weighted_total_bounds (cs : list Z) (k : nat) (lo hi : Z) :
  (forall i c, cs !! i = Some c ->
     0 <= c /\ (c <> 0 -> lo <= Z.of_nat (k + i) <= hi)) ->
  lo * total cs
  <= total (zip_with Z.mul cs (map Z.of_nat (seq k (length cs))))
  <= hi * total cs.
Proof.
  revert k. induction cs as [|c cs IH]; intros k H; [simpl; lia|].
  destruct (H 0%nat c eq_refl) as [Hc Hk]. rewrite Nat.add_0_r in Hk.
  specialize (IH (S k)).
  destruct IH as [IHlo IHhi].
  { intros i c' Hi. specialize (H (S i) c' Hi).
    by replace (S k + i)%nat with (k + S i)%nat by lia. }
  unfold total in *. simpl.
  destruct (Z.eq_dec c 0) as [->|Hc0]; [lia|].
  specialize (Hk Hc0). nia.
Qed.

Lemma total_zip_add (row : list bool) (cs w : list Z) :
  length row = length cs ->
  total (zip_with Z.mul (zip_with (fun (b : bool) c => Z.b2z b + c) row cs) w)
  = total (zip_with Z.mul (map Z.b2z row) w) + total (zip_with Z.mul cs w).
Proof.
  revert cs w. induction row as [|b row IH]; intros [|c cs] w Hl; try done.
  destruct w as [|x w]; [done|]. simpl in Hl.
  unfold total in *. simpl. rewrite IH by lia. lia.
Qed.

Lemma total_zeros (n : nat) (w : list Z) :
  total (zip_with Z.mul (replicate n 0) w) = 0.
Proof.
  revert w. induction n as [|n IH]; intros [|x w]; try done.
  unfold total in *. simpl. by rewrite IH.
Qed.

(** The column sums: without wrap-around, and linear in the rows. *)
Lemma colsum_spec (n : nat) (mask : image2 bool) (w : list Z) :
  Forall (fun row => length row = n) mask ->
  Z.of_nat (length mask) < 2 ^ 63 ->
  let cs := foldr (fun row acc =>
                     zip_with (fun (b : bool) c => wrap64 (Z.b2z b + c)) row acc)
                  (replicate n 0) mask in
  length cs = n /\
  Forall (fun c => 0 <= c <= Z.of_nat (length mask)) cs /\
  total (zip_with Z.mul cs w)
  = total (map (fun row => total (zip_with Z.mul (map Z.b2z row) w)) mask).
Proof.
  intros Hrows. induction Hrows as [|row mask Hrow Hrows IH]; intros Hlen cs.
  - subst cs. simpl. split; [by rewrite length_replicate|]. split.
    + apply Forall_replicate. lia.
    + apply total_zeros.
  - simpl in Hlen. destruct IH as (IHl & IHb & IHt); [lia|].
    subst cs. simpl.
    set (cs := foldr _ (replicate n 0) mask) in *.
    assert (zip_with (fun (b : bool) c => wrap64 (Z.b2z b + c)) row cs
            = zip_with (fun (b : bool) c => Z.b2z b + c) row cs) as ->.
    { clear IHt IHl Hrow. revert row.
      induction IHb as [|c cs Hc _ IH']; intros [|b row]; try done.
      simpl. rewrite IH'. f_equal. apply wrap64_id.
      change (2 ^ 63) with 9223372036854775808 in *.
      destruct b; simpl; lia. }
    split; [rewrite length_zip_with; lia|]. split.
    + clear IHt. revert row Hrow. generalize n. clear IHl.
      induction IHb as [|c cs Hc _ IH']; intros n' [|b row] Hrow;
        try constructor.
      * destruct b; simpl; lia.
      * simpl in Hrow. apply (IH' (length row)). done.
    + rewrite total_zip_add by lia. rewrite IHt. done.
Qed.

(** ** The centroid *)

Lemma total_map_bounds {A : Type} (f g : A -> Z) (l : list A) (lo hi : Z) :
  Forall (fun x => lo * g x <= f x <= hi * g x) l ->
  lo * total (map g l) <= total (map f l) <= hi * total (map g l).
Proof.
  unfold total. induction 1 as [|x l Hx _ IH]; simpl; lia.
Qed.

Lemma rowdot_bounds (row : list bool) (lo hi : Z) :
  (forall j, row !! j = Some true -> lo <= Z.of_nat j <= hi) ->
  lo * count row
  <= total (zip_with Z.mul (map Z.b2z row) (np_arange (length row)))
  <= hi * count row.
Proof.
  intros H. unfold count, np_arange.
  rewrite <- (length_map Z.b2z row).
  apply (weighted_total_bounds (map Z.b2z row) 0 lo hi).
  intros j c Hj. rewrite lookup_map in Hj.
  destruct (row !! j) as [b|] eqn:E; [|done]. injection Hj as <-.
  destruct b; simpl; [|lia]. split; [lia|]. intros _. by apply H.
Qed.

(** An image of moderate size: its sides are below [2 ^ 27], and its sums
    of row or column indices are below [2 ^ 53]. *)
Lemma small_image_bounds (D0 D1 : Z) :
  0 < D0 -> 0 < D1 -> D0 * D1 * Z.max D0 D1 < 2 ^ 53 ->
  D0 < 2 ^ 27 /\ D1 < 2 ^ 27 /\ D0 * D1 < 2 ^ 53 /\
  (D0 - 1) * (D0 * D1) < 2 ^ 53 /\ (D1 - 1) * (D0 * D1) < 2 ^ 53.
Proof.
  intros H0 H1 Hs.
  assert (D0 <= Z.max D0 D1 /\ D1 <= Z.max D0 D1) as [HM0 HM1] by lia.
  set (M := Z.max D0 D1) in *. clearbody M.
  assert (0 < D0 * D1) as HP by (apply Z.mul_pos_pos; lia).
  assert (D0 <= D0 * D1 /\ D1 <= D0 * D1) as [HP0 HP1].
  { pose proof (Z.mul_le_mono_nonneg_l 1 D1 D0 ltac:(lia) ltac:(lia)).
    pose proof (Z.mul_le_mono_nonneg_r 1 D0 D1 ltac:(lia) ltac:(lia)). lia. }
  assert (forall x, 0 <= x <= M - 1 -> x * (D0 * D1) < 2 ^ 53) as Hx.
  { intros x Hx.
    pose proof (Z.mul_le_mono_nonneg_r x (M - 1) (D0 * D1)
                  ltac:(lia) ltac:(lia)). lia. }
  assert (forall D, 0 < D -> D <= M -> D <= D0 * D1 -> D < 2 ^ 27) as Hlt.
  { intros D HD HDM HDP.
    destruct (Z.lt_ge_cases D (2 ^ 27)) as [?|Hge]; [done|].
    pose proof (Z.mul_le_mono_nonneg (2 ^ 27) D (2 ^ 27) M
                  ltac:(lia) Hge ltac:(lia) ltac:(lia)) as Hsq.
    pose proof (Z.mul_le_mono_nonneg_r D (D0 * D1) M ltac:(lia) HDP).
    change (2 ^ 27 * 2 ^ 27) with (2 * 2 ^ 53) in Hsq. lia. }
  split; [by apply Hlt|]. split; [by apply Hlt|]. split.
  - pose proof (Z.mul_le_mono_nonneg_l 1 M (D0 * D1) ltac:(lia) ltac:(lia)).
    lia.
  - split; apply Hx; lia.
Qed.

Lemma weighted_sum_range (n s A B D P : Z) :
  0 <= A -> B <= D - 1 -> 0 < D -> 0 < s <= P ->
  A * s <= n <= B * s -> (D - 1) * P < 2 ^ 53 ->
  0 <= n < 2 ^ 53.
Proof.
  intros HA HB HD Hs Hn HP.
  pose proof (Z.mul_nonneg_nonneg A s HA ltac:(lia)).
  pose proof (Z.mul_le_mono_nonneg_r B (D - 1) s ltac:(lia) HB).
  pose proof (Z.mul_le_mono_nonneg_l s P (D - 1) ltac:(lia) ltac:(lia)).
  lia.
Qed.

Section CenterOfMass.

Variables (d0 d1 : nat) (mask : list (list bool)).

Hypothesis mask_rect : rect2 d0 d1 mask.

Hypothesis mask_small :
  Z.of_nat d0 * Z.of_nat d1 * Z.max (Z.of_nat d0) (Z.of_nat d1) < 2 ^ 53.

Hypothesis mask_nonempty : exists i j, at2 mask i j = Some true.

Lemma mask_dims : (0 < d0)%nat /\ (0 < d1)%nat /\ length (hd [] mask) = d1.
Proof.
  destruct mask_nonempty as (i & j & H). destruct mask_rect as [Hl Hrows].
  unfold at2 in H. destruct (mask !! i) as [row|] eqn:E; [|done].
  pose proof (lookup_lt_Some _ _ _ E). split; [lia|].
  rewrite Forall_forall in Hrows.
  pose proof (Hrows row ltac:(by eapply list_elem_of_lookup_2)) as Hr.
  pose proof (lookup_lt_Some _ _ _ H). split; [lia|].
  destruct mask as [|r0 m]; [done|]. simpl. apply Hrows. left.
Qed.

Lemma mask_total : 0 < count (concat mask) <= Z.of_nat d0 * Z.of_nat d1.
Proof.
  destruct mask_rect as [Hl Hrows]. split.
  - destruct mask_nonempty as (i & j & H). unfold at2 in H.
    destruct (mask !! i) as [row|] eqn:E; [|done].
    rewrite count_concat.
    pose proof (count_true_pos _ _ H) as Hpos.
    apply list_elem_of_lookup_2 in E.
    clear -E Hpos. induction mask as [|r m IH]; [by apply elem_of_nil in E|].
    unfold total in *. simpl.
    assert (0 <= foldr Z.add 0 (map count m)) as Hnn.
    { clear. induction m as [|r' m IH]; simpl; [lia|].
      pose proof (count_bounds r'). lia. }
    apply elem_of_cons in E as [<-|E]; [lia|].
    pose proof (count_bounds r). specialize (IH E). lia.
  - pose proof (count_bounds (concat mask)) as [_ H].
    rewrite (length_concat_uniform d1) in H by done. lia.
Qed.

Lemma sum_all_exact : sum_all mask = count (concat mask).
Proof.
  unfold sum_all, np_sum. apply wrap64_id.
  pose proof mask_total. pose proof mask_dims as (? & ? & _).
  change (2 ^ 63) with (2 ^ 10 * 2 ^ 53). nia.
Qed.

Lemma sum_axis1_exact : sum_axis1 mask = map count mask.
Proof.
  destruct mask_rect as [Hl Hrows]. unfold sum_axis1.
  apply map_ext_Forall. eapply Forall_impl; [exact Hrows|].
  intros row Hr. simpl. apply wrap64_id.
  pose proof (count_bounds row). pose proof mask_dims as (? & ? & _).
  rewrite Hr in *. change (2 ^ 63) with (2 ^ 10 * 2 ^ 53). nia.
Qed.

Lemma dot_axis1_bounds (lo hi : Z) :
  (forall i j, at2 mask i j = Some true -> lo <= Z.of_nat i <= hi) ->
  lo * count (concat mask)
  <= total (zip_with Z.mul (map count mask) (np_arange (length mask)))
  <= hi * count (concat mask).
Proof.
  intros H. rewrite count_concat. unfold np_arange.
  rewrite <- (length_map count mask).
  apply (weighted_total_bounds (map count mask) 0 lo hi).
  intros i c Hi. rewrite lookup_map in Hi.
  destruct (mask !! i) as [row|] eqn:E; [|done]. injection Hi as <-.
  split; [apply count_bounds|]. intros [j Hj]%count_pos_true.
  apply (H i j). unfold at2. by rewrite E.
Qed.

Lemma dot_axis0_bounds (lo hi : Z) :
  (forall i j, at2 mask i j = Some true -> lo <= Z.of_nat j <= hi) ->
  lo * count (concat mask)
  <= total (map (fun row => total (zip_with Z.mul (map Z.b2z row)
                                     (np_arange d1))) mask)
  <= hi * count (concat mask).
Proof.
  intros H. rewrite count_concat. apply total_map_bounds.
  destruct mask_rect as [_ Hrows].
  apply Forall_forall. intros row Hin.
  rewrite Forall_forall in Hrows. rewrite <- (Hrows row Hin).
  apply rowdot_bounds. intros j Hj.
  apply list_elem_of_lookup_1 in Hin as [i Hi].
  apply (H i j). unfold at2. by rewrite Hi.
Qed.

Lemma true_pixel_in_image (i j : nat) :
  at2 mask i j = Some true ->
  0 <= Z.of_nat i <= Z.of_nat d0 - 1 /\ 0 <= Z.of_nat j <= Z.of_nat d1 - 1.
Proof.
  destruct mask_rect as [Hl Hrows]. unfold at2.
  destruct (mask !! i) as [row|] eqn:E; [|done]. intros Hj.
  pose proof (lookup_lt_Some _ _ _ E). pose proof (lookup_lt_Some _ _ _ Hj).
  rewrite Forall_forall in Hrows.
  rewrite (Hrows row) in * by (by eapply list_elem_of_lookup_2). lia.
Qed.

(** The centroid of a non-empty mask of moderate size: the integer sums are
    exact, and the rounded quotients stay between the bounds of the true
    pixels. *)
Lemma center_of_mass_bounds (r_lo r_hi c_lo c_hi : Z) :
  (forall i j, at2 mask i j = Some true ->
     r_lo <= Z.of_nat i <= r_hi /\ c_lo <= Z.of_nat j <= c_hi) ->
  exists c0 c1,
    center_of_mass_as_int mask = Ok (c0, c1) /\
    r_lo <= c0 <= r_hi /\ c_lo <= c1 <= c_hi /\
    0 <= c0 < Z.of_nat d0 /\ 0 <= c1 < Z.of_nat d1.
Proof.
  intros Hbox.
  pose proof mask_dims as (Hd0 & Hd1 & Hhd).
  pose proof mask_total as Hs.
  pose proof mask_rect as [Hl Hrows].
  set (s := count (concat mask)) in *.
  set (A0 := Z.max r_lo 0). set (B0 := Z.min r_hi (Z.of_nat d0 - 1)).
  set (A1 := Z.max c_lo 0). set (B1 := Z.min c_hi (Z.of_nat d1 - 1)).
  pose proof (dot_axis1_bounds A0 B0) as Hn0.
  pose proof (dot_axis0_bounds A1 B1) as Hn1.
  fold s in Hn0, Hn1.
  destruct Hn0 as [Hn0lo Hn0hi].
  { intros i j Hij. pose proof (Hbox i j Hij).
    pose proof (true_pixel_in_image i j Hij). unfold A0, B0. lia. }
  destruct Hn1 as [Hn1lo Hn1hi].
  { intros i j Hij. pose proof (Hbox i j Hij).
    pose proof (true_pixel_in_image i j Hij). unfold A1, B1. lia. }
  assert (0 <= A0 /\ B0 <= Z.of_nat d0 - 1 /\ 0 <= A1 /\ B1 <= Z.of_nat d1 - 1)
    as (HA0 & HB0 & HA1 & HB1) by (unfold A0, B0, A1, B1; lia).
  destruct (small_image_bounds (Z.of_nat d0) (Z.of_nat d1))
    as (Hd027 & Hd127 & HP53 & HP0 & HP1); [lia|lia|exact mask_small|].
  assert (s < 2 ^ 53) as Hs53 by lia.
  unfold center_of_mass_as_int.
  rewrite sum_all_exact. fold s.
  set (n0 := total (zip_with Z.mul (map count mask) (np_arange (length mask))))
    in *.
  set (n1 := total (map (fun row => total (zip_with Z.mul (map Z.b2z row)
                                             (np_arange d1))) mask)) in *.
  assert (0 <= n0 < 2 ^ 53) as Hn0r
    by (apply (weighted_sum_range n0 s A0 B0 (Z.of_nat d0)
                 (Z.of_nat d0 * Z.of_nat d1)); lia).
  assert (0 <= n1 < 2 ^ 53) as Hn1r
    by (apply (weighted_sum_range n1 s A1 B1 (Z.of_nat d1)
                 (Z.of_nat d0 * Z.of_nat d1)); lia).
  assert (np_dot (sum_axis1 mask) (np_arange (length mask)) = n0) as ->.
  { unfold np_dot, np_sum. rewrite sum_axis1_exact. apply wrap64_id.
    fold (total (zip_with Z.mul (map count mask) (np_arange (length mask)))).
    fold n0. change (2 ^ 63) with (2 ^ 10 * 2 ^ 53). lia. }
  assert (np_dot (sum_axis0 mask) (np_arange (length (hd [] mask))) = n1) as ->.
  { unfold np_dot, np_sum, sum_axis0. rewrite Hhd.
    destruct (colsum_spec d1 mask (np_arange d1) Hrows) as (_ & _ & Ht).
    { rewrite Hl. change (2 ^ 63) with (2 ^ 36 * 2 ^ 27). lia. }
    fold (total (zip_with Z.mul
                   (foldr (fun row acc =>
                      zip_with (fun (b : bool) n => wrap64 (Z.b2z b + n)) row acc)
                      (replicate d1 0) mask) (np_arange d1))).
    rewrite Ht. fold n1. apply wrap64_id.
    change (2 ^ 63) with (2 ^ 10 * 2 ^ 53). lia. }
  destruct (round_half_bounds n0 s A0 B0) as (c0 & -> & Hc0); [lia..|].
  destruct (round_half_bounds n1 s A1 B1) as (c1 & -> & Hc1); [lia..|].
  exists c0, c1. split; [done|]. unfold A0, B0, A1, B1 in *. lia.
Qed.

End CenterOfMass.

Lemma elem_of_drop_1 {A : Type} (x : A) (n : nat) (l : list A) :
  x ∈ drop n l -> x ∈ l.
Proof.
  revert n. induction l as [|y l IH]; intros [|n]; simpl; try done.
  intros H%IH. by right.
Qed.

Lemma elem_of_concat_at2 {A : Type} (x : A) (a : list (list A)) :
  x ∈ concat a -> exists i j, at2 a i j = Some x.
Proof.
  induction a as [|row a IH]; simpl; [by intros ?%elem_of_nil|].
  intros [Hin|Hin]%elem_of_app.
  - apply list_elem_of_lookup_1 in Hin as [j Hj]. by exists 0%nat, j.
  - destruct (IH Hin) as (i & j & H). by exists (S i), j.
Qed.

Lemma at2_elem_of_concat {A : Type} (x : A) (a : list (list A)) (i j : nat) :
  at2 a i j = Some x -> x ∈ concat a.
Proof.
  revert i. induction a as [|row a IH]; intros [|i]; unfold at2; simpl;
    try done.
  - intros H. apply elem_of_app. left. by eapply list_elem_of_lookup_2.
  - intros H. apply elem_of_app. right. by apply (IH i).
Qed.

Lemma at2_eq_mask (marker : list (list Z)) (k : Z) (i j : nat) :
  at2 (eq_mask marker k) i j = Some true <-> at2 marker i j = Some k.
Proof.
  unfold eq_mask. rewrite at2_map.
  destruct (at2 marker i j) as [v|]; simpl; [|done].
  destruct (Z.eqb_spec v k); split; intros [=]; congruence.
Qed.

(** The centroid of every object of a well-formed marker image. *)
Lemma object_centroid (marker : list (list Z)) (k : Z)
    (r_lo r_hi c_lo c_hi : Z) :
  wf2 marker ->
  Z.of_nat (length marker) * Z.of_nat (length (hd [] marker))
  * Z.max (Z.of_nat (length marker)) (Z.of_nat (length (hd [] marker)))
  < 2 ^ 53 ->
  k ∈ concat marker ->
  (forall i j, at2 marker i j = Some k ->
     r_lo <= Z.of_nat i <= r_hi /\ c_lo <= Z.of_nat j <= c_hi) ->
  exists c0 c1,
    center_of_mass_as_int (eq_mask marker k) = Ok (c0, c1) /\
    r_lo <= c0 <= r_hi /\ c_lo <= c1 <= c_hi /\
    0 <= c0 < Z.of_nat (length marker) /\
    0 <= c1 < Z.of_nat (length (hd [] marker)).
Proof.
  intros Hwf Hsmall Hin Hbox.
  apply (center_of_mass_bounds (length marker) (length (hd [] marker))).
  - by apply rect2_map.
  - done.
  - apply elem_of_concat_at2 in Hin as (i & j & H).
    exists i, j. by apply at2_eq_mask.
  - intros i j H%at2_eq_mask. by apply Hbox.
Qed.

(** X2. The centroid of an object of a well-formed marker image of moderate
    size is computed without an exception and lies inside the image and
    inside every box of rows and columns that holds all pixels of the
    object. An object lying in one row, one column or one pixel therefore
    has exactly that row, column or pixel as its centroid. *)
Theorem centroid_in_bounding_box (marker : image2 Z) (k : Z)
    (r_lo r_hi c_lo c_hi : Z) :
  wf2 marker ->
  Z.of_nat (length marker) * Z.of_nat (length (hd [] marker))
  * Z.max (Z.of_nat (length marker)) (Z.of_nat (length (hd [] marker)))
  < 2 ^ 53 ->
  k ∈ concat marker ->
  (forall i j, at2 marker i j = Some k ->
     r_lo <= Z.of_nat i <= r_hi /\ c_lo <= Z.of_nat j <= c_hi) ->
  exists c0 c1,
    center_of_mass_as_int (eq_mask marker k) = Ok (c0, c1) /\
    r_lo <= c0 <= r_hi /\ c_lo <= c1 <= c_hi /\
    0 <= c0 < Z.of_nat (length marker) /\
    0 <= c1 < Z.of_nat (length (hd [] marker)).
Proof. apply object_centroid. Qed.

Lemma corner_marker_box_2 (i j : nat) :
  at2 corner_marker i j = Some 2 ->
  2 <= Z.of_nat i <= 2 /\ 2 <= Z.of_nat j <= 2.
Proof.
  intros H.
  destruct i as [|[|[|i]]]; destruct j as [|[|[|j]]]; vm_compute in H;
    try discriminate H; lia.
Defined.

Lemma centroid_in_bounding_box_witness :
  exists c0 c1,
    center_of_mass_as_int (eq_mask corner_marker 2) = Ok (c0, c1) /\
    2 <= c0 <= 2 /\ 2 <= c1 <= 2 /\ 0 <= c0 < 3 /\ 0 <= c1 < 3.
Proof.
  apply (centroid_in_bounding_box corner_marker 2 2 2 2 2 corner_wf_marker).
  - vm_compute. reflexivity.
  - vm_compute. do 8 apply list_elem_of_further. apply list_elem_of_here.
  - exact corner_marker_box_2.
Defined.

(** ** The outcome of construction *)

(** The loop of [create_patches] ends without an exception when every
    centroid is computed. *)
Lemma create_patches_loop_defined (img : image3 F32.t) (marker : image2 Z)
    (label : option (image2 Z)) (crop : Z) (indices : list Z)
    (ps0 : Py.dict patch) :
  - 2 ^ 62 <= crop <= 2 ^ 62 ->
  Forall (fun ind => is_ok (center_of_mass_as_int (eq_mask marker ind)) = true)
         indices ->
  exists ps, create_patches_loop img marker label crop indices ps0 = Ok ps.
Proof.
  intros _ Hall. revert ps0.
  induction Hall as [|ind indices Hind _ IH]; intros ps0; simpl.
  - by exists ps0.
  - assert (exists p, make_patch img marker label crop ind = Ok p) as [p ->].
    { unfold make_patch.
      destruct (center_of_mass_as_int _) as [[c0 c1]|e]; [|done].
      destruct label; simpl; by eexists. }
    simpl. apply IH.
Qed.

(** X1. The outcome of the constructor on a well-formed marker image of
    moderate size ([H * W * max(H, W) < 2 ^ 53]) with a crop size between
    [- 2 ^ 62] and [2 ^ 62], the range in which the 64-bit arithmetic on the
    coordinates cannot overflow: the [ValueError] of the shape test when a
    shape differs, the [ValueError] of [np.min] when the raw image has no
    pixel, and an object in every other case, whatever the pixel values and
    the label values are. *)
Theorem init_outcome (data_img : raw_image) (marker : image2 Z)
    (label : option (image2 Z)) (crop : Z) :
  wf2 marker ->
  Z.of_nat (length marker) * Z.of_nat (length (hd [] marker))
  * Z.max (Z.of_nat (length marker)) (Z.of_nat (length (hd [] marker)))
  < 2 ^ 53 ->
  - 2 ^ 62 <= crop <= 2 ^ 62 ->
  if shape_mismatch data_img marker label
  then init data_img marker label crop
       = Raise (ValueError "Image size not match each other")
  else match concat (with_channel_axis data_img) with
       | [] => init data_img marker label crop
               = Raise (ValueError
                   "zero-size array to reduction operation minimum which has no identity")
       | _ :: _ => exists ds, init data_img marker label crop = Ok ds
       end.
Proof.
  intros Hwf Hsmall Hcrop.
  destruct (shape_mismatch data_img marker label) eqn:Hmis;
    [by apply init_mismatch_raises|].
  destruct (concat (with_channel_axis data_img)) as [|px pxs] eqn:Hpx.
  { unfold init, normalize_img, reduce_axis01. by rewrite Hmis, Hpx. }
  assert (exists im, normalize_img data_img = Ok im) as [im Him].
  { unfold normalize_img, reduce_axis01. rewrite Hpx. simpl.
    rewrite concat_map_map, Hpx. simpl. by eexists. }
  destruct (create_patches_loop_defined im marker label crop
              (drop 1 (Py.unique marker)) [] Hcrop) as [ps Hps].
  { apply Forall_forall. intros k Hk%elem_of_drop_1%unique_elem.
    destruct (object_centroid marker k 0 (Z.of_nat (length marker))
                0 (Z.of_nat (length (hd [] marker))) Hwf Hsmall Hk)
      as (c0 & c1 & -> & _); [|done].
    intros i j Hij.
    destruct (at2_Some_inv i j marker k Hwf Hij). lia. }
  exists (mkDataset im marker label crop ps).
  unfold init. rewrite Hmis, Him. simpl. unfold create_patches.
  by rewrite Hps.
Qed.

(** ** The window and the object *)

Lemma corner_small :
  Z.of_nat (length corner_marker) * Z.of_nat (length (hd [] corner_marker))
  * Z.max (Z.of_nat (length corner_marker))
          (Z.of_nat (length (hd [] corner_marker)))
  < 2 ^ 53.
Proof. vm_compute. reflexivity. Defined.

Lemma corner_crop_range : - 2 ^ 62 <= 2 <= 2 ^ 62.
Proof. lia. Defined.

Lemma init_outcome_witness :
  exists ds, init corner_raw corner_marker None 2 = Ok ds.
Proof.
  exact (init_outcome corner_raw corner_marker None 2 corner_wf_marker
           corner_small corner_crop_range).
Defined.

(** The record of an object: its centroid and its window origin. *)
Lemma init_record_centroid (data_img : raw_image) (marker : image2 Z)
    (label : option (image2 Z)) (crop : Z) (ds : Dataset)
    (r_lo r_hi c_lo c_hi : Z) (k : Z) (p : patch) :
  wf2 marker ->
  Z.of_nat (length marker) * Z.of_nat (length (hd [] marker))
  * Z.max (Z.of_nat (length marker)) (Z.of_nat (length (hd [] marker)))
  < 2 ^ 53 ->
  init data_img marker label crop = Ok ds ->
  (k, p) ∈ patch_set ds ->
  (forall i j, at2 marker i j = Some k ->
     r_lo <= Z.of_nat i <= r_hi /\ c_lo <= Z.of_nat j <= c_hi) ->
  exists c0 c1,
    center_of_mass_as_int (eq_mask marker k) = Ok (c0, c1) /\
    patch_coord p
    = (Py.sorted3_mid 0 (c0 - crop / 2) (Z.of_nat (length marker) - crop),
       Py.sorted3_mid 0 (c1 - crop / 2)
         (Z.of_nat (length (hd [] marker)) - crop)) /\
    r_lo <= c0 <= r_hi /\ c_lo <= c1 <= c_hi /\
    0 <= c0 < Z.of_nat (length marker) /\
    0 <= c1 < Z.of_nat (length (hd [] marker)) /\
    k ∈ concat marker.
Proof.
  intros Hwf Hsmall Hinit Hin Hbox.
  pose proof (init_keys _ _ _ _ _ Hinit) as Hkeys.
  pose proof (init_patch_set _ _ _ _ _ Hinit) as (_ & _ & _ & _ & _ & Hps).
  assert (k ∈ concat marker) as Hk.
  { apply unique_elem, (elem_of_drop_1 _ 1). rewrite <- Hkeys.
    unfold Py.dict_keys. apply list_elem_of_fmap. by exists (k, p). }
  apply Hps in Hin as (c0 & c1 & Hc & Hcoord & _)%make_patch_Ok.
  destruct (object_centroid marker k r_lo r_hi c_lo c_hi Hwf Hsmall Hk Hbox)
    as (c0' & c1' & Hc' & Hb).
  rewrite Hc in Hc'. injection Hc' as <- <-.
  exists c0, c1. by repeat split; try apply Hb.
Qed.

(** The clipped window around a centre holds every index closer to the
    centre than half the crop size. *)
Lemma window_covers (c d crop i : Z) :
  0 <= c < d -> 0 <= i < d -> 1 <= crop <= d ->
  Z.abs (i - c) < Z.max 1 (crop / 2) ->
  Py.sorted3_mid 0 (c - crop / 2) (d - crop) <= i
  < Py.sorted3_mid 0 (c - crop / 2) (d - crop) + crop.
Proof.
  intros Hc Hi Hcrop Habs.
  rewrite sorted3_mid_clamp by lia. unfold clamp.
  pose proof (Z.div_mod crop 2 ltac:(lia)).
  pose proof (Z.mod_pos_bound crop 2 ltac:(lia)). lia.
Qed.

(** X4. On a construction over a well-formed marker image of moderate size
    ([H * W * max(H, W) < 2 ^ 53]) with [1 <= crop_size <= min(H, W)], the
    window of every record contains the centroid of its object: the centroid
    lies in the image, and its row and column lie in the [crop_size] rows
    and columns that start at the stored coordinate. *)
Theorem window_contains_centroid (data_img : raw_image) (marker : image2 Z)
    (label : option (image2 Z)) (crop : Z) (ds : Dataset) :
  wf2 marker ->
  Z.of_nat (length marker) * Z.of_nat (length (hd [] marker))
  * Z.max (Z.of_nat (length marker)) (Z.of_nat (length (hd [] marker)))
  < 2 ^ 53 ->
  init data_img marker label crop = Ok ds ->
  1 <= crop ->
  crop <= Z.min (Z.of_nat (length marker)) (Z.of_nat (length (hd [] marker))) ->
  forall k p, (k, p) ∈ patch_set ds ->
    exists c0 c1,
      center_of_mass_as_int (eq_mask marker k) = Ok (c0, c1) /\
      0 <= c0 < Z.of_nat (length marker) /\
      0 <= c1 < Z.of_nat (length (hd [] marker)) /\
      (patch_coord p).1 <= c0 < (patch_coord p).1 + crop /\
      (patch_coord p).2 <= c1 < (patch_coord p).2 + crop.
Proof.
  intros Hwf Hsmall Hinit Hcrop Hmin k p Hin.
  destruct (init_record_centroid data_img marker label crop ds
              0 (Z.of_nat (length marker)) 0 (Z.of_nat (length (hd [] marker)))
              k p Hwf Hsmall Hinit Hin)
    as (c0 & c1 & Hc & -> & _ & _ & H0 & H1 & _).
  { intros i j Hij. destruct (at2_Some_inv i j marker k Hwf Hij). lia. }
  exists c0, c1. split; [done|]. split; [done|]. split; [done|]. simpl.
  split; apply window_covers; try lia.
Qed.

Lemma window_contains_centroid_witness :
  exists c0 c1,
    center_of_mass_as_int (eq_mask corner_marker 2) = Ok (c0, c1) /\
    0 <= c0 < 3 /\ 0 <= c1 < 3 /\
    (patch_coord (record_of 2 corner_ds)).1 <= c0
    < (patch_coord (record_of 2 corner_ds)).1 + 2 /\
    (patch_coord (record_of 2 corner_ds)).2 <= c1
    < (patch_coord (record_of 2 corner_ds)).2 + 2.
Proof.
  apply (window_contains_centroid corner_raw corner_marker None 2 corner_ds
           corner_wf_marker corner_small corner_init) with (k := 2).
  - lia.
  - simpl. lia.
  - exact corner_record_2.
Defined.

(** X5. On a construction over a well-formed marker image of moderate size
    ([H * W * max(H, W) < 2 ^ 53]) with [1 <= crop_size <= min(H, W)], an
    object whose bounding box is less than [max(1, crop_size // 2)] high and
    wide lies entirely inside its window: every pixel of the object lies in
    the [crop_size] rows and columns that start at the stored coordinate. *)
Theorem small_object_inside_window (data_img : raw_image) (marker : image2 Z)
    (label : option (image2 Z)) (crop : Z) (ds : Dataset)
    (r_lo r_hi c_lo c_hi : Z) :
  wf2 marker ->
  Z.of_nat (length marker) * Z.of_nat (length (hd [] marker))
  * Z.max (Z.of_nat (length marker)) (Z.of_nat (length (hd [] marker)))
  < 2 ^ 53 ->
  init data_img marker label crop = Ok ds ->
  1 <= crop ->
  crop <= Z.min (Z.of_nat (length marker)) (Z.of_nat (length (hd [] marker))) ->
  forall k p, (k, p) ∈ patch_set ds ->
    (forall i j, at2 marker i j = Some k ->
       r_lo <= Z.of_nat i <= r_hi /\ c_lo <= Z.of_nat j <= c_hi) ->
    r_hi - r_lo < Z.max 1 (crop / 2) -> c_hi - c_lo < Z.max 1 (crop / 2) ->
    forall i j, at2 marker i j = Some k ->
      (patch_coord p).1 <= Z.of_nat i < (patch_coord p).1 + crop /\
      (patch_coord p).2 <= Z.of_nat j < (patch_coord p).2 + crop.
Proof.
  intros Hwf Hsmall Hinit Hcrop Hmin k p Hin Hbox Hr Hc i j Hij.
  destruct (init_record_centroid data_img marker label crop ds
              r_lo r_hi c_lo c_hi k p Hwf Hsmall Hinit Hin Hbox)
    as (c0 & c1 & _ & -> & Hb0 & Hb1 & H0 & H1 & _).
  destruct (Hbox i j Hij) as [Hi Hj].
  destruct (at2_Some_inv i j marker k Hwf Hij).
  simpl. split; apply window_covers; lia.
Qed.

(** The 6 x 6 example: an object of three pixels, cut with a crop size
    of 4. *)
Lemma ell_wf_marker : wf2 ell_marker.
Proof. split; [reflexivity | repeat constructor]. Defined.

Lemma ell_small :
  Z.of_nat (length ell_marker) * Z.of_nat (length (hd [] ell_marker))
  * Z.max (Z.of_nat (length ell_marker))
          (Z.of_nat (length (hd [] ell_marker)))
  < 2 ^ 53.
Proof. vm_compute. reflexivity. Defined.

Lemma ell_init : init ell_raw ell_marker None 4 = Ok ell_ds.
Proof. vm_compute. reflexivity. Defined.

Lemma ell_record_1 : (1, record_of 1 ell_ds) ∈ patch_set ell_ds.
Proof. vm_compute. apply list_elem_of_here. Defined.

Lemma ell_marker_box (i j : nat) :
  at2 ell_marker i j = Some 1 ->
  2 <= Z.of_nat i <= 3 /\ 2 <= Z.of_nat j <= 3.
Proof.
  intros H.
  destruct i as [|[|[|[|[|[|i]]]]]]; destruct j as [|[|[|[|[|[|j]]]]]];
    vm_compute in H; try discriminate H; lia.
Defined.

Lemma small_object_inside_window_witness :
  (patch_coord (record_of 1 ell_ds)).1 <= Z.of_nat 3
  < (patch_coord (record_of 1 ell_ds)).1 + 4 /\
  (patch_coord (record_of 1 ell_ds)).2 <= Z.of_nat 2
  < (patch_coord (record_of 1 ell_ds)).2 + 4.
Proof.
  apply (small_object_inside_window ell_raw ell_marker None 4 ell_ds
           2 3 2 3 ell_wf_marker ell_small ell_init)
    with (k := 1) (i := 3%nat) (j := 2%nat).
  - lia.
  - simpl. lia.
  - exact ell_record_1.
  - exact ell_marker_box.
  - vm_compute. reflexivity.
  - vm_compute. reflexivity.
  - reflexivity.
Defined.
